(** * Data Matrix high-level encoder (ISO/IEC 16022 Annex P)

    A shallow embedding of [core/src/datamatrix/DMHighLevelEncoder.cpp] and
    the properties its specification states about it.

    Conventions of the embedding.
    - [int] and [size_t] values are [Z]. The counts, lengths and
      positions that the encoder computes itself stay far from the 32-bit
      limits, and the operands of its [/] and [%] are not negative there,
      so that [Z.div] and [Z.modulo] are the operators of C++. The two
      randomizing functions are the exception: they take the position as
      an argument that they do not bound, so their product
      [149 * codewordPosition] is written with the wrap-around of 32 bits
      ([int_wrap]) and their [%] with the truncating [Z.rem]. A negative
      [int] converted to [size_t] is written out where the source converts
      ([LookAheadTest], [currentChar]).
    - A [std::string], the message as well as the buffers, holds octets:
      the message is a [list ascii], whose character [ch] has the octet
      [code ch], and a buffer is a [list Z]. The type [char] is signed, as
      on the x86 platforms: where the source converts a [char] from 128 on
      to [int], in the look-ahead test ([int c = msg.at(...)] and
      [int tc = msg.at(p)]), in the last loop of the Base 256 encoder
      ([for (char c : buffer)]) and at the literal ['\xfe'] of the
      driver, the value is the octet less 256 ([char_to_int]). At the
      other conversions both readings give the same result: the values
      of the C40, Text, X12 and EDIFACT buffers are below 128, [IsDigit]
      holds for no character from 128 on in either reading, and the
      tests of [C40Encoder::EncodeChar] on its [char] take the branch
      that the tests on the octet written here take (a [char] from 128
      on fails all of them but the last, [c >= '\x80'], and
      [(char)(c - 0x80)] is the octet less 128).
    - The local [std::string] buffers hold small integers and are
      [list Z].
    - [float] is IEEE 754 binary32 with round-to-nearest-even, each
      operation rounded to single precision, through the specification
      of floating-point arithmetic of the standard library ([SpecFloat],
      precision 24, [emax] 128).
    - The encoder context is a mutable object passed by reference, and
      exceptions leave it as it was when they were thrown: a computation
      is a function from the context to a result that carries the context
      in both outcomes.
    - A loop is a function by recursion on a count of turns. The loops of
      the encoders consume a character in each turn and get the count of
      the remaining characters; the main loop of the driver gets its
      count from the caller. *)

From Stdlib Require Import ZArith List Bool Lia String Ascii SpecFloat.
Import ListNotations.
Open Scope Z_scope.

(** ** Constants *)

Definition PAD : Z := 129.
Definition UPPER_SHIFT : Z := 235.
Definition MACRO_05 : Z := 236.
Definition MACRO_06 : Z := 237.
Definition C40_UNLATCH : Z := 254.
Definition X12_UNLATCH : Z := 254.

(** The anonymous [enum] of encodation modes. *)
Inductive Encodation : Type :=
| ASCII_ENCODATION
| C40_ENCODATION
| TEXT_ENCODATION
| X12_ENCODATION
| EDIFACT_ENCODATION
| BASE256_ENCODATION.

Definition Encodation_eqb (a b : Encodation) : bool :=
  match a, b with
  | ASCII_ENCODATION, ASCII_ENCODATION
  | C40_ENCODATION, C40_ENCODATION
  | TEXT_ENCODATION, TEXT_ENCODATION
  | X12_ENCODATION, X12_ENCODATION
  | EDIFACT_ENCODATION, EDIFACT_ENCODATION
  | BASE256_ENCODATION, BASE256_ENCODATION => true
  | _, _ => false
  end.

(** The modes in the order of their enumerators, [0] to [5]. *)
Definition all_modes : list Encodation :=
  [ASCII_ENCODATION; C40_ENCODATION; TEXT_ENCODATION; X12_ENCODATION;
   EDIFACT_ENCODATION; BASE256_ENCODATION].

Definition LATCHES (m : Encodation) : Z :=
  match m with
  | ASCII_ENCODATION => 0
  | C40_ENCODATION => 230
  | TEXT_ENCODATION => 239
  | X12_ENCODATION => 238
  | EDIFACT_ENCODATION => 240
  | BASE256_ENCODATION => 231
  end.

(** ** Characters *)

Definition message := list ascii.

(** The octet of a character. *)
Definition code (a : ascii) : Z := Z.of_N (N_of_ascii a).

Definition msg_of (s : string) : message := list_ascii_of_string s.

(** [msg.length()] *)
Definition msg_length (msg : message) : Z := Z.of_nat (List.length msg).

(** [msg.at(i)], which throws [std::out_of_range] (here [None]) outside the
    string; a negative [int] index is a huge [size_t]. *)
Definition msg_at (msg : message) (i : Z) : option Z :=
  if i <? 0 then None else option_map code (nth_error msg (Z.to_nat i)).

(** The conversion of a [char] to [int], by its octet. *)
Definition char_to_int (octet : Z) : Z :=
  if octet <? 128 then octet else octet - 256.

(** The value that an expression of the type [int] leaves when the
    mathematical result is [z]: the result itself within the 32 bits, and
    its wrap-around outside (the overflow is undefined in C++; this is
    what the compilers of the x86 platforms make of it). *)
Definition int_wrap (z : Z) : Z := (z + 2 ^ 31) mod 2 ^ 32 - 2 ^ 31.

Definition IsDigit (ch : Z) : bool := (48 <=? ch) && (ch <=? 57).

Definition IsExtendedASCII (ch : Z) : bool := (128 <=? ch) && (ch <=? 255).

Definition IsNativeC40 (ch : Z) : bool :=
  (ch =? 32) || ((48 <=? ch) && (ch <=? 57)) || ((65 <=? ch) && (ch <=? 90)).

Definition IsNativeText (ch : Z) : bool :=
  (ch =? 32) || ((48 <=? ch) && (ch <=? 57)) || ((97 <=? ch) && (ch <=? 122)).

Definition IsX12TermSep (ch : Z) : bool :=
  (ch =? 13) || (ch =? 42) || (ch =? 62).

Definition IsNativeX12 (ch : Z) : bool :=
  IsX12TermSep ch || (ch =? 32) || ((48 <=? ch) && (ch <=? 57))
  || ((65 <=? ch) && (ch <=? 90)).

Definition IsNativeEDIFACT (ch : Z) : bool := (32 <=? ch) && (ch <=? 94).

Definition IsSpecialB256 (ch : Z) : bool := false.

Definition Randomize253State (ch codewordPosition : Z) : Z :=
  let pseudoRandom := Z.rem (int_wrap (149 * codewordPosition)) 253 + 1 in
  let tempVariable := ch + pseudoRandom in
  if tempVariable <=? 254 then tempVariable else tempVariable - 254.

(** ** Single-precision arithmetic *)

Module F32.

Definition t := spec_float.

Definition prec : Z := 24.
Definition emax : Z := 128.

Definition add : t -> t -> t := SFadd prec emax.
Definition mul : t -> t -> t := SFmul prec emax.
Definition div : t -> t -> t := SFdiv prec emax.

(** An integer literal such as [2.0f]. *)
Definition of_Z (z : Z) : t := binary_normalize prec emax z 0 false.

(** [m * 2^e], for the literals [0.5f] and [1.25f]. *)
Definition of_scaled (m e : Z) : t := binary_normalize prec emax m e false.

(** The least integer not below a finite value; [0] for the values the
    counts never take (infinities and NaN). *)
Definition ceilZ (x : t) : Z :=
  match x with
  | S754_finite s m e =>
      let n := if s then Z.neg m else Z.pos m in
      match e with
      | Z.neg p => - ((- n) / 2 ^ Z.pos p)
      | _ => n * 2 ^ e
      end
  | _ => 0
  end.

(** [std::ceil] *)
Definition ceil (x : t) : t :=
  match x with
  | S754_finite _ _ _ => of_Z (ceilZ x)
  | _ => x
  end.

(** [static_cast<int>(std::ceil(x))]: the ceiling is an integer, so the
    conversion truncates nothing. *)
Definition ceil_int (x : t) : Z := ceilZ x.

End F32.

(** ** [std::array<T, 6>], indexed by the mode *)

Record array6 (A : Type) : Type := Array6 {
  at_ascii : A;
  at_c40 : A;
  at_text : A;
  at_x12 : A;
  at_edifact : A;
  at_base256 : A
}.

Arguments Array6 {A}.
Arguments at_ascii {A}.
Arguments at_c40 {A}.
Arguments at_text {A}.
Arguments at_x12 {A}.
Arguments at_edifact {A}.
Arguments at_base256 {A}.

Definition get6 {A} (a : array6 A) (i : Encodation) : A :=
  match i with
  | ASCII_ENCODATION => at_ascii a
  | C40_ENCODATION => at_c40 a
  | TEXT_ENCODATION => at_text a
  | X12_ENCODATION => at_x12 a
  | EDIFACT_ENCODATION => at_edifact a
  | BASE256_ENCODATION => at_base256 a
  end.

Definition set6 {A} (a : array6 A) (i : Encodation) (v : A) : array6 A :=
  match i with
  | ASCII_ENCODATION => Array6 v (at_c40 a) (at_text a) (at_x12 a) (at_edifact a) (at_base256 a)
  | C40_ENCODATION => Array6 (at_ascii a) v (at_text a) (at_x12 a) (at_edifact a) (at_base256 a)
  | TEXT_ENCODATION => Array6 (at_ascii a) (at_c40 a) v (at_x12 a) (at_edifact a) (at_base256 a)
  | X12_ENCODATION => Array6 (at_ascii a) (at_c40 a) (at_text a) v (at_edifact a) (at_base256 a)
  | EDIFACT_ENCODATION => Array6 (at_ascii a) (at_c40 a) (at_text a) (at_x12 a) v (at_base256 a)
  | BASE256_ENCODATION => Array6 (at_ascii a) (at_c40 a) (at_text a) (at_x12 a) (at_edifact a) v
  end.

(** [std::transform] over the whole array *)
Definition map6 {A B} (f : A -> B) (a : array6 A) : array6 B :=
  Array6 (f (at_ascii a)) (f (at_c40 a)) (f (at_text a)) (f (at_x12 a))
         (f (at_edifact a)) (f (at_base256 a)).

(** [a.fill(v)] *)
Definition fill6 {A} (v : A) : array6 A := Array6 v v v v v v.

(** [std::accumulate(mins.begin(), mins.end(), 0)] *)
Definition sum6 (a : array6 Z) : Z :=
  fold_left (fun acc i => acc + get6 a i) all_modes 0.

(** ** The look-ahead test *)

Definition INT_MAX : Z := 2147483647.

(** One turn of the loop of [FindMinimums], at index [i]. *)
Definition FindMinimums_step (intCharCounts : array6 Z)
    (st : Z * array6 Z) (i : Encodation) : Z * array6 Z :=
  let '(min, mins) := st in
  let current := get6 intCharCounts i in
  let '(min, mins) :=
    if min >? current then (current, fill6 0) else (min, mins) in
  if min =? current then (min, set6 mins i (get6 mins i + 1)) else (min, mins).

(** Returns the minimum and the array [mins] it fills. *)
Definition FindMinimums (intCharCounts : array6 Z) (min : Z) : Z * array6 Z :=
  fold_left (FindMinimums_step intCharCounts) all_modes (min, fill6 0).

Definition f_0 : F32.t := F32.of_Z 0.
Definition f_0_5 : F32.t := F32.of_scaled 1 (-1).
Definition f_1 : F32.t := F32.of_Z 1.
Definition f_1_25 : F32.t := F32.of_scaled 5 (-2).
Definition f_2 : F32.t := F32.of_Z 2.
Definition f_4 : F32.t := F32.of_Z 4.

(** A quotient of two literals, such as [2.0f / 3.0f]. *)
Definition f_quot (a b : Z) : F32.t := F32.div (F32.of_Z a) (F32.of_Z b).

(** The initializer of [charCounts]. *)
Definition charCounts_init : array6 F32.t :=
  Array6 f_0_5 f_1 f_1 f_1 f_1 f_1_25.

(** Step J: the counts the loop starts from. The assignment
    [charCounts[currentMode] = 0] stands after the [if], not inside it. *)
Definition stepJ (currentMode : Encodation) : array6 F32.t :=
  let charCounts := charCounts_init in
  let charCounts :=
    if negb (Encodation_eqb currentMode ASCII_ENCODATION)
    then map6 (fun x => F32.mul x f_2) charCounts
    else charCounts in
  set6 charCounts currentMode f_0.

(** Step K: the message is exhausted. *)
Definition stepK (charCounts : array6 F32.t) : Encodation :=
  let intCharCounts := map6 F32.ceil_int charCounts in
  let '(min, mins) := FindMinimums intCharCounts INT_MAX in
  let minCount := sum6 mins in
  if get6 intCharCounts ASCII_ENCODATION =? min then ASCII_ENCODATION
  else if (minCount =? 1) && (get6 mins BASE256_ENCODATION >? 0) then BASE256_ENCODATION
  else if (minCount =? 1) && (get6 mins EDIFACT_ENCODATION >? 0) then EDIFACT_ENCODATION
  else if (minCount =? 1) && (get6 mins TEXT_ENCODATION >? 0) then TEXT_ENCODATION
  else if (minCount =? 1) && (get6 mins X12_ENCODATION >? 0) then X12_ENCODATION
  else C40_ENCODATION.

(** [charCounts[i] += d] *)
Definition bump (charCounts : array6 F32.t) (i : Encodation) (d : F32.t)
  : array6 F32.t :=
  set6 charCounts i (F32.add (get6 charCounts i) d).

(** [charCounts[i] = std::ceil(charCounts[i])] *)
Definition ceil_at (charCounts : array6 F32.t) (i : Encodation) : array6 F32.t :=
  set6 charCounts i (F32.ceil (get6 charCounts i)).

Definition stepL (c : Z) (charCounts : array6 F32.t) : array6 F32.t :=
  if IsDigit c then bump charCounts ASCII_ENCODATION f_0_5
  else if IsExtendedASCII c
       then bump (ceil_at charCounts ASCII_ENCODATION) ASCII_ENCODATION f_2
       else bump (ceil_at charCounts ASCII_ENCODATION) ASCII_ENCODATION f_1.

Definition stepM (c : Z) (charCounts : array6 F32.t) : array6 F32.t :=
  if IsNativeC40 c then bump charCounts C40_ENCODATION (f_quot 2 3)
  else if IsExtendedASCII c then bump charCounts C40_ENCODATION (f_quot 8 3)
  else bump charCounts C40_ENCODATION (f_quot 4 3).

Definition stepN (c : Z) (charCounts : array6 F32.t) : array6 F32.t :=
  if IsNativeText c then bump charCounts TEXT_ENCODATION (f_quot 2 3)
  else if IsExtendedASCII c then bump charCounts TEXT_ENCODATION (f_quot 8 3)
  else bump charCounts TEXT_ENCODATION (f_quot 4 3).

Definition stepO (c : Z) (charCounts : array6 F32.t) : array6 F32.t :=
  if IsNativeX12 c then bump charCounts X12_ENCODATION (f_quot 2 3)
  else if IsExtendedASCII c then bump charCounts X12_ENCODATION (f_quot 13 3)
  else bump charCounts X12_ENCODATION (f_quot 10 3).

Definition stepP (c : Z) (charCounts : array6 F32.t) : array6 F32.t :=
  if IsNativeEDIFACT c then bump charCounts EDIFACT_ENCODATION (f_quot 3 4)
  else if IsExtendedASCII c then bump charCounts EDIFACT_ENCODATION (f_quot 17 4)
  else bump charCounts EDIFACT_ENCODATION (f_quot 13 4).

Definition stepQ (c : Z) (charCounts : array6 F32.t) : array6 F32.t :=
  if IsSpecialB256 c then bump charCounts BASE256_ENCODATION f_4
  else bump charCounts BASE256_ENCODATION f_1.

(** Steps L to Q for the character [c]. *)
Definition stepsLQ (c : Z) (charCounts : array6 F32.t) : array6 F32.t :=
  stepQ c (stepP c (stepO c (stepN c (stepM c (stepL c charCounts))))).

(** The characters of [msg] at the indices [p], [p + 1], ... *)
Definition msg_from (msg : message) (p : Z) : list ascii :=
  skipn (Z.to_nat p) msg.

(** The inner loop of step R over the characters from index [p] on:
    [while (p < msg.length()) { ... p++; } return C40_ENCODATION;] *)
Fixpoint x12Scan (tail : list ascii) : Encodation :=
  match tail with
  | [] => C40_ENCODATION
  | ch :: tail' =>
      let tc := char_to_int (code ch) in
      if IsX12TermSep tc then X12_ENCODATION
      else if negb (IsNativeX12 tc) then C40_ENCODATION
      else x12Scan tail'
  end.

(** Step R, entered when [charsProcessed >= 4]; [None] when no [return] is
    reached and the loop goes on. *)
Definition stepR (msg : message) (startpos charsProcessed : Z)
    (charCounts : array6 F32.t) : option Encodation :=
  let intCharCounts := map6 F32.ceil_int charCounts in
  let '(_, mins) := FindMinimums intCharCounts INT_MAX in
  let minCount := sum6 mins in
  let ic := get6 intCharCounts in
  if (ic ASCII_ENCODATION <? ic BASE256_ENCODATION)
     && (ic ASCII_ENCODATION <? ic C40_ENCODATION)
     && (ic ASCII_ENCODATION <? ic TEXT_ENCODATION)
     && (ic ASCII_ENCODATION <? ic X12_ENCODATION)
     && (ic ASCII_ENCODATION <? ic EDIFACT_ENCODATION)
  then Some ASCII_ENCODATION
  else if (ic BASE256_ENCODATION <? ic ASCII_ENCODATION)
          || (get6 mins C40_ENCODATION + get6 mins TEXT_ENCODATION
              + get6 mins X12_ENCODATION + get6 mins EDIFACT_ENCODATION =? 0)
  then Some BASE256_ENCODATION
  else if (minCount =? 1) && (get6 mins EDIFACT_ENCODATION >? 0) then Some EDIFACT_ENCODATION
  else if (minCount =? 1) && (get6 mins TEXT_ENCODATION >? 0) then Some TEXT_ENCODATION
  else if (minCount =? 1) && (get6 mins X12_ENCODATION >? 0) then Some X12_ENCODATION
  else if (ic C40_ENCODATION + 1 <? ic ASCII_ENCODATION)
          && (ic C40_ENCODATION + 1 <? ic BASE256_ENCODATION)
          && (ic C40_ENCODATION + 1 <? ic EDIFACT_ENCODATION)
          && (ic C40_ENCODATION + 1 <? ic TEXT_ENCODATION)
  then
    if ic C40_ENCODATION <? ic X12_ENCODATION then Some C40_ENCODATION
    else if ic C40_ENCODATION =? ic X12_ENCODATION
    then
      let p := startpos + charsProcessed + 1 in
      Some (x12Scan (msg_from msg p))
    else None
  else None.

(** The [while (true)] loop. [rest] holds the characters not yet
    processed, those from index [startpos + charsProcessed] on, so that it
    is empty exactly when [(startpos + charsProcessed) == msg.length()]. *)
Fixpoint LookAheadLoop (msg : message) (startpos : Z) (rest : list ascii)
    (charsProcessed : Z) (charCounts : array6 F32.t) : Encodation :=
  match rest with
  | [] => stepK charCounts
  | ch :: rest' =>
      let c := char_to_int (code ch) in
      let charsProcessed := charsProcessed + 1 in
      let charCounts := stepsLQ c charCounts in
      match (if charsProcessed >=? 4
             then stepR msg startpos charsProcessed charCounts
             else None) with
      | Some mode => mode
      | None => LookAheadLoop msg startpos rest' charsProcessed charCounts
      end
  end.

Definition LookAheadTest (msg : message) (startpos : Z)
    (currentMode : Encodation) : Encodation :=
  if (startpos <? 0) || (startpos >=? msg_length msg) then currentMode
  else LookAheadLoop msg startpos (msg_from msg startpos) 0 (stepJ currentMode).

(** ** The encoder context *)

(** Modelled from the spec: the symbol descriptor of the catalog
    ([DMSymbolInfo.h] is not among the sources). The encoder reads nothing
    of it but its data capacity. *)
Record SymbolInfo : Type := { dataCapacity : Z }.

(** Modelled from the spec: the encoder context ([DMEncoderContext.h] is
    not among the sources): the input octets, the cursor, the emitted
    codewords, the pending mode switch ([None] for the [-1] of "no switch
    requested"), the current symbol and the count of trailing octets to
    leave out. The shape and size constraints of the run are held as
    [ctx_lookup], the selection function of the symbol catalog under these
    constraints: the smallest symbol that holds the requested count of
    data codewords, if there is one. *)
Record EncoderContext : Type := mkContext {
  ctx_msg : message;
  ctx_lookup : Z -> option SymbolInfo;
  ctx_pos : Z;
  ctx_codewords : list Z;
  ctx_newEncoding : option Encodation;
  ctx_symbolInfo : option SymbolInfo;
  ctx_skipAtEnd : Z
}.

Inductive Exception : Type :=
| IllegalCharacter      (* std::invalid_argument("Illegal character: ...") *)
| MessageTooLong        (* std::invalid_argument("Message length not in valid ranges: ...") *)
| NoFittingSymbol       (* the catalog has no symbol for the count *)
| InternalInvariant     (* std::logic_error("Unexpected case. Please report!") *)
| InvalidArgument       (* the other std::invalid_argument of the EDIFACT encoder *)
| OutOfRange            (* std::out_of_range of [at] *)
| LengthError.          (* std::length_error of [resize] *)

(** The outcome of a computation on the context. *)
Inductive Result (A : Type) : Type :=
| Ok (a : A) (ctx : EncoderContext)
| Throw (e : Exception) (ctx : EncoderContext).

Arguments Ok {A}.
Arguments Throw {A}.

Definition M (A : Type) : Type := EncoderContext -> Result A.

Definition ret {A} (a : A) : M A := fun ctx => Ok a ctx.

Definition bind {A B} (c : M A) (k : A -> M B) : M B :=
  fun ctx =>
    match c ctx with
    | Ok a ctx' => k a ctx'
    | Throw e ctx' => Throw e ctx'
    end.

Definition throw {A} (e : Exception) : M A := fun ctx => Throw e ctx.

(** Reads the context. *)
Definition gets {A} (f : EncoderContext -> A) : M A := fun ctx => Ok (f ctx) ctx.

(** Changes the context. *)
Definition modify (f : EncoderContext -> EncoderContext) : M unit :=
  fun ctx => Ok tt (f ctx).

(** The result of a function that throws ([None]) or returns. *)
Definition lift {A} (e : Exception) (o : option A) : M A :=
  match o with
  | Some a => ret a
  | None => throw e
  end.

(** A call that passes the context by value: the callee works on a copy,
    which is dropped when it returns or throws. *)
Definition by_value {A} (c : M A) : M A :=
  fun ctx =>
    match c ctx with
    | Ok a _ => Ok a ctx
    | Throw e _ => Throw e ctx
    end.

Declare Scope enc_scope.
Delimit Scope enc_scope with enc.
Notation "x <- c1 ;; c2" := (bind c1 (fun x => c2))
  (at level 100, c1 at next level, right associativity) : enc_scope.
Notation "' pat <- c1 ;; c2" := (bind c1 (fun x => match x with pat => c2 end))
  (at level 100, pat pattern, c1 at next level, right associativity) : enc_scope.
Notation "c1 ;; c2" := (bind c1 (fun _ => c2))
  (at level 100, right associativity) : enc_scope.
Open Scope enc_scope.

(** [buffer.length()] *)
Definition len (buffer : list Z) : Z := Z.of_nat (List.length buffer).

(** Modelled from the spec: the accessors of the context, which
    [DMEncoderContext.h] defines. The message ends [skipAtEnd] octets
    before its last octet. *)
Definition totalMessageCharCount (ctx : EncoderContext) : Z :=
  msg_length (ctx_msg ctx) - ctx_skipAtEnd ctx.

(** Modelled from the spec: the cursor is before the end of the message. *)
Definition hasMoreCharacters (ctx : EncoderContext) : bool :=
  ctx_pos ctx <? totalMessageCharCount ctx.

(** Modelled from the spec: the count of characters from the cursor on. *)
Definition remainingCharacters (ctx : EncoderContext) : Z :=
  totalMessageCharCount ctx - ctx_pos ctx.

(** Modelled from the spec: the count of emitted codewords. *)
Definition codewordCount (ctx : EncoderContext) : Z := len (ctx_codewords ctx).

(** The context with one field changed. *)
Definition with_pos (p : Z) (ctx : EncoderContext) : EncoderContext :=
  mkContext (ctx_msg ctx) (ctx_lookup ctx) p (ctx_codewords ctx) (ctx_newEncoding ctx)
            (ctx_symbolInfo ctx) (ctx_skipAtEnd ctx).

Definition with_codeword (cw : Z) (ctx : EncoderContext) : EncoderContext :=
  mkContext (ctx_msg ctx) (ctx_lookup ctx) (ctx_pos ctx)
            (ctx_codewords ctx ++ [cw]) (ctx_newEncoding ctx) (ctx_symbolInfo ctx) (ctx_skipAtEnd ctx).

Definition with_newEncoding (e : option Encodation) (ctx : EncoderContext)
  : EncoderContext :=
  mkContext (ctx_msg ctx) (ctx_lookup ctx) (ctx_pos ctx) (ctx_codewords ctx) e
            (ctx_symbolInfo ctx) (ctx_skipAtEnd ctx).

Definition with_symbolInfo (s : option SymbolInfo) (ctx : EncoderContext)
  : EncoderContext :=
  mkContext (ctx_msg ctx) (ctx_lookup ctx) (ctx_pos ctx) (ctx_codewords ctx)
            (ctx_newEncoding ctx) s (ctx_skipAtEnd ctx).

Definition with_skipAtEnd (n : Z) (ctx : EncoderContext) : EncoderContext :=
  mkContext (ctx_msg ctx) (ctx_lookup ctx) (ctx_pos ctx) (ctx_codewords ctx)
            (ctx_newEncoding ctx) (ctx_symbolInfo ctx) n.

(** Modelled from the spec: the setters of the context; [addCodeword]
    appends, the others assign. *)
Definition setCurrentPos (p : Z) : M unit := modify (with_pos p).
Definition addCodeword (cw : Z) : M unit := modify (with_codeword cw).
Definition setNewEncoding (e : Encodation) : M unit := modify (with_newEncoding (Some e)).
Definition clearNewEncoding : M unit := modify (with_newEncoding None).
Definition resetSymbolInfo : M unit := modify (with_symbolInfo None).
Definition setSkipAtEnd (n : Z) : M unit := modify (with_skipAtEnd n).

(** Modelled from the spec: the octet at the cursor, [_msg.at(_pos)]. *)
Definition currentChar : M Z :=
  fun ctx => lift OutOfRange (msg_at (ctx_msg ctx) (ctx_pos ctx)) ctx.

(** Modelled from the spec: the octet after it, [_msg.at(_pos + 1)]. *)
Definition nextChar : M Z :=
  fun ctx => lift OutOfRange (msg_at (ctx_msg ctx) (ctx_pos ctx + 1)) ctx.

(** Modelled from the spec: [updateSymbolInfo] of the context. The current
    symbol is kept while it holds [len] codewords and looked up in the
    catalog otherwise, which is why the encoders call [resetSymbolInfo]
    to "deal with possible reduction in symbol size"; the exception is
    that of a catalog with no symbol for [len]. *)
Definition updateSymbolInfo (len : Z) : M SymbolInfo :=
  fun ctx =>
    let fresh :=
      match ctx_lookup ctx len with
      | Some s => Ok s (with_symbolInfo (Some s) ctx)
      | None => Throw NoFittingSymbol ctx
      end in
    match ctx_symbolInfo ctx with
    | Some s => if len >? dataCapacity s then fresh else Ok s ctx
    | None => fresh
    end.

(** ** The ASCII encoder *)

Module ASCIIEncoder.

(** [std::find_if_not(begin, msg.end(), IsDigit) - begin] *)
Fixpoint leading_digits (tail : list ascii) : Z :=
  match tail with
  | [] => 0
  | ch :: tail' => if IsDigit (code ch) then 1 + leading_digits tail' else 0
  end.

Definition DetermineConsecutiveDigitCount (msg : message) (startpos : Z) : Z :=
  leading_digits (msg_from msg startpos).

Definition EncodeASCIIDigits (digit1 digit2 : Z) : Z :=
  if IsDigit digit1 && IsDigit digit2
  then
    let num := (digit1 - 48) * 10 + (digit2 - 48) in
    num + 130
  else 63.

Definition EncodeASCII : M unit :=
  msg <- gets ctx_msg ;;
  pos <- gets ctx_pos ;;
  (* step B *)
  let n := DetermineConsecutiveDigitCount msg pos in
  if n >=? 2 then
    d1 <- currentChar ;;
    d2 <- nextChar ;;
    addCodeword (EncodeASCIIDigits d1 d2) ;;
    setCurrentPos (pos + 2)
  else
    c <- currentChar ;;
    let newMode := LookAheadTest msg pos ASCII_ENCODATION in
    if negb (Encodation_eqb newMode ASCII_ENCODATION) then
      addCodeword (LATCHES newMode) ;;
      setNewEncoding newMode
    else if IsExtendedASCII c then
      addCodeword UPPER_SHIFT ;;
      addCodeword (c - 128 + 1) ;;
      setCurrentPos (pos + 1)
    else
      addCodeword (c + 1) ;;
      setCurrentPos (pos + 1).

End ASCIIEncoder.

(** ** The C40 encoder *)

Module C40Encoder.

(** [EncodeChar(c, sb)] returns the count of values it appended and the
    buffer, or throws ([None]). It calls itself once, on a character
    below [0x80], when [c >= 0x80]; [depth] bounds the calls. *)
Fixpoint EncodeChar_depth (depth : nat) (c : Z) (sb : list Z)
  : option (Z * list Z) :=
  if c =? 32 then Some (1, sb ++ [3])
  else if (48 <=? c) && (c <=? 57) then Some (1, sb ++ [c - 48 + 4])
  else if (65 <=? c) && (c <=? 90) then Some (1, sb ++ [c - 65 + 14])
  else if (0 <=? c) && (c <=? 31) then Some (2, sb ++ [0; c])
  else if (33 <=? c) && (c <=? 47) then Some (2, sb ++ [1; c - 33])
  else if (58 <=? c) && (c <=? 64) then Some (2, sb ++ [1; c - 58 + 15])
  else if (91 <=? c) && (c <=? 95) then Some (2, sb ++ [1; c - 91 + 22])
  else if (96 <=? c) && (c <=? 127) then Some (2, sb ++ [2; c - 96])
  else if 128 <=? c then
    match depth with
    | O => None
    | S depth' =>
        match EncodeChar_depth depth' ((c - 128) mod 256) (sb ++ [1; 30]) with
        | Some (n, sb') => Some (2 + n, sb')
        | None => None
        end
    end
  else None.

Definition EncodeChar (c : Z) (sb : list Z) : option (Z * list Z) :=
  EncodeChar_depth 2 c sb.

(** [buffer.resize(buffer.size() - lastCharSize)] *)
Definition resize_less (buffer : list Z) (lastCharSize : Z) : option (list Z) :=
  if (0 <=? lastCharSize) && (lastCharSize <=? len buffer)
  then Some (firstn (Z.to_nat (len buffer - lastCharSize)) buffer)
  else None.

(** Returns the new [lastCharSize]; [buffer] and [removed] are passed by
    reference and returned with it. The character is encoded again with
    [EncodeChar] of this encoder, the one of the C40 set, also when the
    loop that calls it runs with the function of the Text set. *)
Definition BacktrackOneCharacter
    (buffer removed : list Z) (lastCharSize : Z) : M (Z * list Z * list Z) :=
  buffer <- lift LengthError (resize_less buffer lastCharSize) ;;
  pos <- gets ctx_pos ;;
  setCurrentPos (pos - 1) ;;
  c <- currentChar ;;
  '(lastCharSize, removed) <- lift IllegalCharacter (EncodeChar c removed) ;;
  resetSymbolInfo ;; (* Deal with possible reduction in symbol size *)
  ret (lastCharSize, buffer, removed).

(** The two codewords of the triplet at the head of [sb]. *)
Definition EncodeToCodewords (sb : list Z) : M unit :=
  match sb with
  | c1 :: c2 :: c3 :: _ =>
      let v := (1600 * c1) + (40 * c2) + c3 + 1 in
      addCodeword (v / 256) ;;
      addCodeword (v mod 256)
  | _ => throw OutOfRange
  end.

(** Returns the buffer without its first three values. *)
Definition WriteNextTriplet (buffer : list Z) : M (list Z) :=
  EncodeToCodewords buffer ;;
  ret (skipn 3 buffer).

(** [while (buffer.length() >= 3) WriteNextTriplet(context, buffer);] *)
Fixpoint write_triplets (fuel : nat) (buffer : list Z) : M (list Z) :=
  if len buffer >=? 3 then
    match fuel with
    | O => ret buffer
    | S fuel' =>
        buffer <- WriteNextTriplet buffer ;;
        write_triplets fuel' buffer
    end
  else ret buffer.

Definition WriteTriplets (buffer : list Z) : M (list Z) :=
  write_triplets (List.length buffer) buffer.

(** Handle "end of data" situations. *)
Definition HandleEOD (buffer : list Z) : M unit :=
  let unwritten := (len buffer / 3) * 2 in
  let rest := len buffer mod 3 in
  count <- gets codewordCount ;;
  let curCodewordCount := count + unwritten in
  symbolInfo <- updateSymbolInfo curCodewordCount ;;
  let available := dataCapacity symbolInfo - curCodewordCount in
  (if rest =? 2 then
     let buffer := buffer ++ [0] in (* Shift 1 *)
     WriteTriplets buffer ;;
     more <- gets hasMoreCharacters ;;
     if more then addCodeword C40_UNLATCH else ret tt
   else if (available =? 1) && (rest =? 1) then
     WriteTriplets buffer ;;
     more <- gets hasMoreCharacters ;;
     (if more then addCodeword C40_UNLATCH else ret tt) ;;
     (* else no unlatch *)
     pos <- gets ctx_pos ;;
     setCurrentPos (pos - 1)
   else if rest =? 0 then
     WriteTriplets buffer ;;
     more <- gets hasMoreCharacters ;;
     if (available >? 0) || more then addCodeword C40_UNLATCH else ret tt
   else
     throw InternalInvariant) ;;
  setNewEncoding ASCII_ENCODATION.

(** The [while] loop that backtracks at the end of the message. *)
Fixpoint backtrack_while (fuel : nat)
    (available : Z) (buffer removed : list Z) (lastCharSize : Z)
  : M (list Z) :=
  if (len buffer mod 3 =? 1)
     && (((lastCharSize <=? 3) && negb (available =? 1)) || (lastCharSize >? 3))
  then
    match fuel with
    | O => ret buffer
    | S fuel' =>
        '(lastCharSize, buffer, removed) <-
          BacktrackOneCharacter buffer removed lastCharSize ;;
        backtrack_while fuel' available buffer removed lastCharSize
    end
  else ret buffer.

(** The tail of the loop body when no characters are left: avoid having
    a single C40 value in the last triplet. *)
Definition avoid_single_value
    (available : Z) (buffer : list Z) (lastCharSize : Z) : M (list Z) :=
  let removed := [] in
  '(lastCharSize, buffer, removed) <-
    (if (len buffer mod 3 =? 2) && ((available <? 2) || (available >? 2))
     then BacktrackOneCharacter buffer removed lastCharSize
     else ret (lastCharSize, buffer, removed)) ;;
  pos <- gets ctx_pos ;;
  backtrack_while (Z.to_nat pos + 1) available buffer removed lastCharSize.

(** The loop of step C; it returns the buffer it leaves to [HandleEOD]. *)
Fixpoint encode_loop (fuel : nat)
    (encodeChar : Z -> list Z -> option (Z * list Z))
    (encodingMode : Encodation) (buffer : list Z) : M (list Z) :=
  more <- gets hasMoreCharacters ;;
  if more then
    match fuel with
    | O => ret buffer
    | S fuel' =>
        c <- currentChar ;;
        pos <- gets ctx_pos ;;
        setCurrentPos (pos + 1) ;;
        '(lastCharSize, buffer) <- lift IllegalCharacter (encodeChar c buffer) ;;
        let unwritten := (len buffer / 3) * 2 in
        count <- gets codewordCount ;;
        let curCodewordCount := count + unwritten in
        symbolInfo <- updateSymbolInfo curCodewordCount ;;
        let available := dataCapacity symbolInfo - curCodewordCount in
        more <- gets hasMoreCharacters ;;
        if negb more then
          avoid_single_value available buffer lastCharSize
        else if len buffer mod 3 =? 0 then
          msg <- gets ctx_msg ;;
          pos <- gets ctx_pos ;;
          let newMode := LookAheadTest msg pos encodingMode in
          if negb (Encodation_eqb newMode encodingMode) then
            setNewEncoding newMode ;;
            ret buffer
          else encode_loop fuel' encodeChar encodingMode buffer
        else encode_loop fuel' encodeChar encodingMode buffer
    end
  else ret buffer.

(** [EncodeC40(context, encodeChar, encodingMode)]; the loop consumes a
    character in each turn, so the count of remaining characters bounds
    its turns. *)
Definition EncodeC40_with
    (encodeChar : Z -> list Z -> option (Z * list Z))
    (encodingMode : Encodation) : M unit :=
  remaining <- gets remainingCharacters ;;
  buffer <- encode_loop (Z.to_nat remaining) encodeChar encodingMode [] ;;
  HandleEOD buffer.

Definition EncodeC40 : M unit := EncodeC40_with EncodeChar C40_ENCODATION.

End C40Encoder.

(** ** The Text encoder *)

Module DMTextEncoder.

Fixpoint EncodeChar_depth (depth : nat) (c : Z) (sb : list Z)
  : option (Z * list Z) :=
  if c =? 32 then Some (1, sb ++ [3])
  else if (48 <=? c) && (c <=? 57) then Some (1, sb ++ [c - 48 + 4])
  else if (97 <=? c) && (c <=? 122) then Some (1, sb ++ [c - 97 + 14])
  else if (0 <=? c) && (c <=? 31) then Some (2, sb ++ [0; c])
  else if (33 <=? c) && (c <=? 47) then Some (2, sb ++ [1; c - 33])
  else if (58 <=? c) && (c <=? 64) then Some (2, sb ++ [1; c - 58 + 15])
  else if (91 <=? c) && (c <=? 95) then Some (2, sb ++ [1; c - 91 + 22])
  else if c =? 96 then Some (2, sb ++ [2; c - 96])
  else if (65 <=? c) && (c <=? 90) then Some (2, sb ++ [2; c - 65 + 1])
  else if (123 <=? c) && (c <=? 127) then Some (2, sb ++ [2; c - 123 + 27])
  else if 128 <=? c then
    match depth with
    | O => None
    | S depth' =>
        match EncodeChar_depth depth' ((c - 128) mod 256) (sb ++ [1; 30]) with
        | Some (n, sb') => Some (2 + n, sb')
        | None => None
        end
    end
  else None.

Definition EncodeChar (c : Z) (sb : list Z) : option (Z * list Z) :=
  EncodeChar_depth 2 c sb.

(** The source passes [C40_ENCODATION] as the encoding mode. *)
Definition EncodeText : M unit :=
  C40Encoder.EncodeC40_with EncodeChar C40_ENCODATION.

End DMTextEncoder.

(** ** The ANSI X12 encoder *)

Module X12Encoder.

Definition EncodeChar (c : Z) (sb : list Z) : option (Z * list Z) :=
  if c =? 13 then Some (1, sb ++ [0])
  else if c =? 42 then Some (1, sb ++ [1])
  else if c =? 62 then Some (1, sb ++ [2])
  else if c =? 32 then Some (1, sb ++ [3])
  else if (48 <=? c) && (c <=? 57) then Some (1, sb ++ [c - 48 + 4])
  else if (65 <=? c) && (c <=? 90) then Some (1, sb ++ [c - 65 + 14])
  else None.

(** The body of [HandleEOD], as a computation on the context it is given. *)
Definition HandleEOD_body (buffer : list Z) : M unit :=
  codewordCount <- gets codewordCount ;;
  symbolInfo <- updateSymbolInfo codewordCount ;;
  let available := dataCapacity symbolInfo - codewordCount in
  pos <- gets ctx_pos ;;
  setCurrentPos (pos - len buffer) ;;
  remaining <- gets remainingCharacters ;;
  (if (remaining >? 1) || (available >? 1) || negb (remaining =? available)
   then addCodeword X12_UNLATCH
   else ret tt) ;;
  newEncoding <- gets ctx_newEncoding ;;
  match newEncoding with
  | None => setNewEncoding ASCII_ENCODATION
  | Some _ => ret tt
  end.

(** [static void HandleEOD(EncoderContext context, std::string& buffer)]:
    the context is a value parameter. *)
Definition HandleEOD (buffer : list Z) : M unit :=
  by_value (HandleEOD_body buffer).

(** The loop of step C; it returns the buffer it leaves to [HandleEOD]. *)
Fixpoint encode_loop (fuel : nat) (buffer : list Z) : M (list Z) :=
  more <- gets hasMoreCharacters ;;
  if more then
    match fuel with
    | O => ret buffer
    | S fuel' =>
        c <- currentChar ;;
        pos <- gets ctx_pos ;;
        setCurrentPos (pos + 1) ;;
        '(_, buffer) <- lift IllegalCharacter (EncodeChar c buffer) ;;
        let count := len buffer in
        if count mod 3 =? 0 then
          buffer <- C40Encoder.WriteNextTriplet buffer ;;
          msg <- gets ctx_msg ;;
          pos <- gets ctx_pos ;;
          let newMode := LookAheadTest msg pos X12_ENCODATION in
          if negb (Encodation_eqb newMode X12_ENCODATION) then
            setNewEncoding newMode ;;
            ret buffer
          else encode_loop fuel' buffer
        else encode_loop fuel' buffer
    end
  else ret buffer.

Definition EncodeX12 : M unit :=
  remaining <- gets remainingCharacters ;;
  buffer <- encode_loop (Z.to_nat remaining) [] ;;
  HandleEOD buffer.

End X12Encoder.

(** ** The EDIFACT encoder *)

Module EdifactEncoder.

Definition EncodeChar (c : Z) (sb : list Z) : option (list Z) :=
  if (32 <=? c) && (c <=? 63) then Some (sb ++ [c])
  else if (64 <=? c) && (c <=? 94) then Some (sb ++ [c - 64])
  else None.

(** [EncodeToCodewords(sb, 0)]; [None] for the exception of the empty
    buffer. *)
Definition EncodeToCodewords (sb : list Z) : option (list Z) :=
  let len := len sb in
  if len =? 0 then None
  else
    let c1 := nth 0 sb 0 in
    let c2 := if len >=? 2 then nth 1 sb 0 else 0 in
    let c3 := if len >=? 3 then nth 2 sb 0 else 0 in
    let c4 := if len >=? 4 then nth 3 sb 0 else 0 in
    let v := Z.shiftl c1 18 + Z.shiftl c2 12 + Z.shiftl c3 6 + c4 in
    let cw1 := Z.land (Z.shiftr v 16) 255 in
    let cw2 := Z.land (Z.shiftr v 8) 255 in
    let cw3 := Z.land v 255 in
    let res := [cw1] in
    let res := if len >=? 2 then res ++ [cw2] else res in
    let res := if len >=? 3 then res ++ [cw3] else res in
    Some res.

(** [for (int cw : encoded) context.addCodeword(cw);] *)
Fixpoint addCodewords (cws : list Z) : M unit :=
  match cws with
  | [] => ret tt
  | cw :: cws' => addCodeword cw ;; addCodewords cws'
  end.

(** How control leaves the [try] block of [HandleEOD]. *)
Inductive Exit : Type :=
| Returned      (* by a [return] statement *)
| Completed.    (* at the end of the block *)

(** The [try] block of [HandleEOD]. *)
Definition HandleEOD_try (buffer : list Z) : M Exit :=
  let count := len buffer in
  if count =? 0 then ret Returned (* Already finished *)
  else
    early <-
      (if count =? 1 then
         (* Only an unlatch at the end *)
         codewordCount <- gets codewordCount ;;
         symbolInfo <- updateSymbolInfo codewordCount ;;
         let available := dataCapacity symbolInfo - codewordCount in
         remaining <- gets remainingCharacters ;;
         ret ((remaining =? 0) && (available <=? 2))
       else ret false) ;;
    if (early : bool) then ret Returned (* No unlatch *)
    else if count >? 4 then throw InvalidArgument
    else
      let restChars := count - 1 in
      encoded <- lift InvalidArgument (EncodeToCodewords buffer) ;;
      more <- gets hasMoreCharacters ;;
      let endOfSymbolReached := negb more in
      let restInAscii := endOfSymbolReached && (restChars <=? 2) in
      restInAscii <-
        (if restChars <=? 2 then
           codewordCount <- gets codewordCount ;;
           symbolInfo <- updateSymbolInfo (codewordCount + restChars) ;;
           let available := dataCapacity symbolInfo - codewordCount in
           if available >=? 3 then
             updateSymbolInfo (codewordCount + len encoded) ;;
             ret false
           else ret restInAscii
         else ret restInAscii) ;;
      (if (restInAscii : bool) then
         resetSymbolInfo ;;
         pos <- gets ctx_pos ;;
         setCurrentPos (pos - restChars)
       else addCodewords encoded) ;;
      ret Completed.

(** Handle "end of data" situations:
    [try { ... } catch (...) { setNewEncoding(ASCII); throw; }
     setNewEncoding(ASCII);] *)
Definition HandleEOD (buffer : list Z) : M unit :=
  fun ctx =>
    match HandleEOD_try buffer ctx with
    | Throw e ctx' => Throw e (with_newEncoding (Some ASCII_ENCODATION) ctx')
    | Ok Returned ctx' => Ok tt ctx'
    | Ok Completed ctx' => setNewEncoding ASCII_ENCODATION ctx'
    end.

(** The loop of step F; it returns the buffer it leaves to [HandleEOD]. *)
Fixpoint encode_loop (fuel : nat) (buffer : list Z) : M (list Z) :=
  more <- gets hasMoreCharacters ;;
  if more then
    match fuel with
    | O => ret buffer
    | S fuel' =>
        c <- currentChar ;;
        buffer <- lift IllegalCharacter (EncodeChar c buffer) ;;
        pos <- gets ctx_pos ;;
        setCurrentPos (pos + 1) ;;
        if len buffer >=? 4 then
          codewords <- lift InvalidArgument (EncodeToCodewords buffer) ;;
          addCodewords codewords ;;
          let buffer := skipn 4 buffer in
          msg <- gets ctx_msg ;;
          pos <- gets ctx_pos ;;
          let newMode := LookAheadTest msg pos EDIFACT_ENCODATION in
          if negb (Encodation_eqb newMode EDIFACT_ENCODATION) then
            setNewEncoding ASCII_ENCODATION ;;
            ret buffer
          else encode_loop fuel' buffer
        else encode_loop fuel' buffer
    end
  else ret buffer.

Definition EncodeEdifact : M unit :=
  remaining <- gets remainingCharacters ;;
  buffer <- encode_loop (Z.to_nat remaining) [] ;;
  let buffer := buffer ++ [31] in (* Unlatch *)
  HandleEOD buffer.

End EdifactEncoder.

(** ** The Base 256 encoder *)

Module Base256Encoder.

Definition Randomize255State (ch codewordPosition : Z) : Z :=
  let pseudoRandom := Z.rem (int_wrap (149 * codewordPosition)) 255 + 1 in
  let tempVariable := ch + pseudoRandom in
  if tempVariable <=? 255 then tempVariable else tempVariable - 256.

(** The loop that fills the buffer. *)
Fixpoint encode_loop (fuel : nat) (buffer : list Z) : M (list Z) :=
  more <- gets hasMoreCharacters ;;
  if more then
    match fuel with
    | O => ret buffer
    | S fuel' =>
        c <- currentChar ;;
        let buffer := buffer ++ [c] in
        pos <- gets ctx_pos ;;
        setCurrentPos (pos + 1) ;;
        msg <- gets ctx_msg ;;
        pos <- gets ctx_pos ;;
        let newMode := LookAheadTest msg pos BASE256_ENCODATION in
        if negb (Encodation_eqb newMode BASE256_ENCODATION) then
          setNewEncoding newMode ;;
          ret buffer
        else encode_loop fuel' buffer
    end
  else ret buffer.

(** [buffer.at(0) = v] *)
Definition set_first (buffer : list Z) (v : Z) : option (list Z) :=
  match buffer with
  | [] => None
  | _ :: tail => Some (v :: tail)
  end.

(** [buffer.insert(1, 1, v)] *)
Definition insert_second (buffer : list Z) (v : Z) : option (list Z) :=
  match buffer with
  | [] => None
  | b :: tail => Some (b :: v :: tail)
  end.

(** [for (char c : buffer) context.addCodeword(Randomize255State(c,
    context.codewordCount() + 1));]: the byte of the buffer reaches the
    [int] parameter as a [char]. *)
Fixpoint emit (buffer : list Z) : M unit :=
  match buffer with
  | [] => ret tt
  | c :: tail =>
      let c := char_to_int c in
      count <- gets codewordCount ;;
      addCodeword (Randomize255State c (count + 1)) ;;
      emit tail
  end.

Definition EncodeBase256 : M unit :=
  let buffer := [0] in (* Initialize length field *)
  remaining <- gets remainingCharacters ;;
  buffer <- encode_loop (Z.to_nat remaining) buffer ;;
  let dataCount := len buffer - 1 in
  let lengthFieldSize := 1 in
  count <- gets codewordCount ;;
  let currentSize := count + dataCount + lengthFieldSize in
  symbolInfo <- updateSymbolInfo currentSize ;;
  let mustPad := dataCapacity symbolInfo - currentSize >? 0 in
  more <- gets hasMoreCharacters ;;
  buffer <-
    (if more || mustPad then
       if dataCount <=? 249 then
         lift OutOfRange (set_first buffer dataCount)
       else if (dataCount >? 249) && (dataCount <=? 1555) then
         buffer <- lift OutOfRange (set_first buffer ((dataCount / 250) + 249)) ;;
         lift OutOfRange (insert_second buffer (dataCount mod 250))
       else throw MessageTooLong
     else ret buffer) ;;
  emit buffer.

End Base256Encoder.

(** ** The top-level driver *)

(** The text to encode is ISO-8859-1 text, given by its octets: the wide
    string [msg] of the driver and its transcoding [bytes] then hold the
    same values. *)
Definition wide (msg : message) : list Z := map code msg.

(** [L"[)>\x1E05\x1D"]: the hexadecimal escape takes every hexadecimal
    digit that follows it, so that [\x1E05] is one wide character. *)
Definition MACRO_05_HEADER : list Z := [91; 41; 62; 7685; 29].
Definition MACRO_06_HEADER : list Z := [91; 41; 62; 7686; 29].
Definition MACRO_TRAILER : list Z := [30; 4].

Fixpoint wide_eqb (a b : list Z) : bool :=
  match a, b with
  | [], [] => true
  | x :: a', y :: b' => (x =? y) && wide_eqb a' b'
  | _, _ => false
  end.

Definition StartsWith (s ss : list Z) : bool :=
  (len s >? len ss) && wide_eqb (firstn (List.length ss) s) ss.

Definition EndsWith (s ss : list Z) : bool :=
  (len s >? len ss) && wide_eqb (skipn (List.length s - List.length ss) s) ss.

(** The context of a new run. *)
Definition initial_context (lookup : Z -> option SymbolInfo) (bytes : message)
  : EncoderContext :=
  mkContext bytes lookup 0 [] None None 0.

(** The [switch] of the main loop. *)
Definition dispatch (encodingMode : Encodation) : M unit :=
  match encodingMode with
  | ASCII_ENCODATION => ASCIIEncoder.EncodeASCII
  | C40_ENCODATION => C40Encoder.EncodeC40
  | TEXT_ENCODATION => DMTextEncoder.EncodeText
  | X12_ENCODATION => X12Encoder.EncodeX12
  | EDIFACT_ENCODATION => EdifactEncoder.EncodeEdifact
  | BASE256_ENCODATION => Base256Encoder.EncodeBase256
  end.

(** The main loop; it returns the mode it ends in. A turn need not consume
    a character, so the turns are counted by [fuel]: [None] when they run
    out before the loop ends. *)
Fixpoint main_loop (fuel : nat) (encodingMode : Encodation)
    (ctx : EncoderContext) : option (Result Encodation) :=
  if hasMoreCharacters ctx then
    match fuel with
    | O => None
    | S fuel' =>
        match dispatch encodingMode ctx with
        | Throw e ctx' => Some (Throw e ctx')
        | Ok _ ctx' =>
            match ctx_newEncoding ctx' with
            | Some mode => main_loop fuel' mode (with_newEncoding None ctx')
            | None => main_loop fuel' encodingMode ctx'
            end
        end
    end
  else Some (Ok encodingMode ctx).

(** [while (context.codewordCount() < capacity)
      context.addCodeword(Randomize253State(PAD, context.codewordCount() + 1));] *)
Fixpoint pad_loop (fuel : nat) (capacity : Z) : M unit :=
  count <- gets codewordCount ;;
  if count <? capacity then
    match fuel with
    | O => ret tt
    | S fuel' =>
        addCodeword (Randomize253State PAD (count + 1)) ;;
        pad_loop fuel' capacity
    end
  else ret tt.

(** The statements after the main loop. *)
Definition finish (encodingMode : Encodation) : M (list Z) :=
  len <- gets codewordCount ;;
  symbolInfo <- updateSymbolInfo len ;;
  let capacity := dataCapacity symbolInfo in
  (if len <? capacity then
     if negb (Encodation_eqb encodingMode ASCII_ENCODATION)
        && negb (Encodation_eqb encodingMode BASE256_ENCODATION)
     then addCodeword (char_to_int 254) (* '\xfe': Unlatch (254) *)
     else ret tt
   else ret tt) ;;
  (* Padding *)
  count <- gets codewordCount ;;
  (if count <? capacity then addCodeword PAD else ret tt) ;;
  count <- gets codewordCount ;;
  pad_loop (Z.to_nat (capacity - count)) capacity ;;
  gets ctx_codewords.

(** The macro headers. *)
Definition macro_prefix (msg : list Z) : M unit :=
  if StartsWith msg MACRO_05_HEADER && EndsWith msg MACRO_TRAILER then
    addCodeword MACRO_05 ;;
    setSkipAtEnd 2 ;;
    setCurrentPos (len MACRO_05_HEADER)
  else if StartsWith msg MACRO_06_HEADER && EndsWith msg MACRO_TRAILER then
    addCodeword MACRO_06 ;;
    setSkipAtEnd 2 ;;
    setCurrentPos (len MACRO_06_HEADER)
  else ret tt.

(** [HighLevelEncoder::Encode]: the codewords, or the exception; [None]
    when [fuel] turns of the main loop do not end it. *)
Definition Encode (fuel : nat) (lookup : Z -> option SymbolInfo)
    (msg : message) : option (Result (list Z)) :=
  match macro_prefix (wide msg) (initial_context lookup msg) with
  | Throw e ctx => Some (Throw e ctx)
  | Ok _ ctx =>
      match main_loop fuel ASCII_ENCODATION ctx with
      | None => None
      | Some (Throw e ctx') => Some (Throw e ctx')
      | Some (Ok encodingMode ctx') => Some (finish encodingMode ctx')
      end
  end.

(** The codewords of an outcome. *)
Definition output {A} (r : option (Result A)) : option A :=
  match r with
  | Some (Ok a _) => Some a
  | _ => None
  end.

(** ** A symbol catalog *)

(** Modelled from the spec: the symbol catalog ([DMSymbolInfo.cpp] is not
    among the sources). The data capacities are those of the ECC 200
    symbols of ISO/IEC 16022, squares and rectangles, in the order of
    their size. *)
Definition ecc200_capacities : list Z :=
  [3; 5; 5; 8; 10; 12; 16; 18; 22; 22; 30; 32; 36; 44; 49; 62; 86; 114; 144;
   174; 204; 280; 368; 456; 576; 696; 816; 1050; 1304; 1558].

(** Modelled from the spec: the selection of the catalog with no
    preference of shape and no size constraint, the first symbol that
    holds [len] data codewords. *)
Definition ecc200 (len : Z) : option SymbolInfo :=
  option_map Build_SymbolInfo (find (fun c => len <=? c) ecc200_capacities).

(** ** The text of the exception messages *)

(** [ToHexString(c)]: the string ["0x"] and the two hexadecimal digits of
    the low octet of [c]; the index of [digits] is between 0 and 15. *)
Definition hex_digits : list ascii := list_ascii_of_string "0123456789abcdef".

Definition ToHexString (c : Z) : list ascii :=
  let digits := hex_digits in
  ["0"%char; "x"%char;
   nth (Z.to_nat (Z.land (Z.shiftr c 4) 15)) digits "000"%char;
   nth (Z.to_nat (Z.land c 15)) digits "000"%char].

(** ** The symbol versions of [core/src/datamatrix/DMVersion.h] *)

Module Version.

(** The parameters of one set of error-correction blocks. *)
Record ECB : Type := {
  count : Z;
  dataCodewords : Z
}.

Record ECBlocks : Type := {
  codewordsPerBlock : Z;
  blocks0 : ECB;   (* blocks[0] *)
  blocks1 : ECB    (* blocks[1] *)
}.

Definition numBlocks (e : ECBlocks) : Z := count (blocks0 e) + count (blocks1 e).

Definition totalDataCodewords (e : ECBlocks) : Z :=
  count (blocks0 e) * (dataCodewords (blocks0 e) + codewordsPerBlock e)
  + count (blocks1 e) * (dataCodewords (blocks1 e) + codewordsPerBlock e).

Record t : Type := {
  versionNumber : Z;
  symbolHeight : Z;
  symbolWidth : Z;
  dataBlockHeight : Z;
  dataBlockWidth : Z;
  ecBlocks : ECBlocks
}.

Definition totalCodewords (v : t) : Z := totalDataCodewords (ecBlocks v).

(** The division of [int] truncates. *)
Definition dataWidth (v : t) : Z :=
  Z.quot (symbolWidth v) (dataBlockWidth v) * dataBlockWidth v.

Definition dataHeight (v : t) : Z :=
  Z.quot (symbolHeight v) (dataBlockHeight v) * dataBlockHeight v.

End Version.

(** * Definitions of the specification *)

(** The initializer doubled, as step J leaves it for a mode other than
    ASCII before it clears the count of the current mode. *)
Definition charCounts_doubled : array6 F32.t :=
  Array6 f_1 f_2 f_2 f_2 f_2 (F32.of_scaled 5 (-1)).

(** The least of the six counts. *)
Definition min6 (a : array6 Z) : Z :=
  Z.min (at_ascii a) (Z.min (at_c40 a) (Z.min (at_text a)
    (Z.min (at_x12 a) (Z.min (at_edifact a) (at_base256 a))))).

(** The counts are values of the type [int]. *)
Definition int_range (a : array6 Z) : Prop :=
  forall i, get6 a i <= INT_MAX.

(** The index [i] is among the indices [seen]. *)
Definition seen_in (seen : list Encodation) (i : Encodation) : bool :=
  existsb (Encodation_eqb i) seen.

(** The state of the loop of [FindMinimums] after the indices [seen]. *)
Definition mins_inv (ic : array6 Z) (seen : list Encodation) (st : Z * array6 Z) : Prop :=
  let '(min, mins) := st in
  min <= INT_MAX
  /\ (forall i, In i seen -> min <= get6 ic i)
  /\ (min = INT_MAX \/ exists i, In i seen /\ get6 ic i = min)
  /\ (forall i, get6 mins i = if seen_in seen i && (get6 ic i =? min) then 1 else 0).

(** The ceiled counts with which step R reaches the forward scan of its
    C40/X12 tie-break: the counts for C40 and X12 are equal, and the count
    for C40 plus one is below the counts for ASCII, Base 256, EDIFACT and
    Text. *)
Definition tie_break (ic : array6 Z) : Prop :=
  get6 ic C40_ENCODATION = get6 ic X12_ENCODATION
  /\ get6 ic C40_ENCODATION + 1 < get6 ic ASCII_ENCODATION
  /\ get6 ic C40_ENCODATION + 1 < get6 ic BASE256_ENCODATION
  /\ get6 ic C40_ENCODATION + 1 < get6 ic EDIFACT_ENCODATION
  /\ get6 ic C40_ENCODATION + 1 < get6 ic TEXT_ENCODATION.

(** A character that lets the forward scan go on. *)
Definition scan_passes (ch : ascii) : Prop :=
  IsX12TermSep (code ch) = false /\ IsNativeX12 (code ch) = true.

(** The context after the codewords [cws] are added to it. *)
Definition with_codewords (cws : list Z) (ctx : EncoderContext) : EncoderContext :=
  mkContext (ctx_msg ctx) (ctx_lookup ctx) (ctx_pos ctx)
            (ctx_codewords ctx ++ cws) (ctx_newEncoding ctx)
            (ctx_symbolInfo ctx) (ctx_skipAtEnd ctx).

(** The two codewords [v / 256] and [v % 256], with
    [v = 1600 c1 + 40 c2 + c3 + 1], of each full triplet [(c1, c2, c3)] of
    a buffer of C40 values, in their order. *)
Fixpoint triplet_codewords (buffer : list Z) : list Z :=
  match buffer with
  | c1 :: c2 :: c3 :: rest =>
      let v := 1600 * c1 + 40 * c2 + c3 + 1 in
      v / 256 :: v mod 256 :: triplet_codewords rest
  | _ => []
  end.

(** The codeword 254 when [b] holds. *)
Definition unlatch_if (b : bool) : list Z := if b then [254] else [].

(** The pseudo-random number of the position [pos] for the modulus [m],
    [((149 * pos) % m) + 1] in the arithmetic of [int]. *)
Definition pseudo_random (m pos : Z) : Z := Z.rem (int_wrap (149 * pos)) m + 1.

(** The bytes of a Base 256 buffer as the codewords that the encoder
    makes of them, when [count] codewords stand before them. The byte [b]
    that becomes the codeword at position [pos] (counted from 1) is taken
    as a [char], [c = b] below 128 and [c = b - 256] from 128 on, and the
    codeword is [c] plus the pseudo-random number of [pos] for 255, less
    256 when that exceeds 255. *)
Fixpoint randomized255 (count : Z) (bytes : list Z) : list Z :=
  match bytes with
  | [] => []
  | b :: bytes' =>
      let pos := count + 1 in
      let t := char_to_int b + pseudo_random 255 pos in
      (if t <=? 255 then t else t - 256) :: randomized255 (count + 1) bytes'
  end.

(** A codeword is an integer from 0 to 255. *)
Definition byte_range (x : Z) : Prop := 0 <= x <= 255.

(** A value of the C40, Text and X12 buffers. *)
Definition c40_value (x : Z) : Prop := 0 <= x <= 39.

(** The invariant of a run with the catalog [lookup]: the codewords of the
    context are in range, and its catalog is [lookup]. *)
Definition run_inv (lookup : Z -> option SymbolInfo) (ctx : EncoderContext) : Prop :=
  Forall byte_range (ctx_codewords ctx) /\ ctx_lookup ctx = lookup.

(** The computation [c] keeps the invariant of the run when it returns,
    and returns values that satisfy [Q]. *)
Definition preserves {A} (lookup : Z -> option SymbolInfo) (c : M A)
    (Q : A -> Prop) : Prop :=
  forall ctx, run_inv lookup ctx ->
    match c ctx with
    | Ok a ctx' => run_inv lookup ctx' /\ Q a
    | Throw _ _ => True
    end.

(** Any value. *)
Definition any {A} (a : A) : Prop := True.

(** The catalog answers with a symbol that holds the requested count. *)
Definition catalog_fits (lookup : Z -> option SymbolInfo) : Prop :=
  forall n s, lookup n = Some s -> n <= dataCapacity s.

(** An [encodeChar] function that appends C40 values to a buffer of C40
    values, for every octet. *)
Definition encoder_ok (encodeChar : Z -> list Z -> option (Z * list Z)) : Prop :=
  forall c sb n sb',
    byte_range c -> Forall c40_value sb -> encodeChar c sb = Some (n, sb') ->
    Forall c40_value sb'.

(** The pad codeword at the position [pos], counted from 1, past the first
    pad: [t <= 254 ? t : t - 254] with [t = 129 + ((149 pos) mod 253) + 1],
    the product and the remainder in the arithmetic of [int]. *)
Definition pad_at (pos : Z) : Z :=
  let t := 129 + pseudo_random 253 pos in
  if t <=? 254 then t else t - 254.

(** The [n] pad codewords that follow [count] codewords. *)
Fixpoint padding (n : nat) (count : Z) : list Z :=
  match n with
  | O => []
  | S n' => pad_at (count + 1) :: padding n' (count + 1)
  end.

(** The mode is neither ASCII nor Base 256. *)
Definition needs_unlatch (encodingMode : Encodation) : bool :=
  match encodingMode with
  | ASCII_ENCODATION | BASE256_ENCODATION => false
  | _ => true
  end.

(** The unlatch that ends the codewords [cws] of the main loop in a symbol
    of the given capacity, as the driver writes it: the value of the
    [char] ['\xfe'], which is -2. *)
Definition written_unlatch (encodingMode : Encodation) (capacity : Z)
    (cws : list Z) : list Z :=
  if (len cws <? capacity) && needs_unlatch encodingMode then [-2] else [].

(** The first pad, after the codewords [cws] and their unlatch. *)
Definition first_pad (capacity : Z) (cws : list Z) : list Z :=
  if len cws <? capacity then [129] else [].

(** The inverse of [Randomize255State] that a reader of the symbol
    applies to the codeword at the position [pos]: the pseudo-random
    number of the position is taken off, and 256 added to a negative
    difference. *)
Definition unrandomize255 (codeword pos : Z) : Z :=
  let t := codeword - pseudo_random 255 pos in
  if t >=? 0 then t else t + 256.

(** The inverse of [Randomize253State]. *)
Definition unrandomize253 (codeword pos : Z) : Z :=
  let t := codeword - pseudo_random 253 pos in
  if t >=? 1 then t else t + 254.

(** The greatest position whose product with 149 is a value of [int]. *)
Definition MAX_POSITION : Z := 14412641.

(** The value of a hexadecimal digit. *)
Definition hex_value (a : ascii) : option Z :=
  let c := code a in
  if (48 <=? c) && (c <=? 57) then Some (c - 48)
  else if (97 <=? c) && (c <=? 102) then Some (c - 97 + 10)
  else None.

(** The 256 characters. *)
Definition all_ascii : list ascii := map ascii_of_nat (seq 0 256).

(** [l] is the beginning of [l']. *)
Fixpoint prefixb (l l' : list Z) : bool :=
  match l, l' with
  | [], _ => true
  | x :: r, y :: r' => (x =? y) && prefixb r r'
  | _ :: _, [] => false
  end.

(** A value of six bits of the EDIFACT buffer. *)
Definition edifact_value (x : Z) : Prop := 0 <= x <= 63.

(** The codewords of a message of digits in ASCII mode: a codeword for
    each pair of digits, and the last digit plus one when it has no
    partner. *)
Fixpoint digit_codewords (ds : list ascii) : list Z :=
  match ds with
  | d1 :: d2 :: rest =>
      130 + 10 * (code d1 - 48) + (code d2 - 48) :: digit_codewords rest
  | [d] => [code d + 1]
  | [] => []
  end.

(** The codewords of a character in ASCII mode. *)
Definition ascii_codewords (a : ascii) : list Z :=
  if 128 <=? code a then [235; code a - 127] else [code a + 1].

(** What [EncodeChar] of the C40 or Text encoder does with the character
    [a], and how the look-ahead test counts it with [native]. *)
Definition EncodeChar_test (encodeChar : Z -> list Z -> option (Z * list Z))
    (native : Z -> bool) (a : ascii) : bool :=
  match encodeChar (code a) [] with
  | Some (n, vs) =>
      (n =? len vs) && (1 <=? n) && (n <=? 4)
      && forallb (fun v => (0 <=? v) && (v <=? 39)) vs
      && Bool.eqb (native (code a)) (n =? 1)
      && Bool.eqb (128 <=? code a) (2 <? n)
  | None => false
  end.

(** The values of the character [a] do not begin the values of another
    character [b]. *)
Definition prefix_test (encodeChar : Z -> list Z -> option (Z * list Z))
    (a b : ascii) : bool :=
  match encodeChar (code a) [], encodeChar (code b) [] with
  | Some (_, va), Some (_, vb) => negb (prefixb va vb) || Ascii.eqb a b
  | _, _ => true
  end.

(** The context of an outcome. *)
Definition context_of {A} (r : Result A) : EncoderContext :=
  match r with
  | Ok _ ctx => ctx
  | Throw _ ctx => ctx
  end.

(** The context [ctx'] has the message, the catalog and the count of
    skipped characters of [ctx], and its codewords begin with those of
    [ctx]. *)
Definition appends (ctx ctx' : EncoderContext) : Prop :=
  ctx_msg ctx' = ctx_msg ctx
  /\ ctx_lookup ctx' = ctx_lookup ctx
  /\ ctx_skipAtEnd ctx' = ctx_skipAtEnd ctx
  /\ exists cws, ctx_codewords ctx' = ctx_codewords ctx ++ cws.

(** The computation [c], whether it returns or throws, only appends. *)
Definition appending {A} (c : M A) : Prop :=
  forall ctx, appends ctx (context_of (c ctx)).

(** The character with the case of its letter exchanged, for a letter of
    either case; the bit of the upper shift is kept. *)
Definition swap_case (c : Z) : Z :=
  let low := c mod 128 in
  if (65 <=? low) && (low <=? 90) then c + 32
  else if (97 <=? low) && (low <=? 122) then c - 32
  else c.

(** The Text encoder gives the character [a] the values that the C40
    encoder gives the character of the other case. *)
Definition swap_test (a : ascii) : bool :=
  match DMTextEncoder.EncodeChar (code a) [],
        C40Encoder.EncodeChar (swap_case (code a)) [] with
  | Some (n, va), Some (m, vb) => (n =? m) && wide_eqb va vb
  | _, _ => false
  end.

(** * Properties *)

(** ** The counts the look-ahead test starts from *)

Lemma charCounts_doubled_eq :
  map6 (fun x => F32.mul x f_2) charCounts_init = charCounts_doubled.
Proof. vm_compute. reflexivity. Qed.

Lemma LookAheadTest_inside (msg : message) (startpos : Z) (currentMode : Encodation) :
  0 <= startpos < msg_length msg ->
  LookAheadTest msg startpos currentMode =
  LookAheadLoop msg startpos (msg_from msg startpos) 0 (stepJ currentMode).
Proof.
  intros [Hlo Hhi]. unfold LookAheadTest.
  destruct (Z.ltb_spec startpos 0) as [Hneg|_]; [lia|].
  destruct (Z.geb_spec startpos (msg_length msg)) as [Hge|_]; [lia|].
  reflexivity.
Qed.

(** C3, as stated, fails: for the message "ABCD" the test started in ASCII
    mode answers ASCII, while the loop started from the counts
    [0.5, 1, 1, 1, 1, 1.25] answers C40. *)
Lemma C3_initial_counts_counterexample :
  LookAheadTest (msg_of "ABCD") 0 ASCII_ENCODATION = ASCII_ENCODATION
  /\ LookAheadLoop (msg_of "ABCD") 0 (msg_from (msg_of "ABCD") 0) 0 charCounts_init
     = C40_ENCODATION.
Proof. split; vm_compute; reflexivity. Qed.

(** C3, amended: for [startpos] inside the message, the test started in
    ASCII mode accumulates from the counts [0, 1, 1, 1, 1, 1.25]; started
    in another mode it accumulates from the doubled counts
    [1, 2, 2, 2, 2, 2.5] with the count of the current mode set to 0. The
    doubling is applied only when the current mode is not ASCII, the
    clearing of the current mode's count in every mode. *)
Theorem C3_initial_counts (msg : message) (startpos : Z) (currentMode : Encodation) :
  0 <= startpos < msg_length msg ->
  (currentMode = ASCII_ENCODATION ->
   LookAheadTest msg startpos currentMode =
   LookAheadLoop msg startpos (msg_from msg startpos) 0
     (Array6 f_0 f_1 f_1 f_1 f_1 f_1_25))
  /\ (currentMode <> ASCII_ENCODATION ->
      LookAheadTest msg startpos currentMode =
      LookAheadLoop msg startpos (msg_from msg startpos) 0
        (set6 charCounts_doubled currentMode f_0)).
Proof.
  intros Hin. rewrite (LookAheadTest_inside _ _ _ Hin). split.
  - intros ->. reflexivity.
  - intros Hmode. unfold stepJ.
    destruct currentMode; try congruence; cbn [Encodation_eqb negb];
      rewrite charCounts_doubled_eq; reflexivity.
Qed.

Lemma C3_initial_counts_witness :
  LookAheadTest (msg_of "ABCD") 0 ASCII_ENCODATION =
  LookAheadLoop (msg_of "ABCD") 0 (msg_from (msg_of "ABCD") 0) 0
    (Array6 f_0 f_1 f_1 f_1 f_1 f_1_25).
Proof.
  refine (proj1 (C3_initial_counts (msg_of "ABCD") 0 ASCII_ENCODATION _) eq_refl).
  unfold msg_length; simpl; lia.
Defined.

(** ** The minimums of the counts *)

Lemma Encodation_eqb_eq (a b : Encodation) : Encodation_eqb a b = true <-> a = b.
Proof. destruct a, b; cbn; split; intro H; congruence. Qed.

Lemma Encodation_eqb_refl (a : Encodation) : Encodation_eqb a a = true.
Proof. destruct a; reflexivity. Qed.

Lemma Encodation_eqb_neq (a b : Encodation) : Encodation_eqb a b = false <-> a <> b.
Proof. destruct a, b; cbn; split; intro H; congruence. Qed.

Lemma get6_set6 {A} (a : array6 A) (i j : Encodation) (v : A) :
  get6 (set6 a i v) j = if Encodation_eqb i j then v else get6 a j.
Proof. destruct i, j; reflexivity. Qed.

Lemma get6_fill6 {A} (v : A) (i : Encodation) : get6 (fill6 v) i = v.
Proof. destruct i; reflexivity. Qed.

Lemma get6_map6 {A B} (f : A -> B) (a : array6 A) (i : Encodation) :
  get6 (map6 f a) i = f (get6 a i).
Proof. destruct i; reflexivity. Qed.

Lemma array6_ext {A} (a b : array6 A) : (forall i, get6 a i = get6 b i) -> a = b.
Proof.
  intros H. destruct a, b.
  pose proof (H ASCII_ENCODATION). pose proof (H C40_ENCODATION).
  pose proof (H TEXT_ENCODATION). pose proof (H X12_ENCODATION).
  pose proof (H EDIFACT_ENCODATION). pose proof (H BASE256_ENCODATION).
  cbn in *. congruence.
Qed.

Lemma seen_in_app (seen : list Encodation) (i j : Encodation) :
  seen_in (seen ++ [i]) j = seen_in seen j || Encodation_eqb j i.
Proof. unfold seen_in. rewrite existsb_app. cbn. now rewrite orb_false_r. Qed.

Lemma seen_in_false (seen : list Encodation) (i : Encodation) :
  ~ In i seen -> seen_in seen i = false.
Proof.
  intros Hn. unfold seen_in. destruct (existsb _ _) eqn:E; [|reflexivity].
  apply existsb_exists in E. destruct E as [x [Hx Hxe]].
  apply Encodation_eqb_eq in Hxe. subst. contradiction.
Qed.

Lemma seen_in_true (seen : list Encodation) (i : Encodation) :
  In i seen -> seen_in seen i = true.
Proof.
  intros Hi. unfold seen_in. apply existsb_exists. exists i. split; [assumption|].
  apply Encodation_eqb_refl.
Qed.

Lemma Encodation_eqb_sym (a b : Encodation) : Encodation_eqb a b = Encodation_eqb b a.
Proof. destruct a, b; reflexivity. Qed.

Lemma seen_in_cases (seen : list Encodation) (i : Encodation) :
  (seen_in seen i = true /\ In i seen) \/ (seen_in seen i = false /\ ~ In i seen).
Proof.
  unfold seen_in. destruct (existsb _ _) eqn:E.
  - left. split; [reflexivity|]. apply existsb_exists in E.
    destruct E as [x [Hx Hxe]]. apply Encodation_eqb_eq in Hxe. now subst.
  - right. split; [reflexivity|]. intros Hi.
    assert (existsb (Encodation_eqb i) seen = true) as E'
      by (apply existsb_exists; exists i; split; [assumption|apply Encodation_eqb_refl]).
    congruence.
Qed.

Lemma FindMinimums_step_inv (ic : array6 Z) (seen : list Encodation)
    (st : Z * array6 Z) (i : Encodation) :
  ~ In i seen -> mins_inv ic seen st ->
  mins_inv ic (seen ++ [i]) (FindMinimums_step ic st i).
Proof.
  intros Hnew. destruct st as [min mins]. intros (Hmax & Hle & Hex & Hmins).
  unfold FindMinimums_step.
  destruct (Z.gtb_spec min (get6 ic i)) as [Hgt|Hngt].
  - (* a new minimum *)
    rewrite Z.eqb_refl. cbn. repeat split.
    + lia.
    + intros j Hj. apply in_app_or in Hj. destruct Hj as [Hj|[<-|[]]]; [|lia].
      specialize (Hle j Hj). lia.
    + right. exists i. split; [apply in_or_app; right; left|]; reflexivity.
    + intros j. rewrite get6_set6, !get6_fill6, seen_in_app.
      rewrite (Encodation_eqb_sym j i).
      destruct (Encodation_eqb i j) eqn:Eij.
      * apply Encodation_eqb_eq in Eij. subst j.
        rewrite orb_true_r, Z.eqb_refl. reflexivity.
      * rewrite orb_false_r.
        destruct (seen_in_cases seen j) as [[-> Hj]|[-> _]]; [|reflexivity].
        specialize (Hle j Hj). cbn.
        destruct (Z.eqb_spec (get6 ic j) (get6 ic i)); [lia|reflexivity].
  - destruct (Z.eqb_spec min (get6 ic i)) as [Heq|Hne]; cbn; repeat split.
    + assumption.
    + intros j Hj. apply in_app_or in Hj. destruct Hj as [Hj|[<-|[]]]; [|lia].
      apply Hle; assumption.
    + right. exists i. split; [apply in_or_app; right; left; reflexivity|]. lia.
    + intros j. rewrite get6_set6, seen_in_app, (Encodation_eqb_sym j i), !Hmins.
      destruct (Encodation_eqb i j) eqn:Eij.
      * apply Encodation_eqb_eq in Eij. subst j.
        rewrite (seen_in_false _ _ Hnew). cbn.
        destruct (Z.eqb_spec (get6 ic i) min); [reflexivity|lia].
      * rewrite orb_false_r. reflexivity.
    + assumption.
    + intros j Hj. apply in_app_or in Hj. destruct Hj as [Hj|[<-|[]]]; [|lia].
      apply Hle; assumption.
    + destruct Hex as [Hex|[k [Hk Hkm]]]; [left; assumption|].
      right. exists k. split; [apply in_or_app; left|]; assumption.
    + intros j. rewrite seen_in_app, (Encodation_eqb_sym j i), Hmins.
      destruct (Encodation_eqb i j) eqn:Eij.
      * apply Encodation_eqb_eq in Eij. subst j.
        rewrite (seen_in_false _ _ Hnew). cbn.
        destruct (Z.eqb_spec (get6 ic i) min); [lia|reflexivity].
      * rewrite orb_false_r. reflexivity.
Qed.

Lemma min6_le (ic : array6 Z) (i : Encodation) : min6 ic <= get6 ic i.
Proof. unfold min6. destruct i; cbn; lia. Qed.

Lemma min6_attained (ic : array6 Z) : exists i, get6 ic i = min6 ic.
Proof.
  unfold min6. destruct ic as [a b c d e f]. cbn.
  destruct (Z.le_gt_cases a (Z.min b (Z.min c (Z.min d (Z.min e f)))));
    [exists ASCII_ENCODATION; cbn; lia|].
  destruct (Z.le_gt_cases b (Z.min c (Z.min d (Z.min e f))));
    [exists C40_ENCODATION; cbn; lia|].
  destruct (Z.le_gt_cases c (Z.min d (Z.min e f)));
    [exists TEXT_ENCODATION; cbn; lia|].
  destruct (Z.le_gt_cases d (Z.min e f)); [exists X12_ENCODATION; cbn; lia|].
  destruct (Z.le_gt_cases e f);
    [exists EDIFACT_ENCODATION; cbn; lia|exists BASE256_ENCODATION; cbn; lia].
Qed.

Lemma in_all_modes (i : Encodation) : In i all_modes.
Proof. destruct i; cbn; tauto. Qed.

(** [FindMinimums], called with [INT_MAX], returns the least count and
    marks with 1 the modes that attain it. *)
Lemma FindMinimums_spec (ic : array6 Z) :
  int_range ic ->
  FindMinimums ic INT_MAX =
  (min6 ic, map6 (fun v => if v =? min6 ic then 1 else 0) ic).
Proof.
  intros Hr.
  assert (mins_inv ic all_modes (FindMinimums ic INT_MAX)) as Hinv.
  { unfold FindMinimums, all_modes. cbn [fold_left].
    change [ASCII_ENCODATION; C40_ENCODATION; TEXT_ENCODATION; X12_ENCODATION;
            EDIFACT_ENCODATION; BASE256_ENCODATION]
      with (((((([] ++ [ASCII_ENCODATION]) ++ [C40_ENCODATION]) ++ [TEXT_ENCODATION])
              ++ [X12_ENCODATION]) ++ [EDIFACT_ENCODATION]) ++ [BASE256_ENCODATION]).
    repeat (apply FindMinimums_step_inv;
            [cbn; intuition discriminate|]).
    cbn. repeat split; [lia|intros i Hi; destruct Hi|left; reflexivity|].
    intros i. rewrite get6_fill6. reflexivity. }
  destruct (FindMinimums ic INT_MAX) as [min mins].
  destruct Hinv as (Hmax & Hle & Hex & Hmins).
  assert (min = min6 ic) as ->.
  { destruct (min6_attained ic) as [k Hk].
    pose proof (Hle k (in_all_modes k)) as Hlek.
    destruct Hex as [->|[j [_ Hj]]].
    - pose proof (Hr k). lia.
    - pose proof (min6_le ic j). lia. }
  f_equal. apply array6_ext. intros i.
  rewrite Hmins, get6_map6, (seen_in_true _ _ (in_all_modes i)). reflexivity.
Qed.

(** ** Step R: the C40/X12 tie-break *)

(** Settles the comparisons of the goal that the hypotheses decide. *)
Ltac split_tests :=
  repeat match goal with
         | |- context [?x =? ?y] =>
             is_var x; is_var y; destruct (Z.eqb_spec x y); try lia
         end;
  cbn [Z.add Z.eqb Z.ltb Z.gtb Z.compare Pos.compare Pos.compare_cont Pos.add andb orb];
  repeat match goal with
         | |- context [?x <? ?y] => destruct (Z.ltb_spec x y); try lia
         | |- context [?x >? ?y] => destruct (Z.gtb_spec x y); try lia
         | |- context [?x =? ?y] => destruct (Z.eqb_spec x y); try lia
         end.

Lemma stepR_tie_break (msg : message) (startpos charsProcessed : Z)
    (charCounts : array6 F32.t) :
  let ic := map6 F32.ceil_int charCounts in
  int_range ic ->
  get6 ic ASCII_ENCODATION <= get6 ic BASE256_ENCODATION ->
  tie_break ic ->
  stepR msg startpos charsProcessed charCounts =
  Some (x12Scan (msg_from msg (startpos + charsProcessed + 1))).
Proof.
  intros ic Hr Hab (Heq & Ha & Hb & He & Ht).
  unfold stepR. fold ic. rewrite (FindMinimums_spec ic Hr).
  assert (min6 ic = get6 ic C40_ENCODATION) as Hmin by (unfold min6; cbn in *; lia).
  rewrite Hmin. clearbody ic. destruct ic as [a b c d e f].
  unfold sum6, map6, all_modes, fold_left.
  cbn [get6 at_ascii at_c40 at_text at_x12 at_edifact at_base256] in *.
  split_tests; reflexivity.
Qed.

Lemma msg_from_app (pre : list ascii) (a : ascii) (post : list ascii) (p : Z) :
  msg_length pre = p -> msg_from (pre ++ a :: post) (p + 1) = post.
Proof.
  intros <-. unfold msg_from, msg_length.
  replace (Z.to_nat (Z.of_nat (List.length pre) + 1)) with (List.length pre + 1)%nat by lia.
  rewrite skipn_app, skipn_all2 by lia.
  replace (List.length pre + 1 - List.length pre)%nat with 1%nat by lia.
  reflexivity.
Qed.

(** The two tests of the scan do not tell a [char] from its octet: they
    hold for no character from 128 on. *)
Lemma IsX12TermSep_char (ch : ascii) :
  IsX12TermSep (char_to_int (code ch)) = IsX12TermSep (code ch).
Proof. destruct ch as [[] [] [] [] [] [] [] []]; reflexivity. Qed.

Lemma IsNativeX12_char (ch : ascii) :
  IsNativeX12 (char_to_int (code ch)) = IsNativeX12 (code ch).
Proof. destruct ch as [[] [] [] [] [] [] [] []]; reflexivity. Qed.

Lemma x12Scan_passes (tail : list ascii) :
  Forall scan_passes tail -> x12Scan tail = C40_ENCODATION.
Proof.
  induction 1 as [|ch tail [Hsep Hnat] _ IH]; [reflexivity|].
  cbn [x12Scan]. rewrite IsX12TermSep_char, IsNativeX12_char, Hsep, Hnat.
  exact IH.
Qed.

(** C10: when step R reaches its C40/X12 tie-break (no earlier rule has
    returned, the ceiled counts for C40 and X12 are equal and the count
    for C40 plus one is below those for ASCII, Base 256, EDIFACT and
    Text), the answer is that of the forward scan from the index
    [startpos + charsProcessed + 1]. The character [a] at the index
    [startpos + charsProcessed], the one that follows the last processed
    character, is not examined: any other character in its place gives
    the same answer. When the scan meets neither an X12 terminator or
    separator nor a character that is not native to X12 up to the end of
    the message, the answer is C40. *)
Theorem C10_tie_break_scan (pre post : list ascii) (a : ascii)
    (startpos charsProcessed : Z) (charCounts : array6 F32.t) :
  let ic := map6 F32.ceil_int charCounts in
  msg_length pre = startpos + charsProcessed ->
  int_range ic ->
  get6 ic ASCII_ENCODATION <= get6 ic BASE256_ENCODATION ->
  tie_break ic ->
  stepR (pre ++ a :: post) startpos charsProcessed charCounts
  = Some (x12Scan (msg_from (pre ++ a :: post) (startpos + charsProcessed + 1)))
  /\ (forall b : ascii,
         stepR (pre ++ b :: post) startpos charsProcessed charCounts
         = stepR (pre ++ a :: post) startpos charsProcessed charCounts)
  /\ (Forall scan_passes post ->
      stepR (pre ++ a :: post) startpos charsProcessed charCounts
      = Some C40_ENCODATION).
Proof.
  intros ic Hlen Hr Hab Htie.
  assert (forall b : ascii,
             stepR (pre ++ b :: post) startpos charsProcessed charCounts
             = Some (x12Scan post)) as Hscan.
  { intros b. rewrite (stepR_tie_break _ _ _ _ Hr Hab Htie).
    rewrite (msg_from_app pre b post _ Hlen). reflexivity. }
  split; [|split].
  - apply stepR_tie_break; assumption.
  - intros b. rewrite (Hscan a), (Hscan b). reflexivity.
  - intros Hpost. rewrite (Hscan a), (x12Scan_passes _ Hpost). reflexivity.
Qed.

(** The tie-break on a message: after nineteen letters the scan starts
    two characters further, so the terminator that follows the letters at
    once is passed over, and one character later it is found. *)
Example tie_break_skips_next_character :
  LookAheadTest (msg_of "AAAAAAAAAAAAAAAAAAA>") 0 ASCII_ENCODATION = C40_ENCODATION
  /\ LookAheadTest (msg_of "AAAAAAAAAAAAAAAAAAAA>") 0 ASCII_ENCODATION = X12_ENCODATION.
Proof. split; vm_compute; reflexivity. Qed.

Lemma C10_tie_break_scan_witness :
  stepR (msg_of "AAAAAAAAAAAAAAAAAAA>AA") 0 19
    (map6 F32.of_Z (Array6 19 14 27 14 16 21))
  = Some (x12Scan (msg_from (msg_of "AAAAAAAAAAAAAAAAAAA>AA") (0 + 19 + 1))).
Proof.
  refine (proj1 (C10_tie_break_scan (msg_of "AAAAAAAAAAAAAAAAAAA") (msg_of "AA")
                   ">"%char 0 19 (map6 F32.of_Z (Array6 19 14 27 14 16 21)) _ _ _ _)).
  - reflexivity.
  - intros i; destruct i; vm_compute; discriminate.
  - vm_compute; discriminate.
  - unfold tie_break; vm_compute; intuition discriminate.
Defined.

(** ** Contexts *)

Lemma with_codewords_nil (ctx : EncoderContext) : with_codewords [] ctx = ctx.
Proof. destruct ctx. unfold with_codewords. cbn. now rewrite app_nil_r. Qed.

Lemma with_codeword_eq (cw : Z) (ctx : EncoderContext) :
  with_codeword cw ctx = with_codewords [cw] ctx.
Proof. reflexivity. Qed.

Lemma with_codewords_app (l1 l2 : list Z) (ctx : EncoderContext) :
  with_codewords l2 (with_codewords l1 ctx) = with_codewords (l1 ++ l2) ctx.
Proof. unfold with_codewords. cbn. now rewrite app_assoc. Qed.

Lemma updateSymbolInfo_Ok (n : Z) (ctx ctx1 : EncoderContext) (s : SymbolInfo) :
  updateSymbolInfo n ctx = Ok s ctx1 -> ctx1 = with_symbolInfo (Some s) ctx.
Proof.
  unfold updateSymbolInfo. destruct ctx as [m l p c ne si sk]. cbn.
  destruct si as [s0|].
  - destruct (n >? dataCapacity s0).
    + destruct (l n); intros H; inversion H; reflexivity.
    + intros H; inversion H; reflexivity.
  - destruct (l n); intros H; inversion H; reflexivity.
Qed.

Lemma updateSymbolInfo_Throw (n : Z) (ctx ctx1 : EncoderContext) (e : Exception) :
  updateSymbolInfo n ctx = Throw e ctx1 -> e = NoFittingSymbol /\ ctx1 = ctx.
Proof.
  unfold updateSymbolInfo. destruct (ctx_symbolInfo ctx) as [s0|].
  - destruct (n >? dataCapacity s0).
    + destruct (ctx_lookup ctx n); intros H; inversion H; split; reflexivity.
    + intros H; inversion H.
  - destruct (ctx_lookup ctx n); intros H; inversion H; split; reflexivity.
Qed.

(** ** The end of data of the C40 and Text encoders *)

Lemma len_nonneg (l : list Z) : 0 <= len l.
Proof. unfold len. lia. Qed.

Lemma len_app (l1 l2 : list Z) : len (l1 ++ l2) = len l1 + len l2.
Proof. unfold len. rewrite length_app. lia. Qed.

Lemma len_cons (x : Z) (l : list Z) : len (x :: l) = 1 + len l.
Proof. unfold len. cbn [List.length]. lia. Qed.

Lemma write_triplets_spec (fuel : nat) (buffer : list Z) (ctx : EncoderContext) :
  (List.length buffer <= fuel)%nat ->
  exists rest,
    C40Encoder.write_triplets fuel buffer ctx
    = Ok rest (with_codewords (triplet_codewords buffer) ctx).
Proof.
  revert buffer ctx. induction fuel as [|fuel IH]; intros buffer ctx Hfuel.
  - destruct buffer; [|cbn in Hfuel; lia]. exists []. cbn.
    now rewrite with_codewords_nil.
  - destruct buffer as [|c1 [|c2 [|c3 rest]]];
      try (eexists; cbn; rewrite with_codewords_nil; reflexivity).
    cbn [C40Encoder.write_triplets].
    replace (len (c1 :: c2 :: c3 :: rest) >=? 3) with true
      by (symmetry; rewrite !len_cons; pose proof (len_nonneg rest);
          apply Z.geb_le; lia).
    destruct (IH rest (with_codewords
                         [(1600 * c1 + 40 * c2 + c3 + 1) / 256;
                          (1600 * c1 + 40 * c2 + c3 + 1) mod 256] ctx))
      as [r Hr]; [cbn in Hfuel; lia|].
    exists r. unfold bind, C40Encoder.WriteNextTriplet, bind,
      C40Encoder.EncodeToCodewords, bind, addCodeword, modify, ret.
    cbn [skipn]. rewrite !with_codeword_eq, with_codewords_app.
    cbn [app]. rewrite Hr, with_codewords_app. reflexivity.
Qed.

Lemma WriteTriplets_spec (buffer : list Z) (ctx : EncoderContext) :
  exists rest,
    C40Encoder.WriteTriplets buffer ctx
    = Ok rest (with_codewords (triplet_codewords buffer) ctx).
Proof. apply write_triplets_spec. lia. Qed.

(** Two codewords for each full triplet. *)
Lemma triplet_codewords_len (buffer : list Z) :
  len (triplet_codewords buffer) = (len buffer / 3) * 2.
Proof.
  assert (forall n (b : list Z), (List.length b <= n)%nat ->
            len (triplet_codewords b) = (len b / 3) * 2) as H.
  { induction n as [|n IH]; intros b Hb.
    - destruct b; [reflexivity|cbn in Hb; lia].
    - destruct b as [|c1 [|c2 [|c3 rest]]]; try reflexivity.
      cbn [triplet_codewords]. rewrite !len_cons, IH by (cbn in Hb; lia).
      pose proof (len_nonneg rest).
      replace (1 + (1 + (1 + len rest))) with (1 * 3 + len rest) by lia.
      rewrite Z.div_add_l by lia. lia. }
  apply (H (List.length buffer)). lia.
Qed.

(** The cases of [C40Encoder::HandleEOD]. *)
Lemma C40_HandleEOD_cases (buffer : list Z) (ctx ctx1 : EncoderContext)
    (symbolInfo : SymbolInfo) :
  let rest := len buffer mod 3 in
  let curCodewordCount := codewordCount ctx + (len buffer / 3) * 2 in
  let available := dataCapacity symbolInfo - curCodewordCount in
  let more := hasMoreCharacters ctx in
  updateSymbolInfo curCodewordCount ctx = Ok symbolInfo ctx1 ->
  (rest = 2 ->
   C40Encoder.HandleEOD buffer ctx
   = Ok tt (with_newEncoding (Some ASCII_ENCODATION)
              (with_codewords
                 (triplet_codewords (buffer ++ [0]) ++ unlatch_if more) ctx1)))
  /\ (rest = 1 -> available = 1 ->
      C40Encoder.HandleEOD buffer ctx
      = Ok tt (with_newEncoding (Some ASCII_ENCODATION)
                 (with_pos (ctx_pos ctx - 1)
                    (with_codewords
                       (triplet_codewords buffer ++ unlatch_if more) ctx1))))
  /\ (rest = 0 ->
      C40Encoder.HandleEOD buffer ctx
      = Ok tt (with_newEncoding (Some ASCII_ENCODATION)
                 (with_codewords
                    (triplet_codewords buffer
                     ++ unlatch_if ((available >? 0) || more)) ctx1)))
  /\ (rest = 1 -> available <> 1 ->
      C40Encoder.HandleEOD buffer ctx = Throw InternalInvariant ctx1)
  /\ (rest = 0 \/ rest = 1 \/ rest = 2).
Proof.
  intros rest cur available more Hupd.
  pose proof (updateSymbolInfo_Ok _ _ _ _ Hupd) as Hctx1.
  assert (hasMoreCharacters ctx1 = more) as Hmore by (subst ctx1; reflexivity).
  assert (ctx_pos ctx1 = ctx_pos ctx) as Hpos by (subst ctx1; reflexivity).
  assert (C40Encoder.HandleEOD buffer ctx =
          bind (if rest =? 2 then
                     bind (C40Encoder.WriteTriplets (buffer ++ [0]))
                       (fun _ : list Z => bind (gets hasMoreCharacters)
                          (fun m => if m then addCodeword C40_UNLATCH else ret tt))
                   else if (available =? 1) && (rest =? 1) then
                     bind (C40Encoder.WriteTriplets buffer)
                       (fun _ : list Z => bind (gets hasMoreCharacters)
                          (fun m => bind (if m then addCodeword C40_UNLATCH else ret tt)
                             (fun _ : unit => bind (gets ctx_pos)
                                (fun pos => setCurrentPos (pos - 1)))))
                   else if rest =? 0 then
                     bind (C40Encoder.WriteTriplets buffer)
                       (fun _ : list Z => bind (gets hasMoreCharacters)
                          (fun m => if (available >? 0) || m
                                    then addCodeword C40_UNLATCH else ret tt))
                   else throw InternalInvariant : M unit)
                  (fun _ : unit => setNewEncoding ASCII_ENCODATION) ctx1) as Heq.
  { unfold C40Encoder.HandleEOD.
    unfold bind at 1. unfold gets at 1. unfold bind at 1.
    fold cur. rewrite Hupd. reflexivity. }
  assert (forall (b : bool) (l : list Z) (c : EncoderContext),
             (if b then addCodeword C40_UNLATCH else ret tt) (with_codewords l c)
             = Ok tt (with_codewords (l ++ unlatch_if b) c)) as Hun.
  { intros [|] l c; unfold addCodeword, modify, ret, unlatch_if, C40_UNLATCH.
    - now rewrite with_codeword_eq, with_codewords_app.
    - now rewrite app_nil_r. }
  repeat split.
  - intros Hrest. rewrite Heq, Hrest. cbn [Z.eqb Pos.eqb].
    destruct (WriteTriplets_spec (buffer ++ [0]) ctx1) as [r Hr].
    unfold bind at 1. unfold bind at 1. rewrite Hr.
    unfold bind at 1. unfold gets at 1.
    change (hasMoreCharacters (with_codewords ?l ctx1)) with (hasMoreCharacters ctx1).
    rewrite Hmore, Hun. reflexivity.
  - intros Hrest Hav. rewrite Heq, Hrest, Hav. cbn [Z.eqb Pos.eqb andb].
    destruct (WriteTriplets_spec buffer ctx1) as [r Hr].
    unfold bind at 1. unfold bind at 1. rewrite Hr.
    unfold bind at 1. unfold gets at 1.
    change (hasMoreCharacters (with_codewords ?l ctx1)) with (hasMoreCharacters ctx1).
    rewrite Hmore. unfold bind at 1. rewrite Hun.
    unfold bind, gets, setCurrentPos, setNewEncoding, modify.
    change (ctx_pos (with_codewords ?l ctx1)) with (ctx_pos ctx1).
    rewrite Hpos. reflexivity.
  - intros Hrest. rewrite Heq, Hrest. cbn [Z.eqb].
    rewrite andb_false_r.
    destruct (WriteTriplets_spec buffer ctx1) as [r Hr].
    unfold bind at 1. unfold bind at 1. rewrite Hr.
    unfold bind at 1. unfold gets at 1.
    change (hasMoreCharacters (with_codewords ?l ctx1)) with (hasMoreCharacters ctx1).
    rewrite Hmore, Hun. reflexivity.
  - intros Hrest Hav. rewrite Heq, Hrest. cbn [Z.eqb Pos.eqb andb].
    destruct (Z.eqb_spec available 1) as [Hone|_]; [contradiction|].
    reflexivity.
  - subst rest. pose proof (Z.mod_pos_bound (len buffer) 3). lia.
Qed.

(** C5: the end of data of the C40 and Text encoders, once the symbol for
    the codewords written and still to write is found. With
    [rest = buffer.len % 3] and
    [available = capacity - (codewordCount + (buffer.len / 3) * 2)]:
    for [rest = 2] the Shift-1 value 0 is appended, all triplets are
    written and 254 follows exactly when source characters remain; for
    [rest = 1] and [available = 1] the full triplets are written, 254
    follows exactly when source characters remain and the cursor steps
    back by one; for [rest = 0] the full triplets are written and 254
    follows exactly when [available > 0] or characters remain; in these
    cases the pending mode becomes ASCII. The one other case, [rest = 1]
    with [available <> 1], throws the error of the internal invariant. *)
Theorem C5_C40_HandleEOD (buffer : list Z) (ctx ctx1 : EncoderContext)
    (symbolInfo : SymbolInfo) :
  let rest := len buffer mod 3 in
  let curCodewordCount := codewordCount ctx + (len buffer / 3) * 2 in
  let available := dataCapacity symbolInfo - curCodewordCount in
  let more := hasMoreCharacters ctx in
  updateSymbolInfo curCodewordCount ctx = Ok symbolInfo ctx1 ->
  (rest = 2 ->
   C40Encoder.HandleEOD buffer ctx
   = Ok tt (with_newEncoding (Some ASCII_ENCODATION)
              (with_codewords
                 (triplet_codewords (buffer ++ [0]) ++ unlatch_if more) ctx1)))
  /\ (rest = 1 -> available = 1 ->
      C40Encoder.HandleEOD buffer ctx
      = Ok tt (with_newEncoding (Some ASCII_ENCODATION)
                 (with_pos (ctx_pos ctx - 1)
                    (with_codewords
                       (triplet_codewords buffer ++ unlatch_if more) ctx1))))
  /\ (rest = 0 ->
      C40Encoder.HandleEOD buffer ctx
      = Ok tt (with_newEncoding (Some ASCII_ENCODATION)
                 (with_codewords
                    (triplet_codewords buffer
                     ++ unlatch_if ((available >? 0) || more)) ctx1)))
  /\ (rest = 1 -> available <> 1 ->
      C40Encoder.HandleEOD buffer ctx = Throw InternalInvariant ctx1)
  /\ (rest = 0 \/ rest = 1 \/ rest = 2).
Proof. exact (C40_HandleEOD_cases buffer ctx ctx1 symbolInfo). Qed.

Lemma C5_C40_HandleEOD_witness :
  C40Encoder.HandleEOD [14; 15; 16; 17; 18; 19]
    (mkContext (msg_of "ABCDEF") ecc200 6 [230] None None 0)
  = Ok tt (mkContext (msg_of "ABCDEF") ecc200 6 [230; 89; 233; 109; 36]
             (Some ASCII_ENCODATION) (Some (Build_SymbolInfo 5)) 0).
Proof.
  refine (proj1 (proj2 (proj2
    (C5_C40_HandleEOD [14; 15; 16; 17; 18; 19]
       (mkContext (msg_of "ABCDEF") ecc200 6 [230] None None 0)
       (mkContext (msg_of "ABCDEF") ecc200 6 [230] None
          (Some (Build_SymbolInfo 5)) 0)
       (Build_SymbolInfo 5) _))) _); reflexivity.
Defined.

(** ** The length field of the Base 256 encoder *)

Lemma codewordCount_with_codewords (l : list Z) (ctx : EncoderContext) :
  codewordCount (with_codewords l ctx) = codewordCount ctx + len l.
Proof. unfold codewordCount, with_codewords. cbn. apply len_app. Qed.

Lemma emit_spec (buffer : list Z) (ctx : EncoderContext) :
  Base256Encoder.emit buffer ctx
  = Ok tt (with_codewords (randomized255 (codewordCount ctx) buffer) ctx).
Proof.
  revert ctx. induction buffer as [|c tail IH]; intros ctx.
  - cbn. now rewrite with_codewords_nil.
  - cbn [Base256Encoder.emit randomized255].
    unfold bind, gets, addCodeword, modify.
    rewrite with_codeword_eq, IH, with_codewords_app, codewordCount_with_codewords.
    change (len [Base256Encoder.Randomize255State (char_to_int c)
                   (codewordCount ctx + 1)]) with 1.
    unfold Base256Encoder.Randomize255State, pseudo_random. reflexivity.
Qed.

Lemma Base256_loop_buffer (fuel : nat) (buffer buffer' : list Z)
    (ctx ctx' : EncoderContext) :
  Base256Encoder.encode_loop fuel buffer ctx = Ok buffer' ctx' ->
  exists data, buffer' = buffer ++ data.
Proof.
  revert buffer ctx. induction fuel as [|fuel IH]; intros buffer ctx.
  - cbn. unfold bind, gets, ret. destruct (hasMoreCharacters ctx);
      intros H; inversion H; exists []; now rewrite app_nil_r.
  - cbn [Base256Encoder.encode_loop]. unfold bind at 1. unfold gets at 1.
    destruct (hasMoreCharacters ctx).
    + unfold bind at 1. unfold currentChar.
      destruct (msg_at (ctx_msg ctx) (ctx_pos ctx)) as [c|]; cbn [lift];
        [|intros H; inversion H].
      unfold ret at 1. unfold bind, gets, setCurrentPos, modify.
      match goal with |- context [if ?b then _ else _] => destruct b end.
      * unfold setNewEncoding, modify, ret. intros H; inversion H.
        exists [c]. reflexivity.
      * intros H. apply IH in H. destruct H as [data ->].
        exists (c :: data). now rewrite <- app_assoc.
    + unfold ret. intros H; inversion H. exists []. now rewrite app_nil_r.
Qed.

(** C7: the length field of the Base 256 encoder, once the loop has
    filled the buffer and the symbol for the codewords written and still
    to write is found. The buffer is the length byte 0 and the data; with
    [dataCount = buffer.len - 1] and
    [mustPad = capacity - (codewordCount + dataCount + 1) > 0], the length
    is written only when source characters remain or [mustPad] holds;
    then one byte [dataCount] for [dataCount <= 249], the two bytes
    [dataCount / 250 + 249] and [dataCount % 250] for
    [249 < dataCount <= 1555], and the error of the message length beyond
    that. The codewords that the encoder then adds are the bytes of the
    buffer as its last loop randomizes them, each byte read as a [char]
    ([randomized255]). *)
Theorem C7_Base256_length_field (ctx ctx1 ctx2 : EncoderContext)
    (buffer : list Z) (symbolInfo : SymbolInfo) :
  let dataCount := len buffer - 1 in
  let currentSize := codewordCount ctx1 + dataCount + 1 in
  let mustPad := dataCapacity symbolInfo - currentSize >? 0 in
  let written := hasMoreCharacters ctx1 || mustPad in
  let emitted (bytes : list Z) :=
    Ok tt (with_codewords (randomized255 (codewordCount ctx1) bytes) ctx2) in
  Base256Encoder.encode_loop (Z.to_nat (remainingCharacters ctx)) [0] ctx
  = Ok buffer ctx1 ->
  updateSymbolInfo currentSize ctx1 = Ok symbolInfo ctx2 ->
  exists data,
    buffer = 0 :: data
    /\ (written = false ->
        Base256Encoder.EncodeBase256 ctx = emitted (0 :: data))
    /\ (written = true -> dataCount <= 249 ->
        Base256Encoder.EncodeBase256 ctx = emitted (dataCount :: data))
    /\ (written = true -> 249 < dataCount <= 1555 ->
        Base256Encoder.EncodeBase256 ctx
        = emitted (dataCount / 250 + 249 :: dataCount mod 250 :: data))
    /\ (written = true -> 1555 < dataCount ->
        Base256Encoder.EncodeBase256 ctx = Throw MessageTooLong ctx2).
Proof.
  intros dataCount currentSize mustPad written emitted Hloop Hupd.
  destruct (Base256_loop_buffer _ _ _ _ _ Hloop) as [data Hdata].
  cbn [app] in Hdata. exists data. split; [exact Hdata|].
  pose proof (updateSymbolInfo_Ok _ _ _ _ Hupd) as Hctx2.
  assert (hasMoreCharacters ctx2 = hasMoreCharacters ctx1) as Hmore
    by (subst ctx2; reflexivity).
  assert (codewordCount ctx2 = codewordCount ctx1) as Hcount
    by (subst ctx2; reflexivity).
  assert (Base256Encoder.EncodeBase256 ctx =
          bind (if written then
                  if dataCount <=? 249 then
                    lift OutOfRange (Base256Encoder.set_first buffer dataCount)
                  else if (dataCount >? 249) && (dataCount <=? 1555) then
                    bind (lift OutOfRange
                            (Base256Encoder.set_first buffer (dataCount / 250 + 249)))
                      (fun b => lift OutOfRange
                                  (Base256Encoder.insert_second b (dataCount mod 250)))
                  else throw MessageTooLong
                else ret buffer)
            Base256Encoder.emit ctx2) as Heq.
  { unfold Base256Encoder.EncodeBase256.
    unfold bind at 1. unfold gets at 1. unfold bind at 1. rewrite Hloop.
    unfold bind at 1. unfold gets at 1. unfold bind at 1.
    fold dataCount. fold currentSize. rewrite Hupd.
    unfold bind at 1. unfold gets at 1. rewrite Hmore. reflexivity. }
  rewrite Heq. unfold emitted. rewrite <- Hcount. subst buffer.
  repeat split.
  - intros ->. unfold bind, ret. apply emit_spec.
  - intros -> Hle. replace (dataCount <=? 249) with true by (symmetry; apply Z.leb_le; lia).
    unfold bind. cbn [Base256Encoder.set_first lift]. unfold ret. apply emit_spec.
  - intros -> [Hlo Hhi].
    replace (dataCount <=? 249) with false by (symmetry; apply Z.leb_gt; lia).
    replace (dataCount >? 249) with true by (symmetry; apply Z.gtb_lt; lia).
    replace (dataCount <=? 1555) with true by (symmetry; apply Z.leb_le; lia).
    unfold bind. cbn [Base256Encoder.set_first Base256Encoder.insert_second lift andb].
    unfold ret. apply emit_spec.
  - intros -> Hhi.
    replace (dataCount <=? 249) with false by (symmetry; apply Z.leb_gt; lia).
    replace (dataCount <=? 1555) with false by (symmetry; apply Z.leb_gt; lia).
    rewrite andb_false_r. reflexivity.
Qed.

Lemma C7_Base256_length_field_witness :
  Base256Encoder.EncodeBase256
    (mkContext ["171"; "228"; "246"; "252"; "233"; "224"; "187"]%char ecc200 0
       [231] None None 0)
  = Ok tt (mkContext ["171"; "228"; "246"; "252"; "233"; "224"; "187"]%char
             ecc200 7 [231; 51; 108; 59; 226; 126; 1; 141; -2] None
             (Some (Build_SymbolInfo 10)) 0).
Proof.
  destruct (C7_Base256_length_field
              (mkContext ["171"; "228"; "246"; "252"; "233"; "224"; "187"]%char
                 ecc200 0 [231] None None 0)
              (mkContext ["171"; "228"; "246"; "252"; "233"; "224"; "187"]%char
                 ecc200 7 [231] None None 0)
              (mkContext ["171"; "228"; "246"; "252"; "233"; "224"; "187"]%char
                 ecc200 7 [231] None (Some (Build_SymbolInfo 10)) 0)
              [0; 171; 228; 246; 252; 233; 224; 187] (Build_SymbolInfo 10))
    as [data [Hdata [_ [Hone _]]]].
  - vm_compute. reflexivity.
  - vm_compute. reflexivity.
  - injection Hdata as <-. rewrite Hone.
    + vm_compute. reflexivity.
    + vm_compute. reflexivity.
    + vm_compute. discriminate.
Defined.

(** ** Where the code departs from its specification *)

(** The context of the caller is the same after [X12Encoder::HandleEOD]
    as before, whatever the handler did to its copy. *)
Lemma X12_HandleEOD_leaves_context (buffer : list Z) (ctx : EncoderContext) :
  (exists e, X12Encoder.HandleEOD buffer ctx = Throw e ctx)
  \/ X12Encoder.HandleEOD buffer ctx = Ok tt ctx.
Proof.
  unfold X12Encoder.HandleEOD, by_value.
  destruct (X12Encoder.HandleEOD_body buffer ctx) as [[] ctx'|e ctx'].
  - right. reflexivity.
  - left. exists e. reflexivity.
Qed.

(** C1 fails on the code: the X12 end-of-data handler takes the context by
    value. For the message "*>*>*>*>", after the latch 238, the X12
    encoder reaches the end of data with two buffered values; the
    handler, run on the state the loop has left, rewinds the cursor to 6,
    appends 254 and requests ASCII, but on its copy: the encoder returns
    with the cursor at 8, no 254 and no pending mode, and the driver ends
    with the last two characters never encoded. *)
Theorem C1_X12_HandleEOD_effects_lost :
  X12Encoder.encode_loop 8 []
    (mkContext (msg_of "*>*>*>*>") ecc200 0 [238] None None 0)
  = Ok [1; 2]
      (mkContext (msg_of "*>*>*>*>") ecc200 8 [238; 6; 146; 12; 171] None None 0)
  /\ X12Encoder.HandleEOD_body [1; 2]
       (mkContext (msg_of "*>*>*>*>") ecc200 8 [238; 6; 146; 12; 171] None None 0)
     = Ok tt
         (mkContext (msg_of "*>*>*>*>") ecc200 6 [238; 6; 146; 12; 171; 254]
            (Some ASCII_ENCODATION) (Some (Build_SymbolInfo 5)) 0)
  /\ X12Encoder.EncodeX12
       (mkContext (msg_of "*>*>*>*>") ecc200 0 [238] None None 0)
     = Ok tt
         (mkContext (msg_of "*>*>*>*>") ecc200 8 [238; 6; 146; 12; 171] None None 0)
  /\ output (Encode 3 ecc200 (msg_of "*>*>*>*>")) = Some [238; 6; 146; 12; 171].
Proof. repeat split; vm_compute; reflexivity. Qed.

(** C2 fails on the code: the Text encoder passes the mode C40 to the
    look-ahead test and compares its answer with C40. For the message
    "abcdefghi", after the latch 239 and the first three characters, the
    test asked with the mode Text answers Text, so that the encoder
    should go on; asked with the mode C40, as the code asks, it answers
    Text as well, which is not C40: the encoder stops at the cursor 3 and
    unlatches. With the mode Text passed, the same loop consumes the nine
    characters. *)
Theorem C2_Text_look_ahead_mode :
  LookAheadTest (msg_of "abcdefghi") 3 TEXT_ENCODATION = TEXT_ENCODATION
  /\ LookAheadTest (msg_of "abcdefghi") 3 C40_ENCODATION = TEXT_ENCODATION
  /\ DMTextEncoder.EncodeText
       (mkContext (msg_of "abcdefghi") ecc200 0 [239] None None 0)
     = Ok tt
         (mkContext (msg_of "abcdefghi") ecc200 3 [239; 89; 233; 254]
            (Some ASCII_ENCODATION) (Some (Build_SymbolInfo 3)) 0)
  /\ C40Encoder.EncodeC40_with DMTextEncoder.EncodeChar TEXT_ENCODATION
       (mkContext (msg_of "abcdefghi") ecc200 0 [239] None None 0)
     = Ok tt
         (mkContext (msg_of "abcdefghi") ecc200 9
            [239; 89; 233; 109; 36; 128; 95; 254]
            (Some ASCII_ENCODATION) (Some (Build_SymbolInfo 8)) 0)
  /\ output (Encode 30 ecc200 (msg_of "abcdefghi"))
     = Some [239; 89; 233; 254; 239; 109; 36; 254; 104; 105; 106; 129].
Proof. repeat split; vm_compute; reflexivity. Qed.

(** In the error case the EDIFACT handler does request ASCII before the
    exception goes on. *)
Lemma Edifact_HandleEOD_throw (buffer : list Z) (ctx ctx' : EncoderContext)
    (e : Exception) :
  EdifactEncoder.HandleEOD buffer ctx = Throw e ctx' ->
  ctx_newEncoding ctx' = Some ASCII_ENCODATION.
Proof.
  unfold EdifactEncoder.HandleEOD.
  destruct (EdifactEncoder.HandleEOD_try buffer ctx) as [[|] c|e0 c].
  - intros H; inversion H.
  - unfold setNewEncoding, modify. intros H; inversion H.
  - intros H; inversion H. reflexivity.
Qed.

(** C8 fails on the code in a case without error: the two [return]
    statements of the [try] block leave the handler before the last
    statement, which requests ASCII. For the message ".A.C1.3.", after the
    latch 240, the two quadruplets fill seven of the eight codewords of
    the symbol; the handler, called with the unlatch value alone in the
    buffer, returns by "No unlatch" with no pending mode. The driver so
    ends in the mode EDIFACT and fills the last codeword with its unlatch,
    the value -2 of the literal ['\xfe'], where the pad 129 of the mode
    ASCII is due. *)
Theorem C8_Edifact_HandleEOD_early_return :
  EdifactEncoder.HandleEOD [31]
    (mkContext (msg_of ".A.C1.3.") ecc200 8 [240; 184; 27; 131; 198; 236; 238]
       None (Some (Build_SymbolInfo 8)) 0)
  = Ok tt
      (mkContext (msg_of ".A.C1.3.") ecc200 8 [240; 184; 27; 131; 198; 236; 238]
         None (Some (Build_SymbolInfo 8)) 0)
  /\ EdifactEncoder.EncodeEdifact
       (mkContext (msg_of ".A.C1.3.") ecc200 0 [240] None None 0)
     = Ok tt
         (mkContext (msg_of ".A.C1.3.") ecc200 8 [240; 184; 27; 131; 198; 236; 238]
            None (Some (Build_SymbolInfo 8)) 0)
  /\ output (Encode 3 ecc200 (msg_of ".A.C1.3."))
     = Some [240; 184; 27; 131; 198; 236; 238; -2].
Proof. repeat split; vm_compute; reflexivity. Qed.

(** ** The range of the codewords *)

Section Invariant.

Variable lookup : Z -> option SymbolInfo.

Lemma preserves_ret {A} (a : A) (Q : A -> Prop) :
  Q a -> preserves lookup (ret a) Q.
Proof. intros Ha ctx Hctx. cbn. split; assumption. Qed.

Lemma preserves_bind {A B} (c : M A) (k : A -> M B) (Q1 : A -> Prop)
    (Q2 : B -> Prop) :
  preserves lookup c Q1 ->
  (forall a, Q1 a -> preserves lookup (k a) Q2) ->
  preserves lookup (bind c k) Q2.
Proof.
  intros Hc Hk ctx Hctx. unfold bind. specialize (Hc ctx Hctx).
  destruct (c ctx) as [a ctx'|e ctx']; [|exact I].
  destruct Hc as [Hctx' Ha]. exact (Hk a Ha ctx' Hctx').
Qed.

Lemma preserves_weaken {A} (c : M A) (Q1 Q2 : A -> Prop) :
  preserves lookup c Q1 -> (forall a, Q1 a -> Q2 a) -> preserves lookup c Q2.
Proof.
  intros Hc Hq ctx Hctx. specialize (Hc ctx Hctx).
  destruct (c ctx); [|exact I]. destruct Hc. split; auto.
Qed.

Lemma preserves_gets {A} (f : EncoderContext -> A) :
  preserves lookup (gets f) any.
Proof. intros ctx Hctx. cbn. split; [assumption|exact I]. Qed.

Lemma preserves_throw {A} (e : Exception) (Q : A -> Prop) :
  preserves lookup (throw e) Q.
Proof. intros ctx Hctx. exact I. Qed.

Lemma preserves_lift {A} (e : Exception) (o : option A) (Q : A -> Prop) :
  (forall a, o = Some a -> Q a) -> preserves lookup (lift e o) Q.
Proof.
  intros Ho. destruct o as [a|]; cbn.
  - apply preserves_ret. apply Ho. reflexivity.
  - apply preserves_throw.
Qed.

Lemma preserves_by_value {A} (c : M A) : preserves lookup (by_value c) any.
Proof.
  intros ctx Hctx. unfold by_value. destruct (c ctx); [|exact I].
  split; [assumption|exact I].
Qed.

Lemma preserves_setCurrentPos (p : Z) : preserves lookup (setCurrentPos p) any.
Proof. intros ctx Hctx. cbn. split; [exact Hctx|exact I]. Qed.

Lemma preserves_setNewEncoding (e : Encodation) :
  preserves lookup (setNewEncoding e) any.
Proof. intros ctx Hctx. cbn. split; [exact Hctx|exact I]. Qed.

Lemma preserves_resetSymbolInfo : preserves lookup resetSymbolInfo any.
Proof. intros ctx Hctx. cbn. split; [exact Hctx|exact I]. Qed.

Lemma preserves_setSkipAtEnd (n : Z) : preserves lookup (setSkipAtEnd n) any.
Proof. intros ctx Hctx. cbn. split; [exact Hctx|exact I]. Qed.

Lemma preserves_addCodeword (cw : Z) :
  byte_range cw -> preserves lookup (addCodeword cw) any.
Proof.
  intros Hcw ctx [Hrange Hlookup]. cbn. repeat split; [|assumption].
  apply Forall_app. split; [assumption|]. constructor; [assumption|constructor].
Qed.

Lemma preserves_updateSymbolInfo (n : Z) :
  preserves lookup (updateSymbolInfo n) any.
Proof.
  intros ctx Hctx. destruct (updateSymbolInfo n ctx) as [s ctx'|e ctx'] eqn:E;
    [|exact I].
  apply updateSymbolInfo_Ok in E. subst ctx'. split; [exact Hctx|exact I].
Qed.

Lemma code_range (a : ascii) : byte_range (code a).
Proof.
  unfold byte_range, code. pose proof (N_ascii_bounded a) as H.
  split; [apply N2Z.is_nonneg|]. apply N2Z.inj_lt in H. cbn in H. lia.
Qed.

Lemma msg_at_range (msg : message) (i c : Z) :
  msg_at msg i = Some c -> byte_range c.
Proof.
  unfold msg_at. destruct (i <? 0); [discriminate|].
  destruct (nth_error msg (Z.to_nat i)) as [a|]; [|discriminate].
  cbn. intros H. inversion H. apply code_range.
Qed.

Lemma preserves_currentChar : preserves lookup currentChar byte_range.
Proof.
  intros ctx Hctx. unfold currentChar.
  destruct (msg_at (ctx_msg ctx) (ctx_pos ctx)) as [c|] eqn:E; cbn; [|exact I].
  split; [assumption|]. exact (msg_at_range _ _ _ E).
Qed.

Lemma preserves_nextChar : preserves lookup nextChar byte_range.
Proof.
  intros ctx Hctx. unfold nextChar.
  destruct (msg_at (ctx_msg ctx) (ctx_pos ctx + 1)) as [c|] eqn:E; cbn; [|exact I].
  split; [assumption|]. exact (msg_at_range _ _ _ E).
Qed.

End Invariant.

Create HintDb preserves.

#[local] Hint Resolve preserves_gets preserves_throw preserves_setCurrentPos
  preserves_setNewEncoding preserves_resetSymbolInfo preserves_setSkipAtEnd
  preserves_updateSymbolInfo preserves_currentChar preserves_nextChar
  preserves_by_value : preserves.

(** One step through a computation, by its head. *)
Ltac pstep :=
  lazymatch goal with
  | |- preserves _ (bind _ _) _ => eapply preserves_bind; [|intros ? ?]
  | |- preserves _ (ret _) _ => apply preserves_ret; try exact I
  | |- preserves _ (if ?b then _ else _) _ => destruct b eqn:?
  | |- preserves _ (match ?x with _ => _ end) _ => destruct x eqn:?
  | |- preserves _ (addCodeword _) _ => apply preserves_addCodeword
  | |- preserves _ (lift _ _) _ => apply preserves_lift; intros ? ?; try exact I
  | |- preserves _ _ _ => solve [eauto with preserves]
  end.

Ltac psteps := repeat pstep.

(** Turns the tests among the hypotheses into inequalities. *)
Ltac tests_to_props :=
  unfold byte_range, c40_value, IsDigit, IsExtendedASCII in *;
  repeat match goal with
         | H : (_ && _)%bool = true |- _ => apply andb_prop in H; destruct H
         | H : (_ || _)%bool = false |- _ => apply orb_false_elim in H; destruct H
         | H : (_ <=? _) = true |- _ => apply Z.leb_le in H
         | H : (_ <=? _) = false |- _ => apply Z.leb_gt in H
         | H : (_ <? _) = true |- _ => apply Z.ltb_lt in H
         | H : (_ <? _) = false |- _ => apply Z.ltb_ge in H
         | H : (_ >=? _) = true |- _ => apply Z.geb_le in H
         | H : (_ >? _) = true |- _ => apply Z.gtb_lt in H
         | H : (_ =? _) = true |- _ => apply Z.eqb_eq in H
         | H : (_ =? _) = false |- _ => apply Z.eqb_neq in H
         | H : (_ && _)%bool = false |- _ => apply andb_false_iff in H; destruct H
         end.

Lemma LATCHES_range (m : Encodation) : byte_range (LATCHES m).
Proof. destruct m; unfold byte_range; cbn; lia. Qed.

Lemma EncodeASCIIDigits_range (d1 d2 : Z) :
  byte_range (ASCIIEncoder.EncodeASCIIDigits d1 d2).
Proof.
  unfold ASCIIEncoder.EncodeASCIIDigits.
  destruct (IsDigit d1 && IsDigit d2) eqn:E; tests_to_props; lia.
Qed.

Lemma preserves_EncodeASCII (lookup : Z -> option SymbolInfo) :
  preserves lookup ASCIIEncoder.EncodeASCII any.
Proof.
  unfold ASCIIEncoder.EncodeASCII. psteps.
  - apply EncodeASCIIDigits_range.
  - apply LATCHES_range.
  - unfold UPPER_SHIFT, byte_range. lia.
  - tests_to_props. lia.
  - tests_to_props; lia.
Qed.

Ltac split_if_hyp :=
  repeat match goal with
         | H : (if ?b then _ else _) = Some _ |- _ => destruct b eqn:?
         | H : None = Some _ |- _ => discriminate H
         end.

Lemma Forall_c40_app (sb l : list Z) :
  Forall c40_value sb -> Forall c40_value l -> Forall c40_value (sb ++ l).
Proof. intros H1 H2. apply Forall_app. split; assumption. Qed.

Ltac c40_values :=
  match goal with
  | H : Some _ = Some _ |- _ => inversion H; subst; clear H
  end;
  apply Forall_c40_app; [assumption|];
  repeat constructor; tests_to_props; lia.

Lemma C40_EncodeChar_ok : encoder_ok C40Encoder.EncodeChar.
Proof.
  unfold encoder_ok, C40Encoder.EncodeChar. generalize 2%nat as depth.
  induction depth as [|depth IH]; intros c sb n sb' Hc Hsb;
    cbn [C40Encoder.EncodeChar_depth]; intros H; split_if_hyp;
      try solve [c40_values].
  destruct (C40Encoder.EncodeChar_depth depth ((c - 128) mod 256) (sb ++ [1; 30]))
    as [[m sb'']|] eqn:E; [|discriminate H].
  inversion H; subst. eapply IH; [| |exact E].
  - pose proof (Z.mod_pos_bound (c - 128) 256). unfold byte_range. lia.
  - apply Forall_c40_app; [assumption|]. repeat constructor; lia.
Qed.

Lemma Text_EncodeChar_ok : encoder_ok DMTextEncoder.EncodeChar.
Proof.
  unfold encoder_ok, DMTextEncoder.EncodeChar. generalize 2%nat as depth.
  induction depth as [|depth IH]; intros c sb n sb' Hc Hsb;
    cbn [DMTextEncoder.EncodeChar_depth]; intros H; split_if_hyp;
      try solve [c40_values].
  destruct (DMTextEncoder.EncodeChar_depth depth ((c - 128) mod 256) (sb ++ [1; 30]))
    as [[m sb'']|] eqn:E; [|discriminate H].
  inversion H; subst. eapply IH; [| |exact E].
  - pose proof (Z.mod_pos_bound (c - 128) 256). unfold byte_range. lia.
  - apply Forall_c40_app; [assumption|]. repeat constructor; lia.
Qed.

Lemma X12_EncodeChar_ok : encoder_ok X12Encoder.EncodeChar.
Proof.
  unfold encoder_ok, X12Encoder.EncodeChar. intros c sb n sb' Hc Hsb H.
  split_if_hyp; c40_values.
Qed.

Lemma triplet_range (c1 c2 c3 : Z) :
  c40_value c1 -> c40_value c2 -> c40_value c3 ->
  byte_range ((1600 * c1 + 40 * c2 + c3 + 1) / 256)
  /\ byte_range ((1600 * c1 + 40 * c2 + c3 + 1) mod 256).
Proof.
  unfold c40_value, byte_range. intros H1 H2 H3.
  pose proof (Z.mod_pos_bound (1600 * c1 + 40 * c2 + c3 + 1) 256).
  assert (0 <= (1600 * c1 + 40 * c2 + c3 + 1) / 256 < 251).
  { split; [apply Z.div_pos; lia|apply Z.div_lt_upper_bound; lia]. }
  lia.
Qed.

Section InvariantC40.

Variable lookup : Z -> option SymbolInfo.

Lemma skipn_c40 (n : nat) (buffer : list Z) :
  Forall c40_value buffer -> Forall c40_value (skipn n buffer).
Proof.
  intros Hb. apply Forall_forall. intros x Hx.
  rewrite Forall_forall in Hb. apply Hb.
  rewrite <- (firstn_skipn n buffer). apply in_or_app. right. exact Hx.
Qed.

Lemma preserves_WriteNextTriplet (buffer : list Z) :
  Forall c40_value buffer ->
  preserves lookup (C40Encoder.WriteNextTriplet buffer) (Forall c40_value).
Proof.
  intros Hb. unfold C40Encoder.WriteNextTriplet. pstep.
  - unfold C40Encoder.EncodeToCodewords.
    destruct buffer as [|c1 [|c2 [|c3 rest]]]; try apply preserves_throw.
    apply Forall_cons_iff in Hb. destruct Hb as [Hc1 Hb].
    apply Forall_cons_iff in Hb. destruct Hb as [Hc2 Hb].
    apply Forall_cons_iff in Hb. destruct Hb as [Hc3 Hb].
    psteps; apply (triplet_range c1 c2 c3); assumption.
  - pstep. apply skipn_c40. assumption.
Qed.

Lemma preserves_write_triplets (fuel : nat) (buffer : list Z) :
  Forall c40_value buffer ->
  preserves lookup (C40Encoder.write_triplets fuel buffer) any.
Proof.
  revert buffer. induction fuel as [|fuel IH]; intros buffer Hb;
    cbn [C40Encoder.write_triplets].
  - destruct (_ >=? 3); apply preserves_ret; exact I.
  - destruct (_ >=? 3); [|apply preserves_ret; exact I].
    eapply preserves_bind; [apply preserves_WriteNextTriplet; assumption|].
    intros rest Hrest. apply IH. assumption.
Qed.

Lemma preserves_C40_HandleEOD (buffer : list Z) :
  Forall c40_value buffer ->
  preserves lookup (C40Encoder.HandleEOD buffer) any.
Proof.
  intros Hb. unfold C40Encoder.HandleEOD, C40Encoder.WriteTriplets.
  pstep; [pstep|]. pstep; [pstep|]. pstep; [|pstep].
  repeat match goal with
         | |- preserves _ (if ?b then _ else _) _ => destruct b eqn:?
         end.
  - pstep; [apply preserves_write_triplets|].
    + apply Forall_c40_app; [assumption|]. repeat constructor; lia.
    + psteps. unfold C40_UNLATCH, byte_range. lia.
  - pstep; [apply preserves_write_triplets; assumption|].
    psteps. unfold C40_UNLATCH, byte_range. lia.
  - pstep; [apply preserves_write_triplets; assumption|].
    psteps. unfold C40_UNLATCH, byte_range. lia.
  - pstep.
Qed.

Variable encodeChar : Z -> list Z -> option (Z * list Z).
Hypothesis encodeChar_ok : encoder_ok encodeChar.

Lemma firstn_c40 (n : nat) (buffer : list Z) :
  Forall c40_value buffer -> Forall c40_value (firstn n buffer).
Proof.
  intros Hb. apply Forall_forall. intros x Hx.
  rewrite Forall_forall in Hb. apply Hb.
  rewrite <- (firstn_skipn n buffer). apply in_or_app. left. exact Hx.
Qed.

Lemma preserves_Backtrack (buffer removed : list Z) (lastCharSize : Z) :
  Forall c40_value buffer ->
  preserves lookup
    (C40Encoder.BacktrackOneCharacter buffer removed lastCharSize)
    (fun r => Forall c40_value (snd (fst r))).
Proof.
  intros Hb. unfold C40Encoder.BacktrackOneCharacter.
  eapply preserves_bind with (Q1 := Forall c40_value).
  { apply preserves_lift. intros b. unfold C40Encoder.resize_less.
    destruct (_ && _); [|discriminate]. intros H; inversion H.
    apply firstn_c40. assumption. }
  intros b Hb'. psteps. cbn. assumption.
Qed.

Lemma preserves_backtrack_while (fuel : nat) (available : Z)
    (buffer removed : list Z) (lastCharSize : Z) :
  Forall c40_value buffer ->
  preserves lookup
    (C40Encoder.backtrack_while fuel available buffer removed lastCharSize)
    (Forall c40_value).
Proof.
  revert buffer removed lastCharSize.
  induction fuel as [|fuel IH]; intros buffer removed lastCharSize Hb;
    cbn [C40Encoder.backtrack_while].
  - destruct (_ && _); apply preserves_ret; assumption.
  - destruct (_ && _); [|apply preserves_ret; assumption].
    eapply preserves_bind; [apply preserves_Backtrack; assumption|].
    intros [[l b] r] Hr. cbn in Hr. apply IH. assumption.
Qed.

Lemma preserves_avoid_single_value (available : Z) (buffer : list Z)
    (lastCharSize : Z) :
  Forall c40_value buffer ->
  preserves lookup
    (C40Encoder.avoid_single_value available buffer lastCharSize)
    (Forall c40_value).
Proof.
  intros Hb. unfold C40Encoder.avoid_single_value.
  eapply preserves_bind with (Q1 := fun r => Forall c40_value (snd (fst r))).
  { destruct (_ && _); [apply preserves_Backtrack; assumption|].
    apply preserves_ret. cbn. assumption. }
  intros [[l b] r] Hr. cbn in Hr. pstep; [pstep|].
  apply preserves_backtrack_while. assumption.
Qed.

Lemma preserves_C40_encode_loop (fuel : nat) (encodingMode : Encodation)
    (buffer : list Z) :
  Forall c40_value buffer ->
  preserves lookup (C40Encoder.encode_loop fuel encodeChar encodingMode buffer)
    (Forall c40_value).
Proof.
  revert buffer. induction fuel as [|fuel IH]; intros buffer Hb;
    cbn [C40Encoder.encode_loop].
  - pstep; [pstep|]. destruct a; apply preserves_ret; assumption.
  - pstep; [pstep|]. destruct a; [|apply preserves_ret; assumption].
    pstep; [pstep|]. pstep; [pstep|]. pstep; [pstep|].
    eapply preserves_bind with (Q1 := fun r => Forall c40_value (snd r)).
    { apply preserves_lift. intros [n sb] Hsb. cbn.
      eapply encodeChar_ok; eassumption. }
    intros [lastCharSize buffer'] Hb'. cbn in Hb'.
    pstep; [pstep|]. pstep; [pstep|]. pstep; [pstep|].
    destruct (negb _); [apply preserves_avoid_single_value; assumption|].
    destruct (_ =? 0).
    + pstep; [pstep|]. pstep; [pstep|].
      destruct (negb _).
      * pstep; [pstep|]. apply preserves_ret. assumption.
      * apply IH. assumption.
    + apply IH. assumption.
Qed.

Lemma preserves_EncodeC40_with (encodingMode : Encodation) :
  preserves lookup (C40Encoder.EncodeC40_with encodeChar encodingMode) any.
Proof.
  unfold C40Encoder.EncodeC40_with. pstep; [pstep|].
  eapply preserves_bind;
    [apply preserves_C40_encode_loop; constructor|].
  intros buffer Hb. apply preserves_C40_HandleEOD. assumption.
Qed.

End InvariantC40.

Section InvariantModes.

Variable lookup : Z -> option SymbolInfo.

Lemma preserves_X12_encode_loop (fuel : nat) (buffer : list Z) :
  Forall c40_value buffer ->
  preserves lookup (X12Encoder.encode_loop fuel buffer) any.
Proof.
  revert buffer. induction fuel as [|fuel IH]; intros buffer Hb;
    cbn [X12Encoder.encode_loop].
  - pstep; [pstep|]. destruct a; apply preserves_ret; exact I.
  - pstep; [pstep|]. destruct a; [|apply preserves_ret; exact I].
    pstep; [pstep|]. pstep; [pstep|]. pstep; [pstep|].
    eapply preserves_bind with (Q1 := fun r => Forall c40_value (snd r)).
    { apply preserves_lift. intros [n sb] Hsb. cbn.
      eapply X12_EncodeChar_ok; eassumption. }
    intros [n buffer'] Hb'. cbn in Hb'.
    destruct (_ =? 0); [|apply IH; assumption].
    eapply preserves_bind; [apply preserves_WriteNextTriplet; assumption|].
    intros rest Hrest. pstep; [pstep|]. pstep; [pstep|].
    destruct (negb _); [|apply IH; assumption].
    pstep; [pstep|]. apply preserves_ret. exact I.
Qed.

Lemma preserves_EncodeX12 : preserves lookup X12Encoder.EncodeX12 any.
Proof.
  unfold X12Encoder.EncodeX12, X12Encoder.HandleEOD. pstep; [pstep|].
  eapply preserves_bind; [apply preserves_X12_encode_loop; constructor|].
  intros buffer _. apply preserves_by_value.
Qed.

Lemma land_255_range (v : Z) : byte_range (Z.land v 255).
Proof.
  assert (Z.land v 255 = v mod 2 ^ 8) as ->
    by (change 255 with (Z.ones 8); apply Z.land_ones; lia).
  unfold byte_range. pose proof (Z.mod_pos_bound v (2 ^ 8)).
  change (2 ^ 8) with 256 in *. lia.
Qed.

Lemma Edifact_EncodeToCodewords_result (sb : list Z) :
  match EdifactEncoder.EncodeToCodewords sb with
  | Some cws => Forall byte_range cws
  | None => True
  end.
Proof.
  unfold EdifactEncoder.EncodeToCodewords.
  destruct (len sb =? 0); [exact I|].
  destruct (len sb >=? 2), (len sb >=? 3); cbn [app];
    repeat (constructor; [apply land_255_range|]); constructor.
Qed.

Lemma Edifact_EncodeToCodewords_range (sb cws : list Z) :
  EdifactEncoder.EncodeToCodewords sb = Some cws -> Forall byte_range cws.
Proof.
  intros H. pose proof (Edifact_EncodeToCodewords_result sb) as Hr.
  rewrite H in Hr. exact Hr.
Qed.

Lemma preserves_addCodewords (cws : list Z) :
  Forall byte_range cws -> preserves lookup (EdifactEncoder.addCodewords cws) any.
Proof.
  induction 1 as [|cw cws Hcw _ IH]; cbn [EdifactEncoder.addCodewords].
  - apply preserves_ret. exact I.
  - pstep; [pstep; assumption|]. exact IH.
Qed.

Lemma preserves_Edifact_HandleEOD_try (buffer : list Z) :
  preserves lookup (EdifactEncoder.HandleEOD_try buffer) any.
Proof.
  unfold EdifactEncoder.HandleEOD_try.
  destruct (_ =? 0); [apply preserves_ret; exact I|].
  eapply preserves_bind with (Q1 := any).
  { destruct (_ =? 1); [|apply preserves_ret; exact I]. psteps. }
  intros early _. destruct early; [apply preserves_ret; exact I|].
  destruct (_ >? 4); [apply preserves_throw|].
  eapply preserves_bind with (Q1 := Forall byte_range).
  { apply preserves_lift. intros cws. apply Edifact_EncodeToCodewords_range. }
  intros encoded Henc. pstep; [pstep|].
  eapply preserves_bind with (Q1 := any).
  { destruct (_ <=? 2); [|apply preserves_ret; exact I]. psteps. }
  intros restInAscii _. pstep; [|pstep].
  destruct restInAscii; [psteps|]. apply preserves_addCodewords. assumption.
Qed.

Lemma preserves_Edifact_HandleEOD (buffer : list Z) :
  preserves lookup (EdifactEncoder.HandleEOD buffer) any.
Proof.
  intros ctx Hctx. unfold EdifactEncoder.HandleEOD.
  pose proof (preserves_Edifact_HandleEOD_try buffer ctx Hctx) as H.
  destruct (EdifactEncoder.HandleEOD_try buffer ctx) as [[|] ctx'|e ctx'];
    [|cbn|exact I]; destruct H as [H _]; split; try exact I; exact H.
Qed.

Lemma preserves_Edifact_encode_loop (fuel : nat) (buffer : list Z) :
  preserves lookup (EdifactEncoder.encode_loop fuel buffer) any.
Proof.
  revert buffer. induction fuel as [|fuel IH]; intros buffer;
    cbn [EdifactEncoder.encode_loop].
  - pstep; [pstep|]. destruct a; apply preserves_ret; exact I.
  - pstep; [pstep|]. destruct a; [|apply preserves_ret; exact I].
    pstep; [pstep|]. pstep; [pstep|]. pstep; [pstep|]. pstep; [pstep|].
    destruct (_ >=? 4); [|apply IH].
    eapply preserves_bind with (Q1 := Forall byte_range).
    { apply preserves_lift. intros cws. apply Edifact_EncodeToCodewords_range. }
    intros codewords Hcws.
    pstep; [apply preserves_addCodewords; assumption|].
    pstep; [pstep|]. pstep; [pstep|].
    destruct (negb _); [|apply IH].
    pstep; [pstep|]. apply preserves_ret. exact I.
Qed.

Lemma preserves_EncodeEdifact : preserves lookup EdifactEncoder.EncodeEdifact any.
Proof.
  unfold EdifactEncoder.EncodeEdifact. pstep; [pstep|].
  pstep; [apply preserves_Edifact_encode_loop|].
  apply preserves_Edifact_HandleEOD.
Qed.

(** The encoders of the five modes that hand no byte of a buffer on as a
    [char]. *)
Lemma preserves_dispatch (encodingMode : Encodation) :
  encodingMode <> BASE256_ENCODATION ->
  preserves lookup (dispatch encodingMode) any.
Proof.
  intros Hmode. destruct encodingMode; cbn [dispatch].
  - apply preserves_EncodeASCII.
  - apply preserves_EncodeC40_with. apply C40_EncodeChar_ok.
  - apply preserves_EncodeC40_with. apply Text_EncodeChar_ok.
  - apply preserves_EncodeX12.
  - apply preserves_EncodeEdifact.
  - contradiction.
Qed.

End InvariantModes.

(** ** The end of the driver *)

Lemma padding_length (n : nat) (count : Z) : List.length (padding n count) = n.
Proof.
  revert count. induction n as [|n IH]; intros count; cbn; [reflexivity|].
  now rewrite IH.
Qed.

Lemma padding_nth (n : nat) (count : Z) (i : nat) :
  (i < n)%nat -> nth i (padding n count) 0 = pad_at (count + Z.of_nat i + 1).
Proof.
  revert count i. induction n as [|n IH]; intros count i Hi; [lia|].
  destruct i as [|i]; cbn [padding nth].
  - f_equal. lia.
  - rewrite IH by lia. f_equal. lia.
Qed.

Lemma Randomize253State_PAD (pos : Z) : Randomize253State PAD pos = pad_at pos.
Proof. reflexivity. Qed.

Lemma pad_loop_spec (fuel : nat) (capacity : Z) (ctx : EncoderContext) :
  (Z.to_nat (capacity - codewordCount ctx) <= fuel)%nat ->
  pad_loop fuel capacity ctx
  = Ok tt (with_codewords
             (padding (Z.to_nat (capacity - codewordCount ctx)) (codewordCount ctx))
             ctx).
Proof.
  revert ctx. induction fuel as [|fuel IH]; intros ctx Hfuel;
    cbn [pad_loop]; unfold bind at 1; unfold gets at 1;
    destruct (Z.ltb_spec (codewordCount ctx) capacity) as [Hlt|Hge].
  - lia.
  - replace (Z.to_nat (capacity - codewordCount ctx)) with O by lia.
    cbn. now rewrite with_codewords_nil.
  - unfold bind, addCodeword, modify. rewrite with_codeword_eq, IH;
      rewrite codewordCount_with_codewords; change (len [_]) with 1; [|lia].
    rewrite with_codewords_app.
    replace (Z.to_nat (capacity - codewordCount ctx))
      with (S (Z.to_nat (capacity - (codewordCount ctx + 1)))) by lia.
    cbn [padding app]. rewrite Randomize253State_PAD. reflexivity.
  - replace (Z.to_nat (capacity - codewordCount ctx)) with O by lia.
    cbn. now rewrite with_codewords_nil.
Qed.

Lemma needs_unlatch_eq (encodingMode : Encodation) :
  negb (Encodation_eqb encodingMode ASCII_ENCODATION)
  && negb (Encodation_eqb encodingMode BASE256_ENCODATION)
  = needs_unlatch encodingMode.
Proof. destruct encodingMode; reflexivity. Qed.

(** The codewords that [finish] returns. *)
Lemma finish_spec (encodingMode : Encodation) (ctx ctx1 : EncoderContext)
    (symbolInfo : SymbolInfo) :
  updateSymbolInfo (codewordCount ctx) ctx = Ok symbolInfo ctx1 ->
  let capacity := dataCapacity symbolInfo in
  let cws := ctx_codewords ctx in
  let unlatch := written_unlatch encodingMode capacity cws in
  let pad := first_pad capacity (cws ++ unlatch) in
  let n := len (cws ++ unlatch ++ pad) in
  exists ctx',
    finish encodingMode ctx
    = Ok (cws ++ unlatch ++ pad ++ padding (Z.to_nat (capacity - n)) n) ctx'
    /\ ctx_symbolInfo ctx' = Some symbolInfo.
Proof.
  intros Hupd capacity cws unlatch pad n.
  pose proof (updateSymbolInfo_Ok _ _ _ _ Hupd) as Hctx1.
  assert (ctx_codewords ctx1 = cws) as Hcws by (subst ctx1; reflexivity).
  assert ((if codewordCount ctx <? capacity
           then if negb (Encodation_eqb encodingMode ASCII_ENCODATION)
                   && negb (Encodation_eqb encodingMode BASE256_ENCODATION)
                then addCodeword (char_to_int 254) else ret tt
           else ret tt) ctx1
          = Ok tt (with_codewords unlatch ctx1)) as Hstep1.
  { unfold unlatch, written_unlatch. rewrite needs_unlatch_eq.
    change (len cws) with (codewordCount ctx).
    destruct (codewordCount ctx <? capacity), (needs_unlatch encodingMode);
      cbn [andb]; unfold ret, addCodeword, modify;
      rewrite ?with_codewords_nil; reflexivity. }
  assert (codewordCount (with_codewords unlatch ctx1) = len (cws ++ unlatch)) as Hc1.
  { unfold codewordCount, with_codewords. cbn. now rewrite Hcws. }
  assert ((if codewordCount (with_codewords unlatch ctx1) <? capacity
           then addCodeword PAD else ret tt) (with_codewords unlatch ctx1)
          = Ok tt (with_codewords (unlatch ++ pad) ctx1)) as Hstep2.
  { unfold pad, first_pad. rewrite Hc1.
    destruct (len (cws ++ unlatch) <? capacity);
      unfold ret, addCodeword, modify.
    - now rewrite with_codeword_eq, with_codewords_app.
    - now rewrite app_nil_r. }
  assert (codewordCount (with_codewords (unlatch ++ pad) ctx1) = n) as Hn.
  { unfold codewordCount, with_codewords, n. cbn. now rewrite Hcws. }
  eexists. split; [unfold finish|].
  unfold bind at 1. unfold gets at 1. unfold bind at 1.
  rewrite Hupd. fold capacity.
  unfold bind at 1. rewrite Hstep1.
  unfold bind at 1. unfold gets at 1. unfold bind at 1. rewrite Hstep2.
  unfold bind at 1. unfold gets at 1. unfold bind at 1.
  rewrite Hn, pad_loop_spec by (rewrite Hn; lia).
  rewrite Hn. unfold gets. f_equal.
  unfold with_codewords. cbn. rewrite Hcws, <- !app_assoc. reflexivity.
  subst ctx1. reflexivity.
Qed.

Lemma first_pad_len (capacity : Z) (cws : list Z) :
  len cws <= capacity -> len (cws ++ first_pad capacity cws) <= capacity.
Proof.
  intros Hle. unfold first_pad. destruct (Z.ltb_spec (len cws) capacity);
    rewrite len_app; cbn; lia.
Qed.

Lemma written_unlatch_len (encodingMode : Encodation) (capacity : Z) (cws : list Z) :
  len cws <= capacity ->
  len (cws ++ written_unlatch encodingMode capacity cws) <= capacity.
Proof.
  intros Hle. unfold written_unlatch.
  destruct (Z.ltb_spec (len cws) capacity), (needs_unlatch encodingMode);
    rewrite len_app; cbn; lia.
Qed.

Lemma updateSymbolInfo_fits (n : Z) (ctx ctx1 : EncoderContext) (s : SymbolInfo) :
  catalog_fits (ctx_lookup ctx) ->
  updateSymbolInfo n ctx = Ok s ctx1 -> n <= dataCapacity s.
Proof.
  intros Hfits. unfold updateSymbolInfo.
  destruct (ctx_symbolInfo ctx) as [s0|].
  - destruct (Z.gtb_spec n (dataCapacity s0)) as [Hgt|Hle].
    + destruct (ctx_lookup ctx n) as [s1|] eqn:E; intros Heq; inversion Heq; subst.
      exact (Hfits _ _ E).
    + intros Heq; inversion Heq; subst. assumption.
  - destruct (ctx_lookup ctx n) as [s1|] eqn:E; intros Heq; inversion Heq; subst.
    exact (Hfits _ _ E).
Qed.

(** Within the positions whose product with 149 is a value of [int], the
    pseudo-random number is the one of the specification,
    [((149 pos) mod m) + 1]. *)
Lemma pseudo_random_small (m pos : Z) :
  0 < m -> 0 <= pos <= MAX_POSITION ->
  pseudo_random m pos = (149 * pos) mod m + 1.
Proof.
  unfold pseudo_random, int_wrap, MAX_POSITION. intros Hm Hpos.
  rewrite (Z.mod_small (149 * pos + 2 ^ 31)) by lia.
  rewrite Z.rem_mod_nonneg by lia.
  replace (149 * pos + 2 ^ 31 - 2 ^ 31) with (149 * pos) by lia. reflexivity.
Qed.

Lemma pseudo_random_range (m pos : Z) :
  0 < m -> 0 <= pos <= MAX_POSITION -> 1 <= pseudo_random m pos <= m.
Proof.
  intros Hm Hpos. rewrite pseudo_random_small by assumption.
  pose proof (Z.mod_pos_bound (149 * pos) m Hm). lia.
Qed.

Lemma Randomize253State_PAD_range (pos : Z) :
  0 <= pos <= MAX_POSITION -> byte_range (Randomize253State PAD pos).
Proof.
  intros Hpos. pose proof (pseudo_random_range 253 pos ltac:(lia) Hpos) as Hpr.
  unfold byte_range, Randomize253State, PAD. fold (pseudo_random 253 pos).
  cbv zeta. destruct (Z.leb_spec (129 + pseudo_random 253 pos) 254); lia.
Qed.

Lemma Randomize255State_range (ch pos : Z) :
  byte_range ch -> 0 <= pos <= MAX_POSITION ->
  byte_range (Base256Encoder.Randomize255State ch pos).
Proof.
  intros Hch Hpos.
  pose proof (pseudo_random_range 255 pos ltac:(lia) Hpos) as Hpr.
  unfold byte_range in *. unfold Base256Encoder.Randomize255State.
  fold (pseudo_random 255 pos). cbv zeta.
  destruct (Z.leb_spec (ch + pseudo_random 255 pos) 255); lia.
Qed.

(** C6 fails on the code in the value of the unlatch: the driver passes
    the [char] literal ['\xfe'] to [addCodeword], whose parameter is an
    [int], and the codeword it so writes is -2, where the claim, and the
    comment of that line, have 254. For the message "ABC>ABC123>AB" the
    main loop ends in the mode X12 with nine codewords, the symbol holds
    ten, and the driver returns them with -2 as the tenth. For every
    context the driver appends, to the codewords [cws] of the main loop,
    -2 exactly when their count is below the capacity of the symbol that
    the last update selects and the mode is neither ASCII nor Base 256,
    then the pad 129 exactly when the count is still below the capacity,
    then the randomized pads of the positions that are left; the length
    of the result is the capacity when the symbol holds the codewords of
    the main loop. *)
Theorem C6_finalization_unlatch :
  main_loop 2 ASCII_ENCODATION (initial_context ecc200 (msg_of "ABC>ABC123>AB"))
  = Some (Ok X12_ENCODATION
            (mkContext (msg_of "ABC>ABC123>AB") ecc200 13
               [238; 89; 233; 14; 192; 100; 207; 44; 31] None None 0))
  /\ output (Encode 2 ecc200 (msg_of "ABC>ABC123>AB"))
     = Some [238; 89; 233; 14; 192; 100; 207; 44; 31; -2]
  /\ forall (encodingMode : Encodation) (ctx ctx1 : EncoderContext)
        (symbolInfo : SymbolInfo),
       updateSymbolInfo (codewordCount ctx) ctx = Ok symbolInfo ctx1 ->
       let capacity := dataCapacity symbolInfo in
       let cws := ctx_codewords ctx in
       let unlatch :=
         if (len cws <? capacity) && needs_unlatch encodingMode
         then [-2] else [] in
       let pad := if len (cws ++ unlatch) <? capacity then [129] else [] in
       let n := len (cws ++ unlatch ++ pad) in
       let out := cws ++ unlatch ++ pad ++ padding (Z.to_nat (capacity - n)) n in
       (exists ctx', finish encodingMode ctx = Ok out ctx')
       /\ (forall i, n <= i < capacity ->
                     nth (Z.to_nat i) out 0 = Randomize253State PAD (i + 1))
       /\ (len cws <= capacity -> len out = capacity).
Proof.
  split; [vm_compute; reflexivity|]. split; [vm_compute; reflexivity|].
  intros mode ctx ctx1 s Hupd.
  destruct (finish_spec mode _ _ _ Hupd) as [ctx' [Hspec _]].
  cbv zeta.
  change (if (len (ctx_codewords ctx) <? dataCapacity s) && needs_unlatch mode
          then [-2] else [])
    with (written_unlatch mode (dataCapacity s) (ctx_codewords ctx)).
  set (unlatch := written_unlatch mode (dataCapacity s) (ctx_codewords ctx)) in *.
  change (if len (ctx_codewords ctx ++ unlatch) <? dataCapacity s then [129] else [])
    with (first_pad (dataCapacity s) (ctx_codewords ctx ++ unlatch)).
  set (pad := first_pad (dataCapacity s) (ctx_codewords ctx ++ unlatch)) in *.
  set (n := len (ctx_codewords ctx ++ unlatch ++ pad)) in *.
  split; [exists ctx'; exact Hspec|]. split.
  - intros i Hi. rewrite !app_assoc, app_nth2; rewrite <- !app_assoc; fold n.
    + unfold len in n. fold n.
      replace (List.length (ctx_codewords ctx ++ unlatch ++ pad)) with (Z.to_nat n)
        by (unfold n; lia).
      rewrite padding_nth by lia.
      change (Randomize253State PAD (i + 1)) with (pad_at (i + 1)). f_equal. lia.
    + unfold n, len in Hi. lia.
  - intros Hle.
    assert (n <= dataCapacity s) as Hn.
    { unfold n. rewrite app_assoc. apply first_pad_len.
      apply written_unlatch_len. exact Hle. }
    rewrite !app_assoc, len_app. rewrite <- !app_assoc. fold n.
    unfold len. rewrite padding_length. lia.
Qed.

Lemma ecc200_fits : catalog_fits ecc200.
Proof.
  intros n s. unfold ecc200.
  destruct (find (fun c => n <=? c) ecc200_capacities) as [c|] eqn:E;
    [|discriminate].
  apply find_some in E. destruct E as [_ Hc]. cbn. intros H; inversion H.
  cbn. apply Z.leb_le. exact Hc.
Qed.

(** C9 fails on the code: codewords below 0 are written at the two
    places where a [char] from 128 on becomes an [int]. The driver writes
    its unlatch as the literal ['\xfe'], which is -2: for the message
    ".A.C1.3." the codewords end with it. The last loop of the Base 256
    encoder takes the bytes of its buffer as [char]s: the byte 200, as
    the second codeword of a symbol, becomes -12. What else the claim
    names is in the range from 0 to 255: the codewords that the encoders
    of the modes ASCII, C40, Text, X12 and EDIFACT add, for every catalog;
    the pads of [Randomize253State] and the values of [Randomize255State]
    for an octet, at the positions whose product with 149 is a value of
    [int]; the two codewords of a triplet of C40 values; the codewords of
    the EDIFACT packing; the codeword of two digits and the latches. *)
Theorem C9_codewords_out_of_range :
  output (Encode 3 ecc200 (msg_of ".A.C1.3."))
  = Some [240; 184; 27; 131; 198; 236; 238; -2]
  /\ ~ Forall byte_range [240; 184; 27; 131; 198; 236; 238; -2]
  /\ Base256Encoder.emit [200] (mkContext [] ecc200 0 [231] None None 0)
     = Ok tt (mkContext [] ecc200 0 [231; -12] None None 0)
  /\ (forall lookup encodingMode,
         encodingMode <> BASE256_ENCODATION ->
         preserves lookup (dispatch encodingMode) any)
  /\ (forall pos, 0 <= pos <= MAX_POSITION ->
                  byte_range (Randomize253State PAD pos))
  /\ (forall ch pos,
         byte_range ch -> 0 <= pos <= MAX_POSITION ->
         byte_range (Base256Encoder.Randomize255State ch pos))
  /\ (forall c1 c2 c3,
         c40_value c1 -> c40_value c2 -> c40_value c3 ->
         byte_range ((1600 * c1 + 40 * c2 + c3 + 1) / 256)
         /\ byte_range ((1600 * c1 + 40 * c2 + c3 + 1) mod 256))
  /\ (forall sb cws,
         EdifactEncoder.EncodeToCodewords sb = Some cws -> Forall byte_range cws)
  /\ (forall d1 d2, byte_range (ASCIIEncoder.EncodeASCIIDigits d1 d2))
  /\ (forall m, byte_range (LATCHES m)).
Proof.
  split; [vm_compute; reflexivity|].
  split.
  { intros H. rewrite Forall_forall in H.
    assert (byte_range (-2)) as [Hlo _] by (apply H; cbn; tauto). lia. }
  split; [vm_compute; reflexivity|].
  split; [exact preserves_dispatch|].
  split; [exact Randomize253State_PAD_range|].
  split; [exact Randomize255State_range|].
  split; [exact triplet_range|].
  split; [exact Edifact_EncodeToCodewords_range|].
  split; [exact EncodeASCIIDigits_range|exact LATCHES_range].
Qed.

(** ** The message "ABCDEF" *)

Lemma updateSymbolInfo_served (n : Z) (ctx : EncoderContext) :
  catalog_fits (ctx_lookup ctx) -> ctx_lookup ctx n <> None ->
  exists s,
    updateSymbolInfo n ctx = Ok s (with_symbolInfo (Some s) ctx)
    /\ n <= dataCapacity s.
Proof.
  intros Hfits Hserved.
  destruct (updateSymbolInfo n ctx) as [s ctx'|e ctx'] eqn:E.
  - exists s. split; [|exact (updateSymbolInfo_fits _ _ _ _ Hfits E)].
    now rewrite (updateSymbolInfo_Ok _ _ _ _ E).
  - exfalso. revert E. unfold updateSymbolInfo.
    destruct (ctx_lookup ctx n) as [s|]; [|congruence].
    destruct (ctx_symbolInfo ctx) as [s0|]; [destruct (n >? dataCapacity s0)|];
      discriminate.
Qed.

Lemma updateSymbolInfo_cached (n : Z) (ctx : EncoderContext) (s : SymbolInfo) :
  ctx_symbolInfo ctx = Some s -> n <= dataCapacity s ->
  updateSymbolInfo n ctx = Ok s ctx.
Proof.
  intros Hs Hle. unfold updateSymbolInfo. rewrite Hs.
  destruct (Z.gtb_spec n (dataCapacity s)); [lia|reflexivity].
Qed.

(** A turn of the C40 loop after which characters remain and the loop
    goes on. *)
Lemma C40_loop_more (fuel : nat) (encodeChar : Z -> list Z -> option (Z * list Z))
    (encodingMode : Encodation) (buffer buffer' : list Z)
    (ctx : EncoderContext) (c k : Z) (s : SymbolInfo) :
  let ctx' := with_symbolInfo (Some s) (with_pos (ctx_pos ctx + 1) ctx) in
  hasMoreCharacters ctx = true ->
  msg_at (ctx_msg ctx) (ctx_pos ctx) = Some c ->
  encodeChar c buffer = Some (k, buffer') ->
  updateSymbolInfo (codewordCount ctx + len buffer' / 3 * 2)
    (with_pos (ctx_pos ctx + 1) ctx) = Ok s ctx' ->
  hasMoreCharacters ctx' = true ->
  (len buffer' mod 3 =? 0) = false
  \/ LookAheadTest (ctx_msg ctx) (ctx_pos ctx + 1) encodingMode = encodingMode ->
  C40Encoder.encode_loop (S fuel) encodeChar encodingMode buffer ctx
  = C40Encoder.encode_loop fuel encodeChar encodingMode buffer' ctx'.
Proof.
  intros ctx' Hmore Hc Henc Hupd Hmore' Hgo.
  cbn [C40Encoder.encode_loop].
  unfold bind at 1. unfold gets at 1. rewrite Hmore.
  unfold bind at 1. unfold currentChar. rewrite Hc. cbn [lift]. unfold ret at 1.
  unfold bind at 1. unfold gets at 1.
  unfold bind at 1. unfold setCurrentPos at 1. unfold modify at 1.
  unfold bind at 1. rewrite Henc. cbn [lift]. unfold ret at 1.
  unfold bind at 1. unfold gets at 1.
  change (codewordCount (with_pos (ctx_pos ctx + 1) ctx)) with (codewordCount ctx).
  unfold bind at 1. rewrite Hupd.
  unfold bind at 1. unfold gets at 1. rewrite Hmore'. cbn [negb].
  destruct Hgo as [-> | Hlook]; [reflexivity|].
  destruct (len buffer' mod 3 =? 0); [|reflexivity].
  unfold bind at 1. unfold gets at 1. unfold bind at 1. unfold gets at 1.
  change (ctx_msg ctx') with (ctx_msg ctx).
  change (ctx_pos ctx') with (ctx_pos ctx + 1).
  rewrite Hlook.
  replace (Encodation_eqb encodingMode encodingMode) with true
    by (destruct encodingMode; reflexivity).
  reflexivity.
Qed.

(** The turn of the C40 loop that consumes the last character. *)
Lemma C40_loop_last (fuel : nat) (encodeChar : Z -> list Z -> option (Z * list Z))
    (encodingMode : Encodation) (buffer buffer' : list Z)
    (ctx : EncoderContext) (c k : Z) (s : SymbolInfo) :
  let ctx' := with_symbolInfo (Some s) (with_pos (ctx_pos ctx + 1) ctx) in
  let curCodewordCount := codewordCount ctx + len buffer' / 3 * 2 in
  hasMoreCharacters ctx = true ->
  msg_at (ctx_msg ctx) (ctx_pos ctx) = Some c ->
  encodeChar c buffer = Some (k, buffer') ->
  updateSymbolInfo curCodewordCount (with_pos (ctx_pos ctx + 1) ctx) = Ok s ctx' ->
  hasMoreCharacters ctx' = false ->
  C40Encoder.encode_loop (S fuel) encodeChar encodingMode buffer ctx
  = C40Encoder.avoid_single_value
      (dataCapacity s - curCodewordCount) buffer' k ctx'.
Proof.
  intros ctx' cur Hmore Hc Henc Hupd Hmore'.
  cbn [C40Encoder.encode_loop].
  unfold bind at 1. unfold gets at 1. rewrite Hmore.
  unfold bind at 1. unfold currentChar. rewrite Hc. cbn [lift]. unfold ret at 1.
  unfold bind at 1. unfold gets at 1.
  unfold bind at 1. unfold setCurrentPos at 1. unfold modify at 1.
  unfold bind at 1. rewrite Henc. cbn [lift]. unfold ret at 1.
  unfold bind at 1. unfold gets at 1.
  change (codewordCount (with_pos (ctx_pos ctx + 1) ctx)) with (codewordCount ctx).
  fold cur. unfold bind at 1. rewrite Hupd.
  unfold bind at 1. unfold gets at 1. rewrite Hmore'. reflexivity.
Qed.

(** No character is given back when the buffer holds full triplets. *)
Lemma avoid_single_value_full
    (available : Z) (buffer : list Z) (lastCharSize : Z) (ctx : EncoderContext) :
  len buffer mod 3 = 0 ->
  C40Encoder.avoid_single_value available buffer lastCharSize ctx
  = Ok buffer ctx.
Proof.
  intros Hfull. unfold C40Encoder.avoid_single_value. rewrite Hfull.
  cbn [Z.eqb andb]. unfold bind at 1. unfold ret at 1.
  unfold bind at 1. unfold gets at 1.
  destruct (Z.to_nat (ctx_pos ctx) + 1)%nat; cbn [C40Encoder.backtrack_while];
    rewrite Hfull; reflexivity.
Qed.

Section ABCDEF.

Variable lookup : Z -> option SymbolInfo.
Hypothesis lookup_fits : catalog_fits lookup.
Hypothesis served_1 : lookup 1 <> None.
Hypothesis served_3 : lookup 3 <> None.
Hypothesis served_5 : lookup 5 <> None.

(** The contexts of the C40 encoder on the message, after the latch. *)
Let at_cursor (pos : Z) (s : option SymbolInfo) : EncoderContext :=
  mkContext (msg_of "ABCDEF") lookup pos [230] None s 0.

Ltac loop_turn lem n c buf' :=
  match goal with
  | |- context [C40Encoder.encode_loop (S ?f) ?ec ?m ?b ?ctx] =>
      let s := fresh "s" in
      let Hs := fresh "Hs" in
      let Hle := fresh "Hle" in
      destruct (updateSymbolInfo_served n (with_pos (ctx_pos ctx + 1) ctx))
        as [s [Hs Hle]]; [assumption|assumption|];
      rewrite (lem f ec m b buf' ctx c 1 s);
      [|reflexivity|reflexivity|reflexivity|exact Hs|reflexivity|..]
  end.

Lemma ABCDEF_loop :
  exists s,
    5 <= dataCapacity s
    /\ C40Encoder.encode_loop 6 C40Encoder.EncodeChar C40_ENCODATION []
         (at_cursor 0 None)
       = Ok [14; 15; 16; 17; 18; 19] (at_cursor 6 (Some s)).
Proof.
  unfold at_cursor.
  loop_turn C40_loop_more 1 65 [14]; [|left; reflexivity].
  cbn [with_symbolInfo with_pos ctx_msg ctx_lookup ctx_pos ctx_codewords
       ctx_newEncoding ctx_symbolInfo ctx_skipAtEnd Z.add Pos.add Pos.succ].
  loop_turn C40_loop_more 1 66 [14; 15]; [|left; reflexivity].
  cbn [with_symbolInfo with_pos ctx_msg ctx_lookup ctx_pos ctx_codewords
       ctx_newEncoding ctx_symbolInfo ctx_skipAtEnd Z.add Pos.add Pos.succ].
  loop_turn C40_loop_more 3 67 [14; 15; 16]; [|right; vm_compute; reflexivity].
  cbn [with_symbolInfo with_pos ctx_msg ctx_lookup ctx_pos ctx_codewords
       ctx_newEncoding ctx_symbolInfo ctx_skipAtEnd Z.add Pos.add Pos.succ].
  loop_turn C40_loop_more 3 68 [14; 15; 16; 17]; [|left; reflexivity].
  cbn [with_symbolInfo with_pos ctx_msg ctx_lookup ctx_pos ctx_codewords
       ctx_newEncoding ctx_symbolInfo ctx_skipAtEnd Z.add Pos.add Pos.succ].
  loop_turn C40_loop_more 3 69 [14; 15; 16; 17; 18]; [|left; reflexivity].
  cbn [with_symbolInfo with_pos ctx_msg ctx_lookup ctx_pos ctx_codewords
       ctx_newEncoding ctx_symbolInfo ctx_skipAtEnd Z.add Pos.add Pos.succ].
  loop_turn C40_loop_last 5 70 [14; 15; 16; 17; 18; 19].
  cbn [with_symbolInfo with_pos ctx_msg ctx_lookup ctx_pos ctx_codewords
       ctx_newEncoding ctx_symbolInfo ctx_skipAtEnd Z.add Pos.add Pos.succ].
  rewrite avoid_single_value_full by reflexivity.
  exists s4. split; [exact Hle4|reflexivity].
Qed.

Lemma ABCDEF_EncodeC40 :
  exists s,
    5 <= dataCapacity s
    /\ C40Encoder.EncodeC40 (at_cursor 0 None)
       = Ok tt (mkContext (msg_of "ABCDEF") lookup 6
                  ([230; 89; 233; 109; 36] ++ unlatch_if (5 <? dataCapacity s))
                  (Some ASCII_ENCODATION) (Some s) 0).
Proof.
  destruct ABCDEF_loop as [s [Hle Hloop]]. exists s. split; [exact Hle|].
  unfold C40Encoder.EncodeC40, C40Encoder.EncodeC40_with.
  unfold bind at 1. unfold gets at 1.
  change (Z.to_nat (remainingCharacters (at_cursor 0 None))) with 6%nat.
  unfold bind at 1. rewrite Hloop.
  pose proof (C40_HandleEOD_cases [14; 15; 16; 17; 18; 19]
                (at_cursor 6 (Some s)) (at_cursor 6 (Some s)) s) as Hcases.
  cbv zeta in Hcases.
  destruct Hcases as (_ & _ & Hzero & _).
  { apply updateSymbolInfo_cached; [reflexivity|exact Hle]. }
  rewrite Hzero by reflexivity.
  unfold at_cursor, with_newEncoding, with_codewords.
  cbn [ctx_msg ctx_lookup ctx_pos ctx_codewords ctx_newEncoding ctx_symbolInfo
       ctx_skipAtEnd].
  change (hasMoreCharacters
            (mkContext (msg_of "ABCDEF") lookup 6 [230] None (Some s) 0))
    with false.
  rewrite orb_false_r.
  change (triplet_codewords [14; 15; 16; 17; 18; 19]) with [89; 233; 109; 36].
  change (codewordCount (mkContext (msg_of "ABCDEF") lookup 6 [230] None (Some s) 0)
          + len [14; 15; 16; 17; 18; 19] / 3 * 2) with 5.
  replace (dataCapacity s - 5 >? 0) with (5 <? dataCapacity s)
    by (destruct (Z.ltb_spec 5 (dataCapacity s)), (Z.gtb_spec (dataCapacity s - 5) 0);
        try reflexivity; lia).
  reflexivity.
Qed.

(** The codewords that follow the five codewords of the message in a
    symbol of the given capacity: the unlatch, the first pad and the
    fill. *)
Let tail_in (capacity : Z) : list Z :=
  if 5 <? capacity
  then 254 :: (if 6 <? capacity
               then 129 :: padding (Z.to_nat (capacity - 7)) 7
               else [])
  else [].

Lemma ABCDEF_Encode (fuel : nat) :
  (2 <= fuel)%nat ->
  exists capacity ctxf,
    5 <= capacity
    /\ Encode fuel lookup (msg_of "ABCDEF")
       = Some (Ok ([230; 89; 233; 109; 36] ++ tail_in capacity) ctxf)
    /\ ctx_symbolInfo ctxf = Some (Build_SymbolInfo capacity)
    /\ len ([230; 89; 233; 109; 36] ++ tail_in capacity) = capacity.
Proof.
  intros Hfuel. destruct fuel as [|[|fuel]]; try lia. clear Hfuel.
  destruct ABCDEF_EncodeC40 as [s [Hle HC40]].
  exists (dataCapacity s).
  set (ctx := mkContext (msg_of "ABCDEF") lookup 6
                ([230; 89; 233; 109; 36] ++ unlatch_if (5 <? dataCapacity s))
                None (Some s) 0).
  assert (codewordCount ctx <= dataCapacity s) as Hcount.
  { unfold ctx, codewordCount. cbn [ctx_codewords]. rewrite len_app.
    destruct (Z.ltb_spec 5 (dataCapacity s)); cbn; lia. }
  destruct (finish_spec ASCII_ENCODATION ctx ctx s
              (updateSymbolInfo_cached _ ctx s eq_refl Hcount))
    as [ctxf [Hfin Hsym]].
  exists ctxf. split; [exact Hle|].
  split; [|split; [rewrite Hsym; destruct s; reflexivity|]];
    [|unfold tail_in; rewrite len_app;
      change (len [230; 89; 233; 109; 36]) with 5;
      destruct (Z.ltb_spec 5 (dataCapacity s));
      [destruct (Z.ltb_spec 6 (dataCapacity s))|];
      rewrite ?len_cons; unfold len; rewrite ?padding_length;
      cbn [List.length]; lia].
  unfold Encode.
  change (macro_prefix (wide (msg_of "ABCDEF"))
            (initial_context lookup (msg_of "ABCDEF")))
    with (Ok tt (initial_context lookup (msg_of "ABCDEF"))).
  cbn [main_loop].
  change (hasMoreCharacters (initial_context lookup (msg_of "ABCDEF"))) with true.
  cbn [dispatch].
  assert (ASCIIEncoder.EncodeASCII (initial_context lookup (msg_of "ABCDEF"))
          = Ok tt (mkContext (msg_of "ABCDEF") lookup 0 [230]
                     (Some C40_ENCODATION) None 0)) as ->
    by (vm_compute; reflexivity).
  cbn [ctx_newEncoding].
  change (with_newEncoding None
            (mkContext (msg_of "ABCDEF") lookup 0 [230]
               (Some C40_ENCODATION) None 0))
    with (at_cursor 0 None).
  change (hasMoreCharacters (at_cursor 0 None)) with true.
  cbn [dispatch]. rewrite HC40. cbn [ctx_newEncoding].
  change (with_newEncoding None
            (mkContext (msg_of "ABCDEF") lookup 6
               ([230; 89; 233; 109; 36] ++ unlatch_if (5 <? dataCapacity s))
               (Some ASCII_ENCODATION) (Some s) 0))
    with ctx.
  assert (main_loop fuel ASCII_ENCODATION ctx = Some (Ok ASCII_ENCODATION ctx)) as ->
    by (destruct fuel; reflexivity).
  rewrite Hfin. do 2 f_equal.
  unfold ctx, tail_in, written_unlatch, first_pad. cbn [ctx_codewords needs_unlatch].
  rewrite andb_false_r. cbn [unlatch_if]. rewrite !app_nil_r.
  destruct (Z.ltb_spec 5 (dataCapacity s)) as [H5|H5]; cbn [unlatch_if app].
  - change (len [230; 89; 233; 109; 36; 254]) with 6.
    destruct (Z.ltb_spec 6 (dataCapacity s)) as [H6|H6]; cbn [app].
    + reflexivity.
    + replace (Z.to_nat (dataCapacity s - len [230; 89; 233; 109; 36; 254]))
        with O by (cbn; lia).
      reflexivity.
  - change (len [230; 89; 233; 109; 36]) with 5.
    destruct (Z.ltb_spec 5 (dataCapacity s)); [lia|]. cbn [app].
    replace (Z.to_nat (dataCapacity s - len [230; 89; 233; 109; 36]))
      with O by (cbn; lia).
    reflexivity.
Qed.

End ABCDEF.

(** C4, as stated, fails: with the ECC 200 catalog the codewords of
    "ABCDEF" are 230, then 89 and 233 for the triplet ('A', 'B', 'C'),
    whose value is 1600 14 + 40 15 + 16 + 1 = 23017 and not 8817, then 109
    and 36; they fill the symbol of five codewords, and neither 254 nor a
    pad follows. *)
Lemma C4_ABCDEF_counterexample :
  output (Encode 2 ecc200 (msg_of "ABCDEF")) = Some [230; 89; 233; 109; 36]
  /\ triplet_codewords [14; 15; 16] = [89; 233]
  /\ 1600 * 14 + 40 * 15 + 16 + 1 = 23017.
Proof. repeat split; vm_compute; reflexivity. Qed.

(** C4, amended: for every catalog that answers with symbols that hold
    the requested count and serves the counts 1, 3 and 5, [Encode] of
    "ABCDEF" returns 230 (the latch to C40), then 89 and 233 for the
    triplet ('A', 'B', 'C'), then 109 and 36 for ('D', 'E', 'F'); the C40
    unlatch 254 follows only when the capacity of the selected symbol
    exceeds these five codewords, the pad 129 only when it exceeds six,
    and the fill of pads up to the capacity after that. *)
Theorem C4_ABCDEF_codewords (lookup : Z -> option SymbolInfo) (fuel : nat) :
  catalog_fits lookup ->
  lookup 1 <> None -> lookup 3 <> None -> lookup 5 <> None ->
  (2 <= fuel)%nat ->
  exists capacity ctxf,
    5 <= capacity
    /\ Encode fuel lookup (msg_of "ABCDEF")
       = Some (Ok ([230; 89; 233; 109; 36]
                   ++ (if 5 <? capacity
                       then 254 :: (if 6 <? capacity
                                    then 129 :: padding (Z.to_nat (capacity - 7)) 7
                                    else [])
                       else []))
                 ctxf)
    /\ ctx_symbolInfo ctxf = Some (Build_SymbolInfo capacity)
    /\ len ([230; 89; 233; 109; 36]
            ++ (if 5 <? capacity
                then 254 :: (if 6 <? capacity
                             then 129 :: padding (Z.to_nat (capacity - 7)) 7
                             else [])
                else []))
       = capacity.
Proof.
  intros Hfits H1 H3 H5 Hfuel.
  exact (ABCDEF_Encode lookup Hfits H1 H3 H5 fuel Hfuel).
Qed.

Lemma C4_ABCDEF_codewords_witness :
  exists capacity ctxf,
    5 <= capacity
    /\ Encode 2 ecc200 (msg_of "ABCDEF")
       = Some (Ok ([230; 89; 233; 109; 36]
                   ++ (if 5 <? capacity
                       then 254 :: (if 6 <? capacity
                                    then 129 :: padding (Z.to_nat (capacity - 7)) 7
                                    else [])
                       else []))
                 ctxf)
    /\ ctx_symbolInfo ctxf = Some (Build_SymbolInfo capacity)
    /\ len ([230; 89; 233; 109; 36]
            ++ (if 5 <? capacity
                then 254 :: (if 6 <? capacity
                             then 129 :: padding (Z.to_nat (capacity - 7)) 7
                             else [])
                else []))
       = capacity.
Proof.
  apply (C4_ABCDEF_codewords ecc200 2).
  - exact ecc200_fits.
  - vm_compute. discriminate.
  - vm_compute. discriminate.
  - vm_compute. discriminate.
  - lia.
Defined.

(** ** The bounds of the loops *)

(** The loops of the encoders are written with a count of turns; the
    lemmas of this section show that the counts given to them are never
    used up: any greater count gives the same result. *)

Lemma hasMore_remaining (ctx : EncoderContext) :
  hasMoreCharacters ctx = true <-> 0 < remainingCharacters ctx.
Proof.
  unfold hasMoreCharacters, remainingCharacters. rewrite Z.ltb_lt. lia.
Qed.

Lemma bind_gets {A B} (f : EncoderContext -> A) (k : A -> M B)
    (ctx : EncoderContext) :
  bind (gets f) k ctx = k (f ctx) ctx.
Proof. reflexivity. Qed.

Ltac open_match :=
  match goal with
  | |- context [match ?x with _ => _ end] =>
      lazymatch x with
      | context [match _ with _ => _ end] => fail
      | _ => destruct x eqn:?
      end
  end.

Lemma Base256_loop_fuel (fuel fuel' : nat) (buffer : list Z) (ctx : EncoderContext) :
  (Z.to_nat (remainingCharacters ctx) <= fuel)%nat ->
  (Z.to_nat (remainingCharacters ctx) <= fuel')%nat ->
  Base256Encoder.encode_loop fuel buffer ctx
  = Base256Encoder.encode_loop fuel' buffer ctx.
Proof.
  revert fuel' buffer ctx. induction fuel as [|fuel IH];
    intros [|fuel'] buffer ctx Hf Hf'; cbn [Base256Encoder.encode_loop];
    rewrite !bind_gets;
    destruct (hasMoreCharacters ctx) eqn:Hmore; try reflexivity;
    apply hasMore_remaining in Hmore; try lia.
  unfold bind, gets, currentChar, lift, throw, setCurrentPos, modify,
    setNewEncoding, ret.
  repeat open_match; try reflexivity.
  apply IH; unfold remainingCharacters, totalMessageCharCount in *;
    cbn [ctx_msg ctx_pos ctx_skipAtEnd with_pos]; lia.
Qed.

Lemma addCodewords_spec (cws : list Z) (ctx : EncoderContext) :
  EdifactEncoder.addCodewords cws ctx = Ok tt (with_codewords cws ctx).
Proof.
  revert ctx. induction cws as [|cw cws IH]; intros ctx;
    cbn [EdifactEncoder.addCodewords].
  - unfold ret. now rewrite with_codewords_nil.
  - unfold bind, addCodeword, modify.
    now rewrite IH, with_codeword_eq, with_codewords_app.
Qed.

Lemma X12_loop_fuel (fuel fuel' : nat) (buffer : list Z) (ctx : EncoderContext) :
  (Z.to_nat (remainingCharacters ctx) <= fuel)%nat ->
  (Z.to_nat (remainingCharacters ctx) <= fuel')%nat ->
  X12Encoder.encode_loop fuel buffer ctx = X12Encoder.encode_loop fuel' buffer ctx.
Proof.
  revert fuel' buffer ctx. induction fuel as [|fuel IH];
    intros [|fuel'] buffer ctx Hf Hf'; cbn [X12Encoder.encode_loop];
    rewrite !bind_gets;
    destruct (hasMoreCharacters ctx) eqn:Hmore; try reflexivity;
    apply hasMore_remaining in Hmore; try lia.
  unfold C40Encoder.WriteNextTriplet, C40Encoder.EncodeToCodewords.
  unfold bind, gets, currentChar, lift, throw, setCurrentPos, addCodeword, modify,
    setNewEncoding, ret.
  repeat open_match; try reflexivity;
    apply IH; unfold remainingCharacters, totalMessageCharCount in *;
    cbn [ctx_msg ctx_pos ctx_skipAtEnd with_pos with_codeword]; lia.
Qed.

Lemma Edifact_loop_fuel (fuel fuel' : nat) (buffer : list Z) (ctx : EncoderContext) :
  (Z.to_nat (remainingCharacters ctx) <= fuel)%nat ->
  (Z.to_nat (remainingCharacters ctx) <= fuel')%nat ->
  EdifactEncoder.encode_loop fuel buffer ctx
  = EdifactEncoder.encode_loop fuel' buffer ctx.
Proof.
  revert fuel' buffer ctx. induction fuel as [|fuel IH];
    intros [|fuel'] buffer ctx Hf Hf'; cbn [EdifactEncoder.encode_loop];
    rewrite !bind_gets;
    destruct (hasMoreCharacters ctx) eqn:Hmore; try reflexivity;
    apply hasMore_remaining in Hmore; try lia.
  unfold bind, gets, currentChar, lift, throw, setCurrentPos, modify,
    setNewEncoding, ret.
  repeat (rewrite ?addCodewords_spec; open_match); try reflexivity;
    apply IH; unfold remainingCharacters, totalMessageCharCount in *;
    cbn [ctx_msg ctx_pos ctx_skipAtEnd with_pos with_codewords]; lia.
Qed.

Lemma C40_loop_fuel (encodeChar : Z -> list Z -> option (Z * list Z))
    (encodingMode : Encodation) (fuel fuel' : nat) (buffer : list Z)
    (ctx : EncoderContext) :
  (Z.to_nat (remainingCharacters ctx) <= fuel)%nat ->
  (Z.to_nat (remainingCharacters ctx) <= fuel')%nat ->
  C40Encoder.encode_loop fuel encodeChar encodingMode buffer ctx
  = C40Encoder.encode_loop fuel' encodeChar encodingMode buffer ctx.
Proof.
  revert fuel' buffer ctx. induction fuel as [|fuel IH];
    intros [|fuel'] buffer ctx Hf Hf'; cbn [C40Encoder.encode_loop];
    rewrite !bind_gets;
    destruct (hasMoreCharacters ctx) eqn:Hmore; try reflexivity;
    apply hasMore_remaining in Hmore; try lia.
  unfold bind, gets, currentChar, lift, throw, setCurrentPos, modify,
    setNewEncoding, ret.
  repeat (match goal with
          | |- context [match updateSymbolInfo ?n ?c with _ => _ end] =>
              let E := fresh "E" in
              destruct (updateSymbolInfo n c) eqn:E;
              [apply updateSymbolInfo_Ok in E; subst|]
          | _ => open_match
          end); try reflexivity;
    apply IH; unfold remainingCharacters, totalMessageCharCount in *;
    cbn [ctx_msg ctx_pos ctx_skipAtEnd with_pos with_symbolInfo]; lia.
Qed.

Lemma msg_at_nonneg (msg : message) (i c : Z) : msg_at msg i = Some c -> 0 <= i.
Proof. unfold msg_at. destruct (Z.ltb_spec i 0); [discriminate|lia]. Qed.

Lemma backtrack_while_fuel
    (available : Z) (fuel fuel' : nat) (buffer removed : list Z)
    (lastCharSize : Z) (ctx : EncoderContext) :
  (Z.to_nat (ctx_pos ctx) + 1 <= fuel)%nat ->
  (Z.to_nat (ctx_pos ctx) + 1 <= fuel')%nat ->
  C40Encoder.backtrack_while fuel available buffer removed
    lastCharSize ctx
  = C40Encoder.backtrack_while fuel' available buffer removed
      lastCharSize ctx.
Proof.
  revert fuel' buffer removed lastCharSize ctx. induction fuel as [|fuel IH];
    intros [|fuel'] buffer removed lastCharSize ctx Hf Hf'; try lia.
  cbn [C40Encoder.backtrack_while].
  destruct (_ && _); [|reflexivity].
  unfold C40Encoder.BacktrackOneCharacter.
  unfold bind, gets, currentChar, lift, throw, setCurrentPos, resetSymbolInfo,
    modify, ret.
  repeat open_match; try reflexivity.
  match goal with
  | H : msg_at _ _ = Some _ |- _ => apply msg_at_nonneg in H; cbn [ctx_pos with_pos] in H
  end.
  apply IH; cbn [ctx_pos with_pos with_symbolInfo]; lia.
Qed.

(** Once the main loop ends within a count of turns, it ends in the same
    way within any greater count: the result of [Encode] does not depend
    on the count it is given. *)
Lemma main_loop_more_fuel (fuel fuel' : nat) (encodingMode : Encodation)
    (ctx : EncoderContext) (r : Result Encodation) :
  (fuel <= fuel')%nat ->
  main_loop fuel encodingMode ctx = Some r ->
  main_loop fuel' encodingMode ctx = Some r.
Proof.
  revert fuel' encodingMode ctx. induction fuel as [|fuel IH];
    intros fuel' encodingMode ctx Hle; cbn [main_loop].
  - destruct fuel'; cbn [main_loop]; destruct (hasMoreCharacters ctx);
      intros H; try discriminate H; exact H.
  - destruct fuel' as [|fuel']; [lia|]. cbn [main_loop].
    destruct (hasMoreCharacters ctx); [|intros H; exact H].
    destruct (dispatch encodingMode ctx) as [[] ctx'|e ctx']; [|intros H; exact H].
    destruct (ctx_newEncoding ctx'); apply IH; lia.
Qed.

Lemma Encode_more_fuel (fuel fuel' : nat) (lookup : Z -> option SymbolInfo)
    (msg : message) (r : Result (list Z)) :
  (fuel <= fuel')%nat ->
  Encode fuel lookup msg = Some r -> Encode fuel' lookup msg = Some r.
Proof.
  intros Hle. unfold Encode.
  destruct (macro_prefix (wide msg) (initial_context lookup msg)) as [[] ctx|e ctx];
    [|intros H; exact H].
  destruct (main_loop fuel ASCII_ENCODATION ctx) as [r0|] eqn:E; [|discriminate].
  rewrite (main_loop_more_fuel _ _ _ _ _ Hle E). intros H; exact H.
Qed.

(** * Further properties of the code *)

(** ** The randomization of codewords *)

Lemma pseudo_random_le (m pos : Z) : 0 < m -> pseudo_random m pos <= m.
Proof.
  intros Hm. unfold pseudo_random.
  pose proof (Z.rem_bound_abs (int_wrap (149 * pos)) m ltac:(lia)). lia.
Qed.

(** Taking the pseudo-random number off gives the octet back, at every
    position. *)
Lemma unrandomize255_Randomize (ch pos : Z) :
  byte_range ch ->
  unrandomize255 (Base256Encoder.Randomize255State ch pos) pos = ch.
Proof.
  unfold byte_range, unrandomize255, Base256Encoder.Randomize255State.
  fold (pseudo_random 255 pos). cbv zeta. intros Hch.
  destruct (Z.leb_spec (ch + pseudo_random 255 pos) 255);
    match goal with |- (if ?t >=? 0 then _ else _) = _ =>
      destruct (Z.geb_spec t 0) end; lia.
Qed.

(** The same for a byte that reaches the function as a [char]. *)
Lemma unrandomize255_char (b pos : Z) :
  byte_range b ->
  unrandomize255 (Base256Encoder.Randomize255State (char_to_int b) pos) pos = b.
Proof.
  unfold byte_range, unrandomize255, Base256Encoder.Randomize255State, char_to_int.
  fold (pseudo_random 255 pos). cbv zeta. intros Hb.
  pose proof (pseudo_random_le 255 pos ltac:(lia)) as Hle.
  destruct (Z.ltb_spec b 128);
    match goal with |- context [?t <=? 255] => destruct (Z.leb_spec t 255) end;
    match goal with |- (if ?t >=? 0 then _ else _) = _ =>
      destruct (Z.geb_spec t 0) end; lia.
Qed.

(** X1: [Randomize255State] can be undone. For a byte [ch] and a
    position from 0 to 14412641, the greatest whose product with 149 is a
    value of [int], the function computes [t = ch + ((149 pos) mod 255) + 1]
    or, above 255, [t - 256]; the codeword is a value from 0 to 255, and
    subtracting the pseudo-random number of the position from it, with
    256 added when the difference is negative, gives [ch] back. *)
Theorem X1_Randomize255State_inverse (ch pos : Z) :
  byte_range ch -> 0 <= pos <= 14412641 ->
  Base256Encoder.Randomize255State ch pos
  = (let t := ch + ((149 * pos) mod 255 + 1) in if t <=? 255 then t else t - 256)
  /\ byte_range (Base256Encoder.Randomize255State ch pos)
  /\ unrandomize255 (Base256Encoder.Randomize255State ch pos) pos = ch.
Proof.
  intros Hch Hpos. split; [|split].
  - unfold Base256Encoder.Randomize255State. fold (pseudo_random 255 pos).
    rewrite pseudo_random_small by (unfold MAX_POSITION; lia). reflexivity.
  - apply Randomize255State_range; [exact Hch|unfold MAX_POSITION; lia].
  - apply unrandomize255_Randomize, Hch.
Qed.

Lemma X1_Randomize255State_inverse_witness :
  Base256Encoder.Randomize255State 200 3 = 137
  /\ byte_range (Base256Encoder.Randomize255State 200 3)
  /\ unrandomize255 (Base256Encoder.Randomize255State 200 3) 3 = 200.
Proof.
  apply (X1_Randomize255State_inverse 200 3); unfold byte_range; lia.
Defined.

Lemma unrandomize253_Randomize (ch pos : Z) :
  1 <= ch <= 254 ->
  unrandomize253 (Randomize253State ch pos) pos = ch.
Proof.
  unfold unrandomize253, Randomize253State.
  fold (pseudo_random 253 pos). cbv zeta. intros Hch.
  destruct (Z.leb_spec (ch + pseudo_random 253 pos) 254);
    match goal with |- (if ?t >=? 1 then _ else _) = _ =>
      destruct (Z.geb_spec t 1) end; lia.
Qed.

(** X2: [Randomize253State] can be undone. For a codeword value [ch]
    from 1 to 254, such as the pad 129, and a position from 0 to
    14412641, the greatest whose product with 149 is a value of [int],
    the function computes [t = ch + ((149 pos) mod 253) + 1] or, above
    254, [t - 254]; the result is a value from 1 to 254, and subtracting
    the pseudo-random number of the position from it, with 254 added when
    the difference is below 1, gives [ch] back. *)
Theorem X2_Randomize253State_inverse (ch pos : Z) :
  1 <= ch <= 254 -> 0 <= pos <= 14412641 ->
  Randomize253State ch pos
  = (let t := ch + ((149 * pos) mod 253 + 1) in if t <=? 254 then t else t - 254)
  /\ 1 <= Randomize253State ch pos <= 254
  /\ unrandomize253 (Randomize253State ch pos) pos = ch.
Proof.
  intros Hch Hpos.
  pose proof (pseudo_random_range 253 pos ltac:(lia)
                ltac:(unfold MAX_POSITION; lia)) as Hpr.
  split; [|split].
  - unfold Randomize253State. fold (pseudo_random 253 pos).
    rewrite pseudo_random_small by (unfold MAX_POSITION; lia). reflexivity.
  - unfold Randomize253State. fold (pseudo_random 253 pos). cbv zeta.
    destruct (Z.leb_spec (ch + pseudo_random 253 pos) 254); lia.
  - apply unrandomize253_Randomize, Hch.
Qed.

Lemma X2_Randomize253State_inverse_witness :
  Randomize253State PAD 5 = 115
  /\ 1 <= Randomize253State PAD 5 <= 254
  /\ unrandomize253 (Randomize253State PAD 5) 5 = PAD.
Proof.
  exact (X2_Randomize253State_inverse PAD 5
           ltac:(unfold PAD; lia) ltac:(lia)).
Defined.

(** ** The packing of values into codewords *)

(** X3: the two codewords of a triplet of C40 values determine the
    triplet. [EncodeToCodewords] adds two codewords [cw1] and [cw2], both
    from 0 to 255, and with [v = 256 cw1 + cw2 - 1] the three values are
    [v / 1600], [(v / 40) % 40] and [v % 40]. *)
Theorem X3_C40_triplet_unpacks (c1 c2 c3 : Z) (rest : list Z) (ctx : EncoderContext) :
  c40_value c1 -> c40_value c2 -> c40_value c3 ->
  exists cw1 cw2,
    C40Encoder.EncodeToCodewords (c1 :: c2 :: c3 :: rest) ctx
    = Ok tt (with_codewords [cw1; cw2] ctx)
    /\ byte_range cw1 /\ byte_range cw2
    /\ (256 * cw1 + cw2 - 1) / 1600 = c1
    /\ ((256 * cw1 + cw2 - 1) / 40) mod 40 = c2
    /\ (256 * cw1 + cw2 - 1) mod 40 = c3.
Proof.
  unfold c40_value, byte_range. intros H1 H2 H3.
  set (v := 1600 * c1 + 40 * c2 + c3 + 1).
  exists (v / 256), (v mod 256).
  split.
  { unfold C40Encoder.EncodeToCodewords, bind, addCodeword, modify. fold v.
    now rewrite !with_codeword_eq, with_codewords_app. }
  assert (256 * (v / 256) + v mod 256 - 1 = 1600 * c1 + 40 * c2 + c3) as ->
    by (rewrite <- Z.div_mod by lia; unfold v; lia).
  pose proof (Z.mod_pos_bound v 256 ltac:(lia)).
  assert (0 <= v / 256 < 251).
  { split; [apply Z.div_pos; unfold v; lia|].
    apply Z.div_lt_upper_bound; unfold v; lia. }
  repeat split; try lia.
  - symmetry. apply Z.div_unique with (r := 40 * c2 + c3); lia.
  - replace ((1600 * c1 + 40 * c2 + c3) / 40) with (40 * c1 + c2)
      by (apply Z.div_unique with (r := c3); lia).
    symmetry. apply Z.mod_unique with (q := c1); lia.
  - symmetry. apply Z.mod_unique with (q := 40 * c1 + c2); lia.
Qed.

Lemma X3_C40_triplet_unpacks_witness :
  exists cw1 cw2,
    C40Encoder.EncodeToCodewords [14; 15; 16] (initial_context ecc200 [])
    = Ok tt (with_codewords [cw1; cw2] (initial_context ecc200 []))
    /\ byte_range cw1 /\ byte_range cw2
    /\ (256 * cw1 + cw2 - 1) / 1600 = 14
    /\ ((256 * cw1 + cw2 - 1) / 40) mod 40 = 15
    /\ (256 * cw1 + cw2 - 1) mod 40 = 16.
Proof.
  apply (X3_C40_triplet_unpacks 14 15 16 [] (initial_context ecc200 []));
    unfold c40_value; lia.
Defined.

Lemma land_255_mod (v : Z) : Z.land v 255 = v mod 256.
Proof. change 255 with (Z.ones 8). rewrite Z.land_ones by lia. reflexivity. Qed.

(** X4: the three codewords of four EDIFACT values determine the values.
    For four values of six bits [EncodeToCodewords] returns three
    codewords, each from 0 to 255, that hold the 24 bits of the values in
    their order: the first value is [cw1 / 4], the second
    [(cw1 % 4) * 16 + cw2 / 16], the third [(cw2 % 16) * 4 + cw3 / 64] and
    the fourth [cw3 % 64]. *)
Theorem X4_Edifact_quadruple_unpacks (c1 c2 c3 c4 : Z) (rest : list Z) :
  edifact_value c1 -> edifact_value c2 -> edifact_value c3 -> edifact_value c4 ->
  exists cw1 cw2 cw3,
    EdifactEncoder.EncodeToCodewords (c1 :: c2 :: c3 :: c4 :: rest)
    = Some [cw1; cw2; cw3]
    /\ byte_range cw1 /\ byte_range cw2 /\ byte_range cw3
    /\ cw1 / 4 = c1
    /\ (cw1 mod 4) * 16 + cw2 / 16 = c2
    /\ (cw2 mod 16) * 4 + cw3 / 64 = c3
    /\ cw3 mod 64 = c4.
Proof.
  unfold edifact_value, byte_range. intros H1 H2 H3 H4.
  set (v := Z.shiftl c1 18 + Z.shiftl c2 12 + Z.shiftl c3 6 + c4).
  exists (Z.land (Z.shiftr v 16) 255), (Z.land (Z.shiftr v 8) 255), (Z.land v 255).
  split.
  { unfold EdifactEncoder.EncodeToCodewords.
    rewrite !len_cons. pose proof (len_nonneg rest) as Hr.
    replace (1 + (1 + (1 + (1 + len rest))) =? 0) with false
      by (symmetry; apply Z.eqb_neq; lia).
    replace (1 + (1 + (1 + (1 + len rest))) >=? 2) with true
      by (symmetry; apply Z.geb_le; lia).
    replace (1 + (1 + (1 + (1 + len rest))) >=? 3) with true
      by (symmetry; apply Z.geb_le; lia).
    replace (1 + (1 + (1 + (1 + len rest))) >=? 4) with true
      by (symmetry; apply Z.geb_le; lia).
    reflexivity. }
  rewrite !land_255_mod, !Z.shiftr_div_pow2 by lia.
  assert (v = 262144 * c1 + 4096 * c2 + 64 * c3 + c4) as ->
    by (unfold v; rewrite !Z.shiftl_mul_pow2 by lia; lia).
  change (2 ^ 16) with 65536. change (2 ^ 8) with 256.
  Z.div_mod_to_equations. lia.
Qed.

Lemma X4_Edifact_quadruple_unpacks_witness :
  exists cw1 cw2 cw3,
    EdifactEncoder.EncodeToCodewords [1; 2; 3; 4] = Some [cw1; cw2; cw3]
    /\ byte_range cw1 /\ byte_range cw2 /\ byte_range cw3
    /\ cw1 / 4 = 1
    /\ (cw1 mod 4) * 16 + cw2 / 16 = 2
    /\ (cw2 mod 16) * 4 + cw3 / 64 = 3
    /\ cw3 mod 64 = 4.
Proof.
  apply (X4_Edifact_quadruple_unpacks 1 2 3 4 []); unfold edifact_value; lia.
Defined.

(** X5: [EdifactEncoder::EncodeToCodewords] throws for the empty buffer
    only, and returns one codeword for a buffer of one value, two for two
    values, and three for three values or more. *)
Theorem X5_Edifact_EncodeToCodewords_count (sb : list Z) :
  match EdifactEncoder.EncodeToCodewords sb with
  | None => sb = []
  | Some cws => sb <> [] /\ len cws = Z.min (len sb) 3
  end.
Proof.
  destruct sb as [|c1 [|c2 [|c3 rest]]];
    [reflexivity | split; [discriminate|reflexivity]
    | split; [discriminate|reflexivity] | ].
  unfold EdifactEncoder.EncodeToCodewords.
  rewrite !len_cons. pose proof (len_nonneg rest) as Hr.
  replace (1 + (1 + (1 + len rest)) =? 0) with false
    by (symmetry; apply Z.eqb_neq; lia).
  replace (1 + (1 + (1 + len rest)) >=? 2) with true
    by (symmetry; apply Z.geb_le; lia).
  replace (1 + (1 + (1 + len rest)) >=? 3) with true
    by (symmetry; apply Z.geb_le; lia).
  split; [discriminate|].
  cbn [app]. rewrite !len_cons. change (len []) with 0. lia.
Qed.

(** X6: the codeword of a pair of digits determines the pair.
    [EncodeASCIIDigits] returns a codeword from 130 to 229 for two digits,
    and with [n = cw - 130] the digits are ['0' + n / 10] and
    ['0' + n % 10]. *)
Theorem X6_EncodeASCIIDigits_pair (digit1 digit2 : Z) :
  IsDigit digit1 = true -> IsDigit digit2 = true ->
  let cw := ASCIIEncoder.EncodeASCIIDigits digit1 digit2 in
  130 <= cw <= 229
  /\ 48 + (cw - 130) / 10 = digit1
  /\ 48 + (cw - 130) mod 10 = digit2.
Proof.
  unfold ASCIIEncoder.EncodeASCIIDigits. intros H1 H2. rewrite H1, H2.
  unfold IsDigit in H1, H2.
  apply andb_true_iff in H1, H2. rewrite !Z.leb_le in H1, H2.
  cbn [andb]. cbv zeta.
  Z.div_mod_to_equations. lia.
Qed.

Lemma X6_EncodeASCIIDigits_pair_witness :
  130 <= ASCIIEncoder.EncodeASCIIDigits 52 50 <= 229
  /\ 48 + (ASCIIEncoder.EncodeASCIIDigits 52 50 - 130) / 10 = 52
  /\ 48 + (ASCIIEncoder.EncodeASCIIDigits 52 50 - 130) mod 10 = 50.
Proof. apply (X6_EncodeASCIIDigits_pair 52 50); reflexivity. Defined.

(** ** The values of the characters *)

Lemma in_all_ascii (a : ascii) : In a all_ascii.
Proof.
  unfold all_ascii. rewrite <- (ascii_nat_embedding a).
  apply in_map, in_seq. pose proof (nat_ascii_bounded a). lia.
Qed.

(** A test that holds for the 256 characters holds for every character. *)
Lemma forall_ascii (P : ascii -> bool) :
  forallb P all_ascii = true -> forall a, P a = true.
Proof.
  intros H a. rewrite forallb_forall in H. apply H, in_all_ascii.
Qed.

(** The same for pairs of characters. *)
Lemma forall_ascii2 (P : ascii -> ascii -> bool) :
  forallb (fun a => forallb (P a) all_ascii) all_ascii = true ->
  forall a b, P a b = true.
Proof.
  intros H a b. apply forall_ascii with (a := a) in H.
  now apply forall_ascii with (a := b) in H.
Qed.

Lemma prefixb_app (l t : list Z) : prefixb l (l ++ t) = true.
Proof.
  induction l as [|x l IH]; [reflexivity|].
  cbn. now rewrite Z.eqb_refl, IH.
Qed.

(** The buffer [sb] is a prefix of the result, and plays no other role. *)
Lemma C40_EncodeChar_depth_app (depth : nat) (c : Z) (sb : list Z) :
  C40Encoder.EncodeChar_depth depth c sb
  = match C40Encoder.EncodeChar_depth depth c [] with
    | Some (n, vs) => Some (n, sb ++ vs)
    | None => None
    end.
Proof.
  revert c sb. induction depth as [|depth IH]; intros c sb;
    cbn [C40Encoder.EncodeChar_depth];
    repeat match goal with
           | |- context [if ?b then _ else _] => destruct b; [reflexivity|]
           end; try reflexivity.
  destruct (128 <=? c); [|reflexivity].
  rewrite (IH _ (sb ++ [1; 30])), (IH _ ([] ++ [1; 30])).
  destruct (C40Encoder.EncodeChar_depth depth ((c - 128) mod 256) [])
    as [[n vs]|]; [|reflexivity].
  now rewrite <- app_assoc.
Qed.

Lemma Text_EncodeChar_depth_app (depth : nat) (c : Z) (sb : list Z) :
  DMTextEncoder.EncodeChar_depth depth c sb
  = match DMTextEncoder.EncodeChar_depth depth c [] with
    | Some (n, vs) => Some (n, sb ++ vs)
    | None => None
    end.
Proof.
  revert c sb. induction depth as [|depth IH]; intros c sb;
    cbn [DMTextEncoder.EncodeChar_depth];
    repeat match goal with
           | |- context [if ?b then _ else _] => destruct b; [reflexivity|]
           end; try reflexivity.
  destruct (128 <=? c); [|reflexivity].
  rewrite (IH _ (sb ++ [1; 30])), (IH _ ([] ++ [1; 30])).
  destruct (DMTextEncoder.EncodeChar_depth depth ((c - 128) mod 256) [])
    as [[n vs]|]; [|reflexivity].
  now rewrite <- app_assoc.
Qed.

Lemma EncodeChar_test_spec (encodeChar : Z -> list Z -> option (Z * list Z))
    (native : Z -> bool) (a : ascii) :
  EncodeChar_test encodeChar native a = true ->
  exists n vs,
    encodeChar (code a) [] = Some (n, vs)
    /\ n = len vs /\ 1 <= n <= 4 /\ Forall c40_value vs
    /\ (native (code a) = true <-> n = 1)
    /\ (128 <= code a <-> 2 < n).
Proof.
  unfold EncodeChar_test.
  destruct (encodeChar (code a) []) as [[n vs]|]; [|discriminate].
  rewrite !andb_true_iff, Z.eqb_eq, !Z.leb_le, forallb_forall.
  intros [[[[[Hn Hlo] Hhi] Hvs] Hnat] Hext].
  exists n, vs. repeat split; try assumption.
  - apply Forall_forall. intros v Hv. apply Hvs in Hv.
    apply andb_true_iff in Hv. rewrite !Z.leb_le in Hv. exact Hv.
  - intros H. rewrite H in Hnat. apply eqb_prop in Hnat.
    symmetry in Hnat. now apply Z.eqb_eq.
  - intros H. apply Z.eqb_eq in H. rewrite H in Hnat.
    now apply eqb_prop in Hnat.
  - intros H. apply Z.leb_le in H. rewrite H in Hext. apply eqb_prop in Hext.
    symmetry in Hext. now apply Z.ltb_lt.
  - intros H. apply Z.ltb_lt in H. rewrite H in Hext.
    apply eqb_prop in Hext. now apply Z.leb_le.
Qed.

(** X7: [C40Encoder::EncodeChar] never throws on a character. It appends
    to the buffer, and returns the count [n] of the values it appended,
    from 1 to 4, each of them a C40 value. The count is 1 exactly for the
    characters that the look-ahead test counts as native C40, and above 2
    exactly for the characters from 128 on. *)
Theorem X7_C40_EncodeChar_total (a : ascii) (sb : list Z) :
  exists n vs,
    C40Encoder.EncodeChar (code a) sb = Some (n, sb ++ vs)
    /\ n = len vs /\ 1 <= n <= 4 /\ Forall c40_value vs
    /\ (IsNativeC40 (code a) = true <-> n = 1)
    /\ (128 <= code a <-> 2 < n).
Proof.
  destruct (EncodeChar_test_spec C40Encoder.EncodeChar IsNativeC40 a)
    as (n & vs & Henc & H).
  - revert a. apply forall_ascii. vm_compute. reflexivity.
  - exists n, vs. split; [|exact H].
    unfold C40Encoder.EncodeChar in *.
    now rewrite C40_EncodeChar_depth_app, Henc.
Qed.

(** X8: [DMTextEncoder::EncodeChar] never throws on a character. It
    appends to the buffer, and returns the count [n] of the values it
    appended, from 1 to 4, each of them a C40 value. The count is 1
    exactly for the characters that the look-ahead test counts as native
    Text, and above 2 exactly for the characters from 128 on. *)
Theorem X8_Text_EncodeChar_total (a : ascii) (sb : list Z) :
  exists n vs,
    DMTextEncoder.EncodeChar (code a) sb = Some (n, sb ++ vs)
    /\ n = len vs /\ 1 <= n <= 4 /\ Forall c40_value vs
    /\ (IsNativeText (code a) = true <-> n = 1)
    /\ (128 <= code a <-> 2 < n).
Proof.
  destruct (EncodeChar_test_spec DMTextEncoder.EncodeChar IsNativeText a)
    as (n & vs & Henc & H).
  - revert a. apply forall_ascii. vm_compute. reflexivity.
  - exists n, vs. split; [|exact H].
    unfold DMTextEncoder.EncodeChar in *.
    now rewrite Text_EncodeChar_depth_app, Henc.
Qed.

Lemma prefix_test_spec (encodeChar : Z -> list Z -> option (Z * list Z))
    (a b : ascii) (n m : Z) (va t : list Z) :
  prefix_test encodeChar a b = true ->
  encodeChar (code a) [] = Some (n, va) ->
  encodeChar (code b) [] = Some (m, va ++ t) ->
  a = b.
Proof.
  unfold prefix_test. intros H Ha Hb. rewrite Ha, Hb, prefixb_app in H.
  cbn in H. now apply Ascii.eqb_eq.
Qed.

(** X9: the C40 values of the characters form a prefix code. When the
    values of a character begin with the values of another, the two
    characters are the same: a sequence of C40 values is the encoding of
    one sequence of characters at most. *)
Theorem X9_C40_prefix_code (a b : ascii) (n m : Z) (va t : list Z) :
  C40Encoder.EncodeChar (code a) [] = Some (n, va) ->
  C40Encoder.EncodeChar (code b) [] = Some (m, va ++ t) ->
  a = b.
Proof.
  apply prefix_test_spec. revert a b. apply forall_ascii2.
  vm_compute. reflexivity.
Qed.

Lemma X9_C40_prefix_code_witness :
  C40Encoder.EncodeChar (code "A") [] = Some (1, [14]) /\ "A"%char = "A"%char.
Proof.
  split; [reflexivity|].
  apply (X9_C40_prefix_code "A" "A" 1 1 [14] []); reflexivity.
Defined.

(** X10: the Text values of the characters form a prefix code. When the
    values of a character begin with the values of another, the two
    characters are the same. *)
Theorem X10_Text_prefix_code (a b : ascii) (n m : Z) (va t : list Z) :
  DMTextEncoder.EncodeChar (code a) [] = Some (n, va) ->
  DMTextEncoder.EncodeChar (code b) [] = Some (m, va ++ t) ->
  a = b.
Proof.
  apply prefix_test_spec. revert a b. apply forall_ascii2.
  vm_compute. reflexivity.
Qed.

Lemma X10_Text_prefix_code_witness :
  DMTextEncoder.EncodeChar (code "a") [] = Some (1, [14]) /\ "a"%char = "a"%char.
Proof.
  split; [reflexivity|].
  apply (X10_Text_prefix_code "a" "a" 1 1 [14] []); reflexivity.
Defined.

(** X11: [X12Encoder::EncodeChar] accepts the characters that the
    look-ahead test counts as native X12, and no others. For such a
    character it appends one C40 value and returns 1; for any other it
    throws. Two characters with the same value are the same. *)
Theorem X11_X12_EncodeChar_native (c : Z) (sb : list Z) :
  (if IsNativeX12 c
   then exists v, X12Encoder.EncodeChar c sb = Some (1, sb ++ [v])
                  /\ c40_value v
                  /\ forall c', X12Encoder.EncodeChar c' sb = Some (1, sb ++ [v]) ->
                                 c' = c
   else X12Encoder.EncodeChar c sb = None).
Proof.
  unfold IsNativeX12, IsX12TermSep, X12Encoder.EncodeChar, c40_value.
  assert (forall c' sb' v,
            (if c' =? 13 then Some (1, sb ++ [0])
             else if c' =? 42 then Some (1, sb ++ [1])
             else if c' =? 62 then Some (1, sb ++ [2])
             else if c' =? 32 then Some (1, sb ++ [3])
             else if (48 <=? c') && (c' <=? 57) then Some (1, sb ++ [c' - 48 + 4])
             else if (65 <=? c') && (c' <=? 90) then Some (1, sb ++ [c' - 65 + 14])
             else None) = Some (1, sb' ++ [v]) ->
            (c' = 13 /\ v = 0) \/ (c' = 42 /\ v = 1) \/ (c' = 62 /\ v = 2)
            \/ (c' = 32 /\ v = 3) \/ (48 <= c' <= 57 /\ v = c' - 48 + 4)
            \/ (65 <= c' <= 90 /\ v = c' - 65 + 14)) as Hinv.
  { intros c' sb' v.
    destruct (Z.eqb_spec c' 13); [|destruct (Z.eqb_spec c' 42);
      [|destruct (Z.eqb_spec c' 62); [|destruct (Z.eqb_spec c' 32);
      [|destruct (Z.leb_spec 48 c'), (Z.leb_spec c' 57); cbn [andb];
        [|destruct (Z.leb_spec 65 c'), (Z.leb_spec c' 90); cbn [andb]..]]]]];
      try discriminate;
      intros Henc; injection Henc as Henc; apply app_inj_tail in Henc;
      destruct Henc as [_ Henc]; lia. }
  destruct (Z.eqb_spec c 13); [|destruct (Z.eqb_spec c 42);
    [|destruct (Z.eqb_spec c 62); [|destruct (Z.eqb_spec c 32);
    [|destruct (Z.leb_spec 48 c), (Z.leb_spec c 57); cbn [andb orb];
      [|destruct (Z.leb_spec 65 c), (Z.leb_spec c 90); cbn [andb orb]..]]]]];
    try reflexivity;
    (eexists; split; [reflexivity|split; [lia|]];
     intros c' Henc; apply Hinv in Henc; lia).
Qed.

(** X12: [EdifactEncoder::EncodeChar] accepts the characters that the
    look-ahead test counts as native EDIFACT, those from 32 to 94, and no
    others. For such a character it appends the low six bits of the
    character, the value [c % 64], from which the character is
    [c = v < 32 ? v + 64 : v]; for any other it throws. *)
Theorem X12_Edifact_EncodeChar_native (c : Z) (sb : list Z) :
  (if IsNativeEDIFACT c
   then EdifactEncoder.EncodeChar c sb = Some (sb ++ [c mod 64])
        /\ edifact_value (c mod 64)
        /\ (if c mod 64 <? 32 then c mod 64 + 64 else c mod 64) = c
   else EdifactEncoder.EncodeChar c sb = None).
Proof.
  unfold IsNativeEDIFACT, EdifactEncoder.EncodeChar, edifact_value.
  destruct (Z.leb_spec 32 c), (Z.leb_spec c 94); cbn [andb];
    destruct (Z.leb_spec c 63); destruct (Z.leb_spec 64 c); cbn [andb];
    try lia; try reflexivity.
  - assert (c mod 64 = c) as -> by (apply Z.mod_small; lia).
    destruct (Z.ltb_spec c 32); [lia|]. repeat split; lia.
  - assert (c mod 64 = c - 64) as ->
      by (symmetry; apply Z.mod_unique with (q := 1); lia).
    destruct (Z.ltb_spec (c - 64) 32); [|lia]. repeat split; lia.
Qed.

(** ** The look-ahead test *)

(** X13: [FindMinimums], called with [INT_MAX] as the look-ahead test
    calls it, returns the least of the six counts; it leaves 1 in [mins]
    for each mode whose count is the least and 0 for the others, so that
    the sum of [mins] is the number of modes that attain the minimum, at
    least 1. *)
Theorem X13_FindMinimums_least (intCharCounts : array6 Z) :
  int_range intCharCounts ->
  let min := fst (FindMinimums intCharCounts INT_MAX) in
  let mins := snd (FindMinimums intCharCounts INT_MAX) in
  (forall i, min <= get6 intCharCounts i)
  /\ (exists i, get6 intCharCounts i = min)
  /\ (forall i, get6 mins i = if get6 intCharCounts i =? min then 1 else 0)
  /\ 1 <= sum6 mins <= 6.
Proof.
  intros Hr. rewrite (FindMinimums_spec _ Hr). cbn [fst snd].
  split; [apply min6_le|]. split; [apply min6_attained|].
  split; [intros i; rewrite get6_map6; reflexivity|].
  destruct (min6_attained intCharCounts) as [k Hk].
  generalize dependent (min6 intCharCounts). intros m Hk.
  destruct intCharCounts as [a b c d e f].
  unfold sum6, all_modes, fold_left, map6.
  cbn [get6 at_ascii at_c40 at_text at_x12 at_edifact at_base256] in *.
  destruct k; cbn in Hk; subst m; rewrite ?Z.eqb_refl;
    repeat match goal with
           | |- context [?x =? ?y] => destruct (x =? y)
           end; lia.
Qed.

Lemma X13_FindMinimums_least_witness :
  int_range (Array6 3 2 4 2 5 6)
  /\ 1 <= sum6 (snd (FindMinimums (Array6 3 2 4 2 5 6) INT_MAX)) <= 6.
Proof.
  assert (int_range (Array6 3 2 4 2 5 6)) as H
    by (intros i; destruct i; vm_compute; discriminate).
  exact (conj H (proj2 (proj2 (proj2
           (X13_FindMinimums_least (Array6 3 2 4 2 5 6) H))))).
Defined.

Lemma msg_from_shift (pre tail : list ascii) (p : Z) :
  0 <= p -> msg_from (pre ++ tail) (msg_length pre + p) = msg_from tail p.
Proof.
  intros Hp. unfold msg_from, msg_length.
  replace (Z.to_nat (Z.of_nat (List.length pre) + p))
    with (List.length pre + Z.to_nat p)%nat by lia.
  rewrite skipn_app, skipn_all2 by lia.
  replace (List.length pre + Z.to_nat p - List.length pre)%nat
    with (Z.to_nat p) by lia.
  reflexivity.
Qed.

Lemma stepR_shift (pre tail : list ascii) (charsProcessed : Z)
    (charCounts : array6 F32.t) :
  0 <= charsProcessed ->
  stepR (pre ++ tail) (msg_length pre) charsProcessed charCounts
  = stepR tail 0 charsProcessed charCounts.
Proof.
  intros Hcp. unfold stepR.
  replace (msg_length pre + charsProcessed + 1)
    with (msg_length pre + (0 + charsProcessed + 1)) by lia.
  rewrite msg_from_shift by lia. reflexivity.
Qed.

Lemma LookAheadLoop_shift (pre tail rest : list ascii) (charsProcessed : Z)
    (charCounts : array6 F32.t) :
  0 <= charsProcessed ->
  LookAheadLoop (pre ++ tail) (msg_length pre) rest charsProcessed charCounts
  = LookAheadLoop tail 0 rest charsProcessed charCounts.
Proof.
  revert charsProcessed charCounts.
  induction rest as [|ch rest IH]; intros cp counts Hcp; [reflexivity|].
  cbn [LookAheadLoop]. rewrite stepR_shift, IH by lia. reflexivity.
Qed.

Lemma LookAheadTest_shift (pre tail : list ascii) (currentMode : Encodation) :
  LookAheadTest (pre ++ tail) (msg_length pre) currentMode
  = LookAheadTest tail 0 currentMode.
Proof.
  unfold LookAheadTest.
  assert (0 <= msg_length pre) as Hpre by (unfold msg_length; lia).
  destruct (Z.ltb_spec (msg_length pre) 0) as [|_]; [lia|].
  change (0 <? 0) with false. cbn [orb].
  assert (msg_length (pre ++ tail) = msg_length pre + msg_length tail) as Hlen
    by (unfold msg_length; rewrite length_app; lia).
  rewrite Hlen.
  destruct (Z.geb_spec 0 (msg_length tail)) as [Hz|Hz];
    destruct (Z.geb_spec (msg_length pre) (msg_length pre + msg_length tail));
    try lia; [reflexivity|].
  rewrite LookAheadLoop_shift by lia.
  replace (msg_length pre) with (msg_length pre + 0) at 1 by lia.
  rewrite msg_from_shift by lia. reflexivity.
Qed.

(** X14: the look-ahead test reads the message from [startpos] on, and
    nothing before it: its answer at the index that follows the
    characters [pre] is its answer at the index 0 of the message without
    them. *)
Theorem X14_LookAheadTest_reads_forward (pre tail : list ascii)
    (currentMode : Encodation) :
  LookAheadTest (pre ++ tail) (msg_length pre) currentMode
  = LookAheadTest tail 0 currentMode.
Proof. apply LookAheadTest_shift. Qed.

Lemma LookAheadTest_one (a : ascii) :
  Encodation_eqb (LookAheadTest [a] 0 ASCII_ENCODATION) ASCII_ENCODATION = true.
Proof. revert a. apply forall_ascii. vm_compute. reflexivity. Qed.

Lemma LookAheadTest_last (pre : list ascii) (a : ascii) :
  LookAheadTest (pre ++ [a]) (msg_length pre) ASCII_ENCODATION = ASCII_ENCODATION.
Proof. rewrite LookAheadTest_shift. apply Encodation_eqb_eq, LookAheadTest_one. Qed.

(** X15: at the last character of a message the look-ahead test started
    in ASCII mode answers ASCII, whatever the character is: the ASCII
    encoder never leaves ASCII mode for the last character alone. *)
Theorem X15_LookAheadTest_last_character (pre : list ascii) (a : ascii) :
  LookAheadTest (pre ++ [a]) (msg_length pre) ASCII_ENCODATION = ASCII_ENCODATION.
Proof. apply LookAheadTest_last. Qed.

(** X16: the forward scan of the C40/X12 tie-break answers X12 or C40,
    and X12 exactly when the characters it reads hold an X12 terminator or
    separator (13, ['*'] or ['>']) with nothing but other native X12
    characters before it. *)
Theorem X16_x12Scan_finds_separator (tail : list ascii) :
  (x12Scan tail = X12_ENCODATION \/ x12Scan tail = C40_ENCODATION)
  /\ (x12Scan tail = X12_ENCODATION
      <-> exists pre c post,
            tail = pre ++ c :: post
            /\ Forall scan_passes pre
            /\ IsX12TermSep (code c) = true).
Proof.
  induction tail as [|ch tail [IHor IHiff]].
  - split; [right; reflexivity|]. split; [discriminate|].
    intros (pre & c & post & H & _). destruct pre; discriminate.
  - cbn [x12Scan]. rewrite IsX12TermSep_char, IsNativeX12_char.
    destruct (IsX12TermSep (code ch)) eqn:Hsep.
    + split; [left; reflexivity|]. split; [|reflexivity].
      intros _. exists [], ch, tail. repeat split; [constructor|exact Hsep].
    + destruct (IsNativeX12 (code ch)) eqn:Hnat; cbn [negb].
      * split; [exact IHor|]. rewrite IHiff. split.
        -- intros (pre & c & post & -> & Hpre & Hc).
           exists (ch :: pre), c, post. repeat split; try assumption.
           constructor; [split; assumption|assumption].
        -- intros (pre & c & post & Heq & Hpre & Hc).
           destruct pre as [|p pre]; cbn in Heq; injection Heq as <- ->.
           ++ congruence.
           ++ exists pre, c, post. inversion Hpre. repeat split; assumption.
      * split; [right; reflexivity|]. split; [discriminate|].
        intros (pre & c & post & Heq & Hpre & Hc).
        destruct pre as [|p pre]; cbn in Heq; injection Heq as <- ->.
        -- congruence.
        -- inversion Hpre as [|? ? [_ Hp] ?]. congruence.
Qed.

(** ** The macro headers *)

Lemma wide_eqb_eq (a b : list Z) : wide_eqb a b = true <-> a = b.
Proof.
  revert b. induction a as [|x a IH]; intros [|y b]; cbn;
    try (split; [reflexivity|reflexivity]); try (split; discriminate).
  rewrite andb_true_iff, Z.eqb_eq, IH. split.
  - intros [-> ->]. reflexivity.
  - intros H. injection H as -> ->. split; reflexivity.
Qed.

Lemma StartsWith_EndsWith_iff (s ss : list Z) :
  (StartsWith s ss = true <-> exists t, t <> [] /\ s = ss ++ t)
  /\ (EndsWith s ss = true <-> exists t, t <> [] /\ s = t ++ ss).
Proof.
  unfold StartsWith, EndsWith.
  rewrite !andb_true_iff, !wide_eqb_eq, !Z.gtb_lt. unfold len. split; split.
  - intros [Hlen Heq]. exists (skipn (List.length ss) s). split.
    + intros Hnil. apply (f_equal (@List.length Z)) in Hnil.
      rewrite length_skipn in Hnil. cbn in Hnil. lia.
    + rewrite <- Heq at 1. symmetry. apply firstn_skipn.
  - intros (t & Hne & ->). rewrite length_app, firstn_app, firstn_all.
    replace (List.length ss - List.length ss)%nat with O by lia.
    cbn [firstn]. rewrite app_nil_r. split; [|reflexivity].
    destruct t; [contradiction|cbn; lia].
  - intros [Hlen Heq]. exists (firstn (List.length s - List.length ss) s). split.
    + intros Hnil. apply (f_equal (@List.length Z)) in Hnil.
      rewrite length_firstn in Hnil. cbn in Hnil. lia.
    + rewrite <- Heq at 2. symmetry. apply firstn_skipn.
  - intros (t & Hne & ->). rewrite length_app.
    replace (List.length t + List.length ss - List.length ss)%nat
      with (List.length t) by lia.
    rewrite skipn_app, skipn_all. replace (List.length t - List.length t)%nat with O by lia.
    cbn [skipn app]. split; [|reflexivity].
    destruct t; [contradiction|cbn; lia].
Qed.

(** X17: [StartsWith] and [EndsWith] hold for a proper prefix and a
    proper suffix only: the string is longer than the part it is compared
    with, so that a string does not start or end with itself. *)
Theorem X17_StartsWith_proper (s ss : list Z) :
  (StartsWith s ss = true <-> exists t, t <> [] /\ s = ss ++ t)
  /\ (EndsWith s ss = true <-> exists t, t <> [] /\ s = t ++ ss).
Proof. apply StartsWith_EndsWith_iff. Qed.

Lemma StartsWith_macro (msg : message) (header : list Z) :
  header = MACRO_05_HEADER \/ header = MACRO_06_HEADER ->
  StartsWith (wide msg) header = false.
Proof.
  intros Hh. apply not_true_is_false. intros Hs.
  apply StartsWith_EndsWith_iff in Hs.
  destruct Hs as (t & _ & Heq).
  destruct msg as [|a1 [|a2 [|a3 [|a4 rest]]]];
    destruct Hh as [-> | ->]; try discriminate;
    cbn in Heq; injection Heq as _ _ _ H4 _;
    pose proof (code_range a4) as Hr; unfold byte_range in Hr; lia.
Qed.

Lemma macro_prefix_wide (msg : message) (ctx : EncoderContext) :
  macro_prefix (wide msg) ctx = Ok tt ctx.
Proof.
  unfold macro_prefix.
  rewrite !StartsWith_macro by (left + right; reflexivity). reflexivity.
Qed.

(** X18: for a message of ISO-8859-1 characters neither macro header is
    found. The fourth character of the headers, as the wide string
    literals give it, is the character [0x1E05] or [0x1E06], which no
    octet equals: the encoder adds no macro codeword 236 or 237, skips no
    trailer, and starts at the first character. *)
Theorem X18_macro_header_never_found (msg : message) (ctx : EncoderContext) :
  StartsWith (wide msg) MACRO_05_HEADER = false
  /\ StartsWith (wide msg) MACRO_06_HEADER = false
  /\ macro_prefix (wide msg) ctx = Ok tt ctx.
Proof.
  split; [|split].
  - apply StartsWith_macro. left. reflexivity.
  - apply StartsWith_macro. right. reflexivity.
  - apply macro_prefix_wide.
Qed.

(** ** Messages that stay in ASCII mode *)

Lemma skipn_cons_nth {A} (n : nat) (l : list A) (a : A) (r : list A) :
  skipn n l = a :: r -> nth_error l n = Some a /\ skipn (S n) l = r.
Proof.
  revert l. induction n as [|n IH]; intros l H.
  - destruct l; [discriminate|]. cbn in H. injection H as -> ->.
    split; reflexivity.
  - destruct l as [|x l]; [discriminate|]. cbn [skipn] in H.
    destruct (IH l H) as [Hn Hs]. split; [exact Hn|].
    exact Hs.
Qed.

(** The character at the index [p] and the characters after it. *)
Lemma msg_from_cons (msg : message) (p : Z) (a : ascii) (r : list ascii) :
  0 <= p -> msg_from msg p = a :: r ->
  msg_at msg p = Some (code a) /\ msg_from msg (p + 1) = r
  /\ p < msg_length msg
  /\ exists pre, msg = pre ++ a :: r /\ msg_length pre = p.
Proof.
  intros Hp H. unfold msg_from in *. unfold msg_at.
  destruct (Z.ltb_spec p 0); [lia|].
  destruct (skipn_cons_nth _ _ _ _ H) as [Hn Hs].
  rewrite Hn. replace (Z.to_nat (p + 1)) with (S (Z.to_nat p)) by lia.
  assert (Z.to_nat p < List.length msg)%nat as Hlt
    by (apply nth_error_Some; rewrite Hn; discriminate).
  repeat split; try assumption.
  - unfold msg_length. lia.
  - exists (firstn (Z.to_nat p) msg). split.
    + rewrite <- H. symmetry. apply firstn_skipn.
    + unfold msg_length. rewrite length_firstn. lia.
Qed.

Lemma msg_from_nil (msg : message) (p : Z) :
  msg_from msg p = [] -> msg_length msg <= Z.max p 0.
Proof.
  unfold msg_from, msg_length. intros H.
  apply (f_equal (@List.length ascii)) in H. rewrite length_skipn in H.
  cbn in H. lia.
Qed.

Lemma leading_digits_nonneg (tail : list ascii) : 0 <= ASCIIEncoder.leading_digits tail.
Proof.
  induction tail as [|ch tail IH]; cbn [ASCIIEncoder.leading_digits]; [lia|].
  destruct (IsDigit (code ch)); lia.
Qed.

(** The ASCII encoder at two digits. *)
Lemma EncodeASCII_pair (ctx : EncoderContext) (d1 d2 : ascii) (r : list ascii) :
  0 <= ctx_pos ctx ->
  msg_from (ctx_msg ctx) (ctx_pos ctx) = d1 :: d2 :: r ->
  IsDigit (code d1) = true -> IsDigit (code d2) = true ->
  ASCIIEncoder.EncodeASCII ctx
  = Ok tt (with_pos (ctx_pos ctx + 2)
             (with_codeword (130 + 10 * (code d1 - 48) + (code d2 - 48)) ctx)).
Proof.
  intros Hpos Hfrom H1 H2.
  destruct (msg_from_cons _ _ _ _ Hpos Hfrom) as (Hat1 & Hfrom1 & _ & _).
  destruct (msg_from_cons (ctx_msg ctx) (ctx_pos ctx + 1) d2 r ltac:(lia) Hfrom1)
    as (Hat2 & _ & _ & _).
  unfold ASCIIEncoder.EncodeASCII. rewrite !bind_gets.
  unfold ASCIIEncoder.DetermineConsecutiveDigitCount. rewrite Hfrom.
  cbn [ASCIIEncoder.leading_digits]. rewrite H1.
  cbn [ASCIIEncoder.leading_digits]. rewrite H2.
  pose proof (leading_digits_nonneg r) as Hr.
  replace (1 + (1 + ASCIIEncoder.leading_digits r) >=? 2) with true
    by (symmetry; apply Z.geb_le; lia).
  unfold bind, currentChar, nextChar. rewrite Hat1. cbn [lift]. unfold ret.
  rewrite Hat2. cbn [lift]. unfold ret. cbv beta iota.
  unfold addCodeword, setCurrentPos, modify, ASCIIEncoder.EncodeASCIIDigits.
  rewrite H1, H2. cbn [andb].
  replace ((code d1 - 48) * 10 + (code d2 - 48) + 130)
    with (130 + 10 * (code d1 - 48) + (code d2 - 48)) by lia.
  reflexivity.
Qed.

(** The ASCII encoder at the last character of the message. *)
Lemma EncodeASCII_last (ctx : EncoderContext) (a : ascii) :
  0 <= ctx_pos ctx ->
  msg_from (ctx_msg ctx) (ctx_pos ctx) = [a] ->
  ASCIIEncoder.EncodeASCII ctx
  = Ok tt (with_pos (ctx_pos ctx + 1) (with_codewords (ascii_codewords a) ctx)).
Proof.
  intros Hpos Hfrom.
  destruct (msg_from_cons _ _ _ _ Hpos Hfrom) as (Hat & _ & _ & pre & Hmsg & Hpre).
  assert (LookAheadTest (ctx_msg ctx) (ctx_pos ctx) ASCII_ENCODATION
          = ASCII_ENCODATION) as Hla
    by (rewrite Hmsg, <- Hpre; apply LookAheadTest_last).
  unfold ASCIIEncoder.EncodeASCII. rewrite !bind_gets.
  unfold ASCIIEncoder.DetermineConsecutiveDigitCount. rewrite Hfrom.
  cbn [ASCIIEncoder.leading_digits].
  replace ((if IsDigit (code a) then 1 + 0 else 0) >=? 2) with false
    by (destruct (IsDigit (code a)); reflexivity).
  unfold bind at 1. unfold currentChar. rewrite Hat. cbn [lift]. unfold ret.
  rewrite Hla. cbn [Encodation_eqb negb].
  pose proof (code_range a) as Hr. unfold byte_range in Hr.
  unfold IsExtendedASCII, ascii_codewords.
  replace (code a <=? 255) with true by (symmetry; apply Z.leb_le; lia).
  rewrite andb_true_r.
  destruct (128 <=? code a);
    unfold bind, addCodeword, setCurrentPos, modify, UPPER_SHIFT;
    rewrite !with_codeword_eq, ?with_codewords_app; cbn [app];
    try reflexivity;
    replace (code a - 128 + 1) with (code a - 127) by lia; reflexivity.
Qed.

Lemma main_loop_turn (fuel : nat) (encodingMode : Encodation)
    (ctx ctx' : EncoderContext) :
  hasMoreCharacters ctx = true ->
  dispatch encodingMode ctx = Ok tt ctx' ->
  ctx_newEncoding ctx' = None ->
  main_loop (S fuel) encodingMode ctx = main_loop fuel encodingMode ctx'.
Proof.
  intros Hmore Hd Hne. cbn [main_loop]. rewrite Hmore, Hd, Hne. reflexivity.
Qed.

Lemma main_loop_end (fuel : nat) (encodingMode : Encodation) (ctx : EncoderContext) :
  hasMoreCharacters ctx = false ->
  main_loop fuel encodingMode ctx = Some (Ok encodingMode ctx).
Proof. intros Hmore. destruct fuel; cbn [main_loop]; rewrite Hmore; reflexivity. Qed.

(** Lists, two elements at a time. *)
Lemma list_pair_ind {A} (P : list A -> Prop) :
  P [] -> (forall a, P [a]) -> (forall a b l, P l -> P (a :: b :: l)) ->
  forall l, P l.
Proof.
  intros H0 H1 H2.
  assert (forall l, P l /\ forall a, P (a :: l)) as H.
  { induction l as [|b l [IHl IHa]]; [split; [exact H0|exact H1]|].
    split; [apply IHa|]. intros a. apply H2, IHl. }
  intros l. apply H.
Qed.

Lemma len_digit_codewords (ds : list ascii) :
  len (digit_codewords ds) = (msg_length ds + 1) / 2.
Proof.
  induction ds as [| a | a b l IH] using list_pair_ind; try reflexivity.
  cbn [digit_codewords]. rewrite len_cons, IH. unfold msg_length.
  cbn [List.length].
  replace (Z.of_nat (S (S (List.length l))) + 1)
    with (1 * 2 + (Z.of_nat (List.length l) + 1)) by lia.
  rewrite Z.div_add_l by lia. lia.
Qed.

(** The main loop in ASCII mode on the digits [ds]. *)
Lemma main_loop_digits (ds : list ascii) :
  Forall (fun d => IsDigit (code d) = true) ds ->
  forall (fuel : nat) (ctx : EncoderContext),
    (List.length ds <= fuel)%nat ->
    0 <= ctx_pos ctx ->
    msg_from (ctx_msg ctx) (ctx_pos ctx) = ds ->
    ctx_skipAtEnd ctx = 0 ->
    ctx_newEncoding ctx = None ->
    main_loop fuel ASCII_ENCODATION ctx
    = Some (Ok ASCII_ENCODATION
              (with_pos (ctx_pos ctx + msg_length ds)
                 (with_codewords (digit_codewords ds) ctx))).
Proof.
  induction ds as [| a | d1 d2 ds IH] using list_pair_ind;
    intros Hds fuel ctx Hfuel Hpos Hfrom Hskip Hnew.
  - apply msg_from_nil in Hfrom.
    rewrite main_loop_end
      by (unfold hasMoreCharacters, totalMessageCharCount; apply Z.ltb_ge; lia).
    destruct ctx as [m l p c ne si sk]. unfold with_pos, with_codewords.
    cbn [ctx_msg ctx_lookup ctx_pos ctx_codewords ctx_newEncoding
         ctx_symbolInfo ctx_skipAtEnd digit_codewords msg_length List.length].
    rewrite app_nil_r, Z.add_0_r. reflexivity.
  - destruct fuel as [|fuel]; [cbn in Hfuel; lia|].
    destruct (msg_from_cons _ _ _ _ Hpos Hfrom) as (_ & Hnext & Hlt & _).
    assert (hasMoreCharacters ctx = true) as Hmore
      by (unfold hasMoreCharacters, totalMessageCharCount; apply Z.ltb_lt; lia).
    rewrite (main_loop_turn fuel ASCII_ENCODATION ctx _ Hmore
               (EncodeASCII_last ctx a Hpos Hfrom) Hnew).
    apply msg_from_nil in Hnext.
    rewrite main_loop_end
      by (unfold hasMoreCharacters, totalMessageCharCount; cbn; apply Z.ltb_ge; lia).
    inversion Hds as [|? ? Ha _]; subst.
    unfold ascii_codewords. unfold IsDigit in Ha.
    apply andb_true_iff in Ha. rewrite !Z.leb_le in Ha.
    destruct (Z.leb_spec 128 (code a)); [lia|]. reflexivity.
  - destruct fuel as [|fuel]; [cbn in Hfuel; lia|].
    inversion Hds as [|? ? H1 Hds']; subst.
    inversion Hds' as [|? ? H2 Hds'']; subst.
    destruct (msg_from_cons _ _ _ _ Hpos Hfrom) as (_ & Hnext & Hlt & _).
    destruct (msg_from_cons (ctx_msg ctx) (ctx_pos ctx + 1) d2 ds ltac:(lia) Hnext)
      as (_ & Hnext2 & _ & _).
    assert (hasMoreCharacters ctx = true) as Hmore
      by (unfold hasMoreCharacters, totalMessageCharCount; apply Z.ltb_lt; lia).
    rewrite (main_loop_turn fuel ASCII_ENCODATION ctx _ Hmore
               (EncodeASCII_pair ctx d1 d2 ds Hpos Hfrom H1 H2) Hnew).
    rewrite IH; try assumption.
    + destruct ctx as [m l p c ne si sk].
      unfold with_pos, with_codewords, with_codeword, msg_length.
      cbn [ctx_msg ctx_lookup ctx_pos ctx_codewords ctx_newEncoding
           ctx_symbolInfo ctx_skipAtEnd digit_codewords List.length].
      rewrite <- app_assoc. do 3 f_equal. lia.
    + cbn in Hfuel. lia.
    + cbn. lia.
    + cbn [with_pos with_codeword ctx_msg ctx_pos].
      replace (ctx_pos ctx + 2) with (ctx_pos ctx + 1 + 1) by lia. exact Hnext2.
Qed.

(** The codewords of a message that the main loop encodes in ASCII mode
    into the codewords [cws]. *)
Lemma Encode_in_ASCII (fuel : nat) (lookup : Z -> option SymbolInfo)
    (msg : message) (p : Z) (cws : list Z) (s : SymbolInfo) :
  main_loop fuel ASCII_ENCODATION (initial_context lookup msg)
  = Some (Ok ASCII_ENCODATION
            (with_pos p (with_codewords cws (initial_context lookup msg)))) ->
  lookup (len cws) = Some s ->
  let capacity := dataCapacity s in
  let pad := first_pad capacity cws in
  let n := len (cws ++ pad) in
  output (Encode fuel lookup msg)
  = Some (cws ++ pad ++ padding (Z.to_nat (capacity - n)) n).
Proof.
  intros Hloop Hs capacity pad n.
  unfold Encode. rewrite macro_prefix_wide, Hloop.
  set (ctx := with_pos p (with_codewords cws (initial_context lookup msg))).
  assert (updateSymbolInfo (codewordCount ctx) ctx
          = Ok s (with_symbolInfo (Some s) ctx)) as Hupd.
  { unfold updateSymbolInfo, ctx, codewordCount.
    cbn [ctx_symbolInfo ctx_lookup ctx_codewords with_pos with_codewords
         initial_context app].
    rewrite Hs. reflexivity. }
  destruct (finish_spec ASCII_ENCODATION ctx _ s Hupd) as (ctx' & Hfin & _).
  rewrite Hfin. cbn [output]. f_equal.
  unfold ctx, written_unlatch.
  cbn [ctx_codewords with_pos with_codewords initial_context app needs_unlatch].
  rewrite andb_false_r. cbn [unlatch_if app]. rewrite app_nil_r. reflexivity.
Qed.

(** X19: a message of digits is encoded in ASCII mode alone. The
    codewords are [130 + 10 d1 + d2] for each pair of digits [d1], [d2]
    in turn, and the last digit plus one when the count of digits is odd;
    then, when the symbol that the catalog gives for their count has room,
    the pad 129 and the randomized pads up to its capacity. No latch and
    no unlatch is written, and the empty message gives the pads alone. *)
Theorem X19_Encode_digits (ds : list ascii) (lookup : Z -> option SymbolInfo)
    (fuel : nat) (s : SymbolInfo) :
  Forall (fun d => IsDigit (code d) = true) ds ->
  (List.length ds <= fuel)%nat ->
  lookup (len (digit_codewords ds)) = Some s ->
  let capacity := dataCapacity s in
  let cws := digit_codewords ds in
  let pad := first_pad capacity cws in
  let n := len (cws ++ pad) in
  output (Encode fuel lookup ds)
  = Some (cws ++ pad ++ padding (Z.to_nat (capacity - n)) n)
  /\ len cws = (msg_length ds + 1) / 2.
Proof.
  intros Hds Hfuel Hs capacity cws pad n.
  split; [|apply len_digit_codewords].
  apply (Encode_in_ASCII fuel lookup ds (0 + msg_length ds) cws s); [|exact Hs].
  apply (main_loop_digits ds Hds fuel (initial_context lookup ds) Hfuel);
    try reflexivity; cbn; lia.
Qed.

Lemma X19_Encode_digits_witness :
  output (Encode 7 ecc200 (msg_of "1234567")) = Some [142; 164; 186; 56; 129].
Proof.
  refine (proj1 (X19_Encode_digits (msg_of "1234567") ecc200 7
                   (Build_SymbolInfo 5) _ _ _)).
  - repeat constructor.
  - cbn. lia.
  - reflexivity.
Defined.

(** X20: a message of one character is encoded in ASCII mode: the
    codeword is the character plus one, or the upper shift 235 and the
    character minus 127 for a character from 128 on; then, when the symbol
    that the catalog gives for this count has room, the pad 129 and the
    randomized pads up to its capacity. *)
Theorem X20_Encode_single_character (a : ascii) (lookup : Z -> option SymbolInfo)
    (fuel : nat) (s : SymbolInfo) :
  lookup (len (ascii_codewords a)) = Some s ->
  let capacity := dataCapacity s in
  let cws := ascii_codewords a in
  let pad := first_pad capacity cws in
  let n := len (cws ++ pad) in
  output (Encode (S fuel) lookup [a])
  = Some (cws ++ pad ++ padding (Z.to_nat (capacity - n)) n).
Proof.
  intros Hs capacity cws pad n.
  apply (Encode_in_ASCII (S fuel) lookup [a] (0 + 1) cws s); [|exact Hs].
  rewrite (main_loop_turn fuel ASCII_ENCODATION (initial_context lookup [a])
             (with_pos (0 + 1)
                (with_codewords (ascii_codewords a) (initial_context lookup [a])))).
  - apply main_loop_end. reflexivity.
  - reflexivity.
  - apply (EncodeASCII_last (initial_context lookup [a]) a); [cbn; lia|reflexivity].
  - reflexivity.
Qed.

Lemma X20_Encode_single_character_witness :
  output (Encode 1 ecc200 ["233"%char]) = Some [235; 106; 129].
Proof.
  apply (X20_Encode_single_character "233"%char ecc200 0 (Build_SymbolInfo 3)).
  reflexivity.
Defined.

(** ** The mode after the C40 and Text encoders *)

Lemma bind_Ok {A B} (c : M A) (k : A -> M B) (ctx ctx' : EncoderContext) (b : B) :
  bind c k ctx = Ok b ctx' ->
  exists a ctx1, c ctx = Ok a ctx1 /\ k a ctx1 = Ok b ctx'.
Proof.
  unfold bind. destruct (c ctx) as [a ctx1|e ctx1]; [|discriminate].
  intros H. exists a, ctx1. split; [reflexivity|exact H].
Qed.

(** X21: when the encoder of the C40 and Text modes returns, the mode it
    asks for is ASCII, whatever mode its look-ahead test chose: the end
    of data handler, which runs last, sets it. *)
Theorem X21_EncodeC40_returns_to_ASCII
    (encodeChar : Z -> list Z -> option (Z * list Z)) (encodingMode : Encodation)
    (ctx ctx' : EncoderContext) :
  C40Encoder.EncodeC40_with encodeChar encodingMode ctx = Ok tt ctx' ->
  ctx_newEncoding ctx' = Some ASCII_ENCODATION.
Proof.
  unfold C40Encoder.EncodeC40_with. intros H.
  apply bind_Ok in H. destruct H as (remaining & ctx1 & _ & H).
  apply bind_Ok in H. destruct H as (buffer & ctx2 & _ & H).
  unfold C40Encoder.HandleEOD in H.
  apply bind_Ok in H. destruct H as (count & ctx3 & _ & H).
  apply bind_Ok in H. destruct H as (symbolInfo & ctx4 & _ & H).
  apply bind_Ok in H. destruct H as (u & ctx5 & _ & H).
  unfold setNewEncoding, modify in H. injection H as <-. reflexivity.
Qed.

Lemma X21_EncodeC40_returns_to_ASCII_witness :
  ctx_newEncoding
    (mkContext (msg_of "ABC>ab") ecc200 3 [230; 89; 233; 254] (Some ASCII_ENCODATION)
       (Some (Build_SymbolInfo 3)) 0)
  = Some ASCII_ENCODATION.
Proof.
  apply (X21_EncodeC40_returns_to_ASCII C40Encoder.EncodeChar C40_ENCODATION
           (mkContext (msg_of "ABC>ab") ecc200 0 [230] None None 0)).
  vm_compute. reflexivity.
Defined.

(** ** The text of the exception messages *)

Lemma hex_digit_value (k : Z) :
  0 <= k < 16 -> hex_value (nth (Z.to_nat k) hex_digits "000"%char) = Some k.
Proof.
  intros Hk.
  assert (k = 0 \/ k = 1 \/ k = 2 \/ k = 3 \/ k = 4 \/ k = 5 \/ k = 6 \/ k = 7
          \/ k = 8 \/ k = 9 \/ k = 10 \/ k = 11 \/ k = 12 \/ k = 13 \/ k = 14
          \/ k = 15) as H by lia.
  repeat (destruct H as [-> | H]; [reflexivity|]). subst k. reflexivity.
Qed.

(** X22: [ToHexString] writes the low octet of its argument: the string
    is ["0x"] and two hexadecimal digits, the first of the value [h] and
    the second of the value [l] with [16 h + l = c mod 256]. *)
Theorem X22_ToHexString_octet (c : Z) :
  exists d1 d2 h l,
    ToHexString c = ["0"%char; "x"%char; d1; d2]
    /\ hex_value d1 = Some h /\ hex_value d2 = Some l
    /\ 16 * h + l = c mod 256.
Proof.
  unfold ToHexString.
  assert (Z.land (Z.shiftr c 4) 15 = (c / 16) mod 16) as ->.
  { change 15 with (Z.ones 4). rewrite Z.land_ones, Z.shiftr_div_pow2 by lia.
    reflexivity. }
  assert (Z.land c 15 = c mod 16) as ->.
  { change 15 with (Z.ones 4). rewrite Z.land_ones by lia. reflexivity. }
  do 2 eexists. exists ((c / 16) mod 16), (c mod 16).
  split; [reflexivity|].
  split; [apply hex_digit_value, Z.mod_pos_bound; lia|].
  split; [apply hex_digit_value, Z.mod_pos_bound; lia|].
  Z.div_mod_to_equations. lia.
Qed.

(** ** The symbol versions *)

(** X23: the count of codewords of a version is the count of its data
    codewords and, for each of its blocks, the error-correction codewords
    of a block. *)
Theorem X23_Version_totalCodewords (v : Version.t) :
  let e := Version.ecBlocks v in
  Version.totalCodewords v
  = Version.count (Version.blocks0 e) * Version.dataCodewords (Version.blocks0 e)
    + Version.count (Version.blocks1 e) * Version.dataCodewords (Version.blocks1 e)
    + Version.numBlocks e * Version.codewordsPerBlock e.
Proof.
  unfold Version.totalCodewords, Version.totalDataCodewords, Version.numBlocks.
  cbv zeta. lia.
Qed.

(** X24: the width of the data of a version is the greatest multiple of
    the width of a data block that the width of the symbol holds, for a
    width of the symbol that is not negative and a width of the block
    that is positive; the same holds for the heights. *)
Theorem X24_Version_dataWidth (v : Version.t) :
  0 <= Version.symbolWidth v -> 0 < Version.dataBlockWidth v ->
  0 <= Version.symbolHeight v -> 0 < Version.dataBlockHeight v ->
  (Version.dataWidth v <= Version.symbolWidth v
                       < Version.dataWidth v + Version.dataBlockWidth v
   /\ Version.dataWidth v mod Version.dataBlockWidth v = 0)
  /\ (Version.dataHeight v <= Version.symbolHeight v
                           < Version.dataHeight v + Version.dataBlockHeight v
      /\ Version.dataHeight v mod Version.dataBlockHeight v = 0).
Proof.
  unfold Version.dataWidth, Version.dataHeight. intros Hw Hbw Hh Hbh.
  rewrite !Z.quot_div_nonneg by lia. rewrite !Z.mod_mul by lia.
  pose proof (Z.div_mod (Version.symbolWidth v) (Version.dataBlockWidth v)
                ltac:(lia)).
  pose proof (Z.mod_pos_bound (Version.symbolWidth v) (Version.dataBlockWidth v)
                ltac:(lia)).
  pose proof (Z.div_mod (Version.symbolHeight v) (Version.dataBlockHeight v)
                ltac:(lia)).
  pose proof (Z.mod_pos_bound (Version.symbolHeight v) (Version.dataBlockHeight v)
                ltac:(lia)).
  nia.
Qed.

Lemma X24_Version_dataWidth_witness :
  Version.dataWidth
    (Version.Build_t 25 36 38 16 18
       (Version.Build_ECBlocks 42 (Version.Build_ECB 1 86) (Version.Build_ECB 0 0)))
  mod 18 = 0.
Proof.
  apply (X24_Version_dataWidth
           (Version.Build_t 25 36 38 16 18
              (Version.Build_ECBlocks 42 (Version.Build_ECB 1 86)
                 (Version.Build_ECB 0 0))));
    cbn; lia.
Defined.

(** ** The Base 256 encoder *)

Lemma nth_error_skipn_cons {A} (n : nat) (l : list A) (a : A) :
  nth_error l n = Some a -> skipn n l = a :: skipn (S n) l.
Proof.
  revert l. induction n as [|n IH]; intros [|x l] H; try discriminate.
  - cbn in H. injection H as ->. reflexivity.
  - cbn [nth_error] in H. apply IH in H. exact H.
Qed.

(** The character that [msg.at(p)] returns heads the characters from [p]
    on. *)
Lemma msg_at_from (msg : message) (p c : Z) :
  msg_at msg p = Some c ->
  0 <= p /\ exists a, code a = c /\ msg_from msg p = a :: msg_from msg (p + 1).
Proof.
  unfold msg_at, msg_from. destruct (Z.ltb_spec p 0) as [|Hp]; [discriminate|].
  destruct (nth_error msg (Z.to_nat p)) as [a|] eqn:E; [|discriminate].
  cbn. intros H. injection H as <-. split; [assumption|].
  exists a. split; [reflexivity|].
  replace (Z.to_nat (p + 1)) with (S (Z.to_nat p)) by lia.
  apply nth_error_skipn_cons, E.
Qed.

(** The loop of the Base 256 encoder copies the characters from the
    cursor on into the buffer, moves the cursor past them, and changes
    nothing else of the context but the mode it asks for. *)
Lemma Base256_loop_copies (fuel : nat) (buffer buffer' : list Z)
    (ctx ctx' : EncoderContext) :
  Base256Encoder.encode_loop fuel buffer ctx = Ok buffer' ctx' ->
  exists data newEncoding,
    buffer' = buffer ++ map code data
    /\ msg_from (ctx_msg ctx) (ctx_pos ctx)
       = data ++ msg_from (ctx_msg ctx) (ctx_pos ctx + msg_length data)
    /\ ctx' = with_newEncoding newEncoding
                (with_pos (ctx_pos ctx + msg_length data) ctx).
Proof.
  revert buffer ctx. induction fuel as [|fuel IH]; intros buffer ctx.
  - cbn. unfold bind, gets, ret. intros H.
    assert (buffer' = buffer /\ ctx' = ctx) as [-> ->]
      by (destruct (hasMoreCharacters ctx); inversion H; split; reflexivity).
    exists [], (ctx_newEncoding ctx). rewrite app_nil_r.
    destruct ctx as [m l p c ne si sk]. unfold with_newEncoding, with_pos.
    cbn. rewrite Z.add_0_r. repeat split.
  - cbn [Base256Encoder.encode_loop]. rewrite bind_gets.
    destruct (hasMoreCharacters ctx).
    + intros H. apply bind_Ok in H. destruct H as (c & ctx1 & Hc & H).
      unfold currentChar in Hc.
      destruct (msg_at (ctx_msg ctx) (ctx_pos ctx)) as [c0|] eqn:Hat;
        [|discriminate].
      cbn in Hc. injection Hc as <- <-.
      destruct (msg_at_from _ _ _ Hat) as (Hpos & a & <- & Hfrom).
      rewrite bind_gets in H. unfold bind at 1 in H.
      unfold setCurrentPos, modify in H. rewrite !bind_gets in H.
      cbn [ctx_msg ctx_pos with_pos] in H.
      match type of H with
      | (if ?b then _ else _) _ = _ => destruct b
      end.
      * unfold bind, setNewEncoding, modify, ret in H. injection H as <- <-.
        exists [a]. eexists. change (msg_length [a]) with 1.
        split; [reflexivity|split; [exact Hfrom|reflexivity]].
      * apply IH in H. destruct H as (data & ne' & -> & Hdata & ->).
        cbn [ctx_msg ctx_pos with_pos] in Hdata.
        exists (a :: data), ne'. rewrite <- app_assoc. cbn [map app].
        assert (msg_length (a :: data) = 1 + msg_length data) as Hlen
          by (unfold msg_length; cbn [List.length]; lia).
        repeat split.
        -- rewrite Hfrom, Hdata, Hlen. do 3 f_equal. lia.
        -- rewrite Hlen. destruct ctx as [m l p c ne si sk].
           unfold with_newEncoding, with_pos.
           cbn [ctx_msg ctx_lookup ctx_pos ctx_codewords ctx_newEncoding
                ctx_symbolInfo ctx_skipAtEnd].
           f_equal. lia.
    + unfold ret. intros H. injection H as <- <-.
      exists [], (ctx_newEncoding ctx). rewrite app_nil_r.
      destruct ctx as [m l p c ne si sk]. unfold with_newEncoding, with_pos.
      cbn. rewrite Z.add_0_r. repeat split.
Qed.

(** X25: what the Base 256 encoder writes when it returns. It takes
    characters [data] from the cursor on and moves the cursor past them;
    the codewords it adds are the randomized bytes of a length field and
    of the characters, in their order, each byte read as a [char] (a byte
    [b] from 128 on as [b - 256]) before the pseudo-random number of its
    position is added. The length field is the byte 0, or
    the count of the characters when that is at most 249, or two bytes
    [b0] from 250 to 255 and [b1] from 0 to 249 with
    [250 (b0 - 249) + b1] the count of the characters. *)
Theorem X25_EncodeBase256_writes (ctx ctx' : EncoderContext) :
  Base256Encoder.EncodeBase256 ctx = Ok tt ctx' ->
  exists data field,
    msg_from (ctx_msg ctx) (ctx_pos ctx)
    = data ++ msg_from (ctx_msg ctx) (ctx_pos ctx')
    /\ ctx_pos ctx' = ctx_pos ctx + msg_length data
    /\ ctx_codewords ctx'
       = ctx_codewords ctx
         ++ randomized255 (codewordCount ctx) (field ++ map code data)
    /\ (field = [0]
        \/ (field = [msg_length data] /\ msg_length data <= 249)
        \/ exists b0 b1,
             field = [b0; b1] /\ 250 <= b0 <= 255 /\ 0 <= b1 <= 249
             /\ 250 * (b0 - 249) + b1 = msg_length data).
Proof.
  unfold Base256Encoder.EncodeBase256. rewrite bind_gets. intros H.
  apply bind_Ok in H. destruct H as (buffer & ctx1 & Hloop & H).
  apply Base256_loop_copies in Hloop.
  destruct Hloop as (data & ne & -> & Hdata & ->).
  rewrite bind_gets in H.
  apply bind_Ok in H. destruct H as (s & ctx2 & Hupd & H).
  apply updateSymbolInfo_Ok in Hupd. subst ctx2.
  rewrite bind_gets in H.
  apply bind_Ok in H. destruct H as (buffer2 & ctx3 & Hfield & H).
  rewrite emit_spec in H. injection H as <-.
  assert (len ([0] ++ map code data) - 1 = msg_length data) as Hcount.
  { unfold len, msg_length. rewrite length_app, length_map.
    cbn [List.length]. lia. }
  rewrite Hcount in Hfield.
  assert (0 <= msg_length data) as Hnn by (unfold msg_length; lia).
  exists data.
  set (ctx2 := with_symbolInfo (Some s)
                 (with_newEncoding ne
                    (with_pos (ctx_pos ctx + msg_length data) ctx))) in *.
  assert (exists field,
             buffer2 = field ++ map code data /\ ctx3 = ctx2
             /\ (field = [0]
                 \/ (field = [msg_length data] /\ msg_length data <= 249)
                 \/ exists b0 b1,
                      field = [b0; b1] /\ 250 <= b0 <= 255 /\ 0 <= b1 <= 249
                      /\ 250 * (b0 - 249) + b1 = msg_length data))
    as (field & -> & -> & Hcases).
  { revert Hfield.
    match goal with
    | |- (if ?b then _ else _) _ = _ -> _ => destruct b
    end.
    - destruct (Z.leb_spec (msg_length data) 249) as [Hle|Hgt].
      + cbn [app lift Base256Encoder.set_first]. unfold ret.
        intros H. injection H as <- <-.
        exists [msg_length data]. repeat split. right. left. split; [reflexivity|lia].
      + destruct (Z.gtb_spec (msg_length data) 249) as [_|]; [|lia].
        destruct (Z.leb_spec (msg_length data) 1555) as [Hhi|Hhi];
          cbn [andb]; [|discriminate].
        unfold bind. cbn [app lift Base256Encoder.set_first]. unfold ret.
        cbn [lift Base256Encoder.insert_second]. unfold ret.
        intros H. injection H as <- <-.
        exists [msg_length data / 250 + 249; msg_length data mod 250].
        repeat split. right. right. do 2 eexists. split; [reflexivity|].
        Z.div_mod_to_equations. lia.
    - unfold ret. intros H. injection H as <- <-.
      exists [0]. repeat split. left. reflexivity. }
  exists field. unfold ctx2, codewordCount.
  cbn [ctx_pos ctx_msg ctx_codewords with_codewords with_symbolInfo
       with_newEncoding with_pos].
  repeat split; try exact Hcases. exact Hdata.
Qed.

Lemma X25_EncodeBase256_writes_witness :
  exists data field,
    msg_from ["171"; "228"; "246"; "252"; "233"; "224"; "187"]%char 0
    = data ++ msg_from ["171"; "228"; "246"; "252"; "233"; "224"; "187"]%char 7
    /\ 7 = 0 + msg_length data
    /\ [231; 51; 108; 59; 226; 126; 1; 141; -2]
       = [231] ++ randomized255 1 (field ++ map code data)
    /\ (field = [0]
        \/ (field = [msg_length data] /\ msg_length data <= 249)
        \/ exists b0 b1,
             field = [b0; b1] /\ 250 <= b0 <= 255 /\ 0 <= b1 <= 249
             /\ 250 * (b0 - 249) + b1 = msg_length data).
Proof.
  apply (X25_EncodeBase256_writes
           (mkContext ["171"; "228"; "246"; "252"; "233"; "224"; "187"]%char ecc200 0
              [231] None None 0)
           (mkContext ["171"; "228"; "246"; "252"; "233"; "224"; "187"]%char
              ecc200 7 [231; 51; 108; 59; 226; 126; 1; 141; -2] None
              (Some (Build_SymbolInfo 10)) 0)).
  vm_compute. reflexivity.
Defined.

(** ** The codewords are only appended to *)

Lemma appends_refl (ctx : EncoderContext) : appends ctx ctx.
Proof. repeat split. exists []. now rewrite app_nil_r. Qed.

Lemma appends_trans (ctx1 ctx2 ctx3 : EncoderContext) :
  appends ctx1 ctx2 -> appends ctx2 ctx3 -> appends ctx1 ctx3.
Proof.
  intros (Hm1 & Hl1 & Hs1 & l1 & Hc1) (Hm2 & Hl2 & Hs2 & l2 & Hc2).
  repeat split; try congruence.
  exists (l1 ++ l2). rewrite Hc2, Hc1. now rewrite app_assoc.
Qed.

Lemma appending_ret {A} (a : A) : appending (ret a).
Proof. intros ctx. apply appends_refl. Qed.

Lemma appending_throw {A} (e : Exception) : appending (@throw A e).
Proof. intros ctx. apply appends_refl. Qed.

Lemma appending_gets {A} (f : EncoderContext -> A) : appending (gets f).
Proof. intros ctx. apply appends_refl. Qed.

Lemma appending_lift {A} (e : Exception) (o : option A) : appending (lift e o).
Proof. destruct o; [apply appending_ret|apply appending_throw]. Qed.

Lemma appending_bind {A B} (c : M A) (k : A -> M B) :
  appending c -> (forall a, appending (k a)) -> appending (bind c k).
Proof.
  intros Hc Hk ctx. unfold bind. specialize (Hc ctx).
  destruct (c ctx) as [a ctx'|e ctx']; cbn [context_of] in *; [|exact Hc].
  exact (appends_trans _ _ _ Hc (Hk a ctx')).
Qed.

Lemma appending_by_value {A} (c : M A) : appending (by_value c).
Proof.
  intros ctx. unfold by_value. destruct (c ctx); apply appends_refl.
Qed.

Lemma appending_setCurrentPos (p : Z) : appending (setCurrentPos p).
Proof. intros ctx. repeat split. exists []. cbn. now rewrite app_nil_r. Qed.

Lemma appending_setNewEncoding (e : Encodation) : appending (setNewEncoding e).
Proof. intros ctx. repeat split. exists []. cbn. now rewrite app_nil_r. Qed.

Lemma appending_resetSymbolInfo : appending resetSymbolInfo.
Proof. intros ctx. repeat split. exists []. cbn. now rewrite app_nil_r. Qed.

Lemma appending_addCodeword (cw : Z) : appending (addCodeword cw).
Proof. intros ctx. repeat split. exists [cw]. reflexivity. Qed.

Lemma appending_updateSymbolInfo (n : Z) : appending (updateSymbolInfo n).
Proof.
  intros ctx. destruct (updateSymbolInfo n ctx) as [s ctx'|e ctx'] eqn:E.
  - apply updateSymbolInfo_Ok in E. subst ctx'.
    repeat split. exists []. cbn. now rewrite app_nil_r.
  - apply updateSymbolInfo_Throw in E. destruct E as [_ ->]. apply appends_refl.
Qed.

Lemma appending_currentChar : appending currentChar.
Proof. intros ctx. unfold currentChar. apply appending_lift. Qed.

Lemma appending_nextChar : appending nextChar.
Proof. intros ctx. unfold nextChar. apply appending_lift. Qed.

Create HintDb appending.

#[local] Hint Resolve appending_ret appending_throw appending_gets appending_lift
  appending_by_value appending_setCurrentPos appending_setNewEncoding
  appending_resetSymbolInfo appending_addCodeword appending_updateSymbolInfo
  appending_currentChar appending_nextChar : appending.

(** One step through a computation, by its head. *)
Ltac astep :=
  lazymatch goal with
  | |- appending (bind _ _) => apply appending_bind; [|intros ?]
  | |- appending (if ?b then _ else _) => destruct b
  | |- appending (match ?x with _ => _ end) => destruct x
  | |- appending _ => solve [eauto with appending]
  end.

Ltac asteps := repeat astep.

Lemma appending_EncodeASCII : appending ASCIIEncoder.EncodeASCII.
Proof. unfold ASCIIEncoder.EncodeASCII. asteps. Qed.

Lemma appending_WriteNextTriplet (buffer : list Z) :
  appending (C40Encoder.WriteNextTriplet buffer).
Proof.
  unfold C40Encoder.WriteNextTriplet, C40Encoder.EncodeToCodewords. asteps.
Qed.

#[local] Hint Resolve appending_WriteNextTriplet : appending.

Lemma appending_write_triplets (fuel : nat) (buffer : list Z) :
  appending (C40Encoder.write_triplets fuel buffer).
Proof.
  revert buffer. induction fuel as [|fuel IH]; intros buffer;
    cbn [C40Encoder.write_triplets]; asteps.
Qed.

Lemma appending_WriteTriplets (buffer : list Z) :
  appending (C40Encoder.WriteTriplets buffer).
Proof. apply appending_write_triplets. Qed.

#[local] Hint Resolve appending_WriteTriplets : appending.

Lemma appending_C40_HandleEOD (buffer : list Z) :
  appending (C40Encoder.HandleEOD buffer).
Proof. unfold C40Encoder.HandleEOD. asteps. Qed.

Section AppendingC40.

Variable encodeChar : Z -> list Z -> option (Z * list Z).

Lemma appending_Backtrack (buffer removed : list Z) (lastCharSize : Z) :
  appending (C40Encoder.BacktrackOneCharacter buffer removed lastCharSize).
Proof. unfold C40Encoder.BacktrackOneCharacter. asteps. Qed.

Lemma appending_backtrack_while (fuel : nat) (available : Z)
    (buffer removed : list Z) (lastCharSize : Z) :
  appending (C40Encoder.backtrack_while fuel available buffer removed
               lastCharSize).
Proof.
  revert buffer removed lastCharSize.
  induction fuel as [|fuel IH]; intros buffer removed lastCharSize;
    cbn [C40Encoder.backtrack_while]; asteps;
    try apply appending_Backtrack; try apply IH.
Qed.

Lemma appending_avoid_single_value (available : Z) (buffer : list Z)
    (lastCharSize : Z) :
  appending (C40Encoder.avoid_single_value available buffer lastCharSize).
Proof.
  unfold C40Encoder.avoid_single_value. asteps;
    try apply appending_Backtrack; try apply appending_backtrack_while.
Qed.

Lemma appending_C40_encode_loop (fuel : nat) (encodingMode : Encodation)
    (buffer : list Z) :
  appending (C40Encoder.encode_loop fuel encodeChar encodingMode buffer).
Proof.
  revert buffer. induction fuel as [|fuel IH]; intros buffer;
    cbn [C40Encoder.encode_loop]; asteps;
    try apply appending_avoid_single_value; try apply IH.
Qed.

Lemma appending_EncodeC40_with (encodingMode : Encodation) :
  appending (C40Encoder.EncodeC40_with encodeChar encodingMode).
Proof.
  unfold C40Encoder.EncodeC40_with. asteps.
  - apply appending_C40_encode_loop.
  - apply appending_C40_HandleEOD.
Qed.

End AppendingC40.

Lemma appending_X12_encode_loop (fuel : nat) (buffer : list Z) :
  appending (X12Encoder.encode_loop fuel buffer).
Proof.
  revert buffer. induction fuel as [|fuel IH]; intros buffer;
    cbn [X12Encoder.encode_loop]; asteps; try apply IH.
Qed.

Lemma appending_EncodeX12 : appending X12Encoder.EncodeX12.
Proof.
  unfold X12Encoder.EncodeX12, X12Encoder.HandleEOD. asteps.
  apply appending_X12_encode_loop.
Qed.

Lemma appending_addCodewords (cws : list Z) :
  appending (EdifactEncoder.addCodewords cws).
Proof.
  induction cws as [|cw cws IH]; cbn [EdifactEncoder.addCodewords]; asteps.
Qed.

#[local] Hint Resolve appending_addCodewords : appending.

Lemma appending_Edifact_HandleEOD_try (buffer : list Z) :
  appending (EdifactEncoder.HandleEOD_try buffer).
Proof. unfold EdifactEncoder.HandleEOD_try. asteps. Qed.

Lemma appending_Edifact_HandleEOD (buffer : list Z) :
  appending (EdifactEncoder.HandleEOD buffer).
Proof.
  intros ctx. unfold EdifactEncoder.HandleEOD.
  pose proof (appending_Edifact_HandleEOD_try buffer ctx) as H.
  destruct (EdifactEncoder.HandleEOD_try buffer ctx) as [[|] ctx'|e ctx'];
    cbn [context_of] in *; try exact H;
    apply (appends_trans _ _ _ H); repeat split; exists []; cbn;
    now rewrite app_nil_r.
Qed.

Lemma appending_Edifact_encode_loop (fuel : nat) (buffer : list Z) :
  appending (EdifactEncoder.encode_loop fuel buffer).
Proof.
  revert buffer. induction fuel as [|fuel IH]; intros buffer;
    cbn [EdifactEncoder.encode_loop]; asteps; try apply IH.
Qed.

Lemma appending_EncodeEdifact : appending EdifactEncoder.EncodeEdifact.
Proof.
  unfold EdifactEncoder.EncodeEdifact. asteps.
  - apply appending_Edifact_encode_loop.
  - apply appending_Edifact_HandleEOD.
Qed.

Lemma appending_Base256_encode_loop (fuel : nat) (buffer : list Z) :
  appending (Base256Encoder.encode_loop fuel buffer).
Proof.
  revert buffer. induction fuel as [|fuel IH]; intros buffer;
    cbn [Base256Encoder.encode_loop]; asteps; try apply IH.
Qed.

Lemma appending_emit (buffer : list Z) : appending (Base256Encoder.emit buffer).
Proof.
  induction buffer as [|c tail IH]; cbn [Base256Encoder.emit]; asteps.
Qed.

Lemma appending_EncodeBase256 : appending Base256Encoder.EncodeBase256.
Proof.
  unfold Base256Encoder.EncodeBase256. asteps;
    try apply appending_Base256_encode_loop; try apply appending_emit.
Qed.

Lemma appending_dispatch (encodingMode : Encodation) :
  appending (dispatch encodingMode).
Proof.
  destruct encodingMode; cbn [dispatch].
  - apply appending_EncodeASCII.
  - apply appending_EncodeC40_with.
  - apply appending_EncodeC40_with.
  - apply appending_EncodeX12.
  - apply appending_EncodeEdifact.
  - apply appending_EncodeBase256.
Qed.

(** X26: the encoders only add codewords. Whether the encoder of a mode
    returns or throws, the context it leaves has the message, the catalog
    and the count of skipped characters it was given, and codewords that
    begin with the codewords it was given: no codeword, once written, is
    changed or taken back, by the backtracking of the C40 encoder
    neither. The same holds for the whole main loop. *)
Theorem X26_codewords_only_appended (fuel : nat) (encodingMode : Encodation)
    (ctx : EncoderContext) :
  appends ctx (context_of (dispatch encodingMode ctx))
  /\ match main_loop fuel encodingMode ctx with
     | Some r => appends ctx (context_of r)
     | None => True
     end.
Proof.
  split; [apply appending_dispatch|].
  revert encodingMode ctx. induction fuel as [|fuel IH]; intros encodingMode ctx;
    cbn [main_loop]; destruct (hasMoreCharacters ctx);
    try exact I; try apply appends_refl.
  pose proof (appending_dispatch encodingMode ctx) as Hd.
  destruct (dispatch encodingMode ctx) as [u ctx'|e ctx']; cbn [context_of] in *;
    [|exact Hd].
  destruct (ctx_newEncoding ctx') as [mode|].
  - specialize (IH mode (with_newEncoding None ctx')).
    destruct (main_loop fuel mode (with_newEncoding None ctx')); [|exact I].
    apply (appends_trans _ _ _ Hd). refine (appends_trans _ _ _ _ IH).
    repeat split. exists []. cbn. now rewrite app_nil_r.
  - specialize (IH encodingMode ctx').
    destruct (main_loop fuel encodingMode ctx'); [|exact I].
    exact (appends_trans _ _ _ Hd IH).
Qed.

(** ** A step of the ASCII encoder *)

Lemma leading_digits_two (a : ascii) (r : list ascii) :
  ASCIIEncoder.leading_digits (a :: r) >= 2 ->
  IsDigit (code a) = true
  /\ exists b r', r = b :: r' /\ IsDigit (code b) = true.
Proof.
  cbn [ASCIIEncoder.leading_digits].
  destruct (IsDigit (code a)); [|lia]. intros H. split; [reflexivity|].
  destruct r as [|b r']; cbn [ASCIIEncoder.leading_digits] in H; [lia|].
  destruct (IsDigit (code b)) eqn:Hb; [|lia].
  exists b, r'. split; [reflexivity|exact Hb].
Qed.

(** X27: a step of the ASCII encoder that returns has done one of three
    things. It has written one codeword from 130 to 229 for two digits
    and moved the cursor by two; or it has written the latch of the mode
    that the look-ahead test chose, another mode than ASCII, and asked
    for that mode, with the cursor where it was; or it has written the
    codewords of one character, which is the character plus one, or 235
    and the character minus 127 from 128 on, and moved the cursor by one.
    The value ['?'] that [EncodeASCIIDigits] has for characters other
    than digits is never written. *)
Theorem X27_EncodeASCII_step (ctx ctx' : EncoderContext) :
  ASCIIEncoder.EncodeASCII ctx = Ok tt ctx' ->
  let msg := ctx_msg ctx in
  let pos := ctx_pos ctx in
  (exists d1 d2,
      msg_at msg pos = Some d1 /\ msg_at msg (pos + 1) = Some d2
      /\ IsDigit d1 = true /\ IsDigit d2 = true
      /\ ctx' = with_pos (pos + 2)
                  (with_codeword (130 + 10 * (d1 - 48) + (d2 - 48)) ctx))
  \/ (exists newMode,
        newMode = LookAheadTest msg pos ASCII_ENCODATION
        /\ newMode <> ASCII_ENCODATION
        /\ ctx' = with_newEncoding (Some newMode)
                    (with_codeword (LATCHES newMode) ctx))
  \/ (exists c,
        msg_at msg pos = Some c
        /\ LookAheadTest msg pos ASCII_ENCODATION = ASCII_ENCODATION
        /\ ctx' = with_pos (pos + 1)
                    (with_codewords
                       (if 128 <=? c then [235; c - 127] else [c + 1]) ctx)).
Proof.
  intros H msg pos.
  unfold ASCIIEncoder.EncodeASCII in H. rewrite !bind_gets in H.
  unfold ASCIIEncoder.DetermineConsecutiveDigitCount in H.
  fold msg pos in H.
  destruct (Z.geb_spec (ASCIIEncoder.leading_digits (msg_from msg pos)) 2)
    as [Hn|Hn].
  - left.
    apply bind_Ok in H. destruct H as (d1 & ctx1 & Hc & H).
    unfold currentChar in Hc. fold msg pos in Hc.
    destruct (msg_at msg pos) as [c1|] eqn:Hat1; [|discriminate].
    cbn in Hc. injection Hc as <- <-.
    apply bind_Ok in H. destruct H as (d2 & ctx2 & Hc & H).
    unfold nextChar in Hc. fold msg pos in Hc.
    destruct (msg_at msg (pos + 1)) as [c2|] eqn:Hat2; [|discriminate].
    cbn in Hc. injection Hc as <- <-.
    destruct (msg_at_from _ _ _ Hat1) as (Hpos & a & <- & Hfrom).
    destruct (msg_at_from _ _ _ Hat2) as (_ & b & <- & Hfrom2).
    rewrite Hfrom in Hn. apply Z.le_ge, leading_digits_two in Hn.
    destruct Hn as (Ha & b' & r' & Hr & Hb).
    rewrite Hfrom2 in Hr. injection Hr as -> _.
    exists (code a), (code b'). repeat split; try assumption.
    unfold bind, addCodeword, setCurrentPos, modify,
      ASCIIEncoder.EncodeASCIIDigits in H.
    rewrite Ha, Hb in H. cbn [andb] in H. injection H as <-.
    replace (130 + 10 * (code a - 48) + (code b' - 48))
      with ((code a - 48) * 10 + (code b' - 48) + 130) by lia.
    reflexivity.
  - right.
    apply bind_Ok in H. destruct H as (c & ctx1 & Hc & H).
    unfold currentChar in Hc. fold msg pos in Hc.
    destruct (msg_at msg pos) as [c1|] eqn:Hat; [|discriminate].
    cbn in Hc. injection Hc as <- <-.
    destruct (Encodation_eqb (LookAheadTest msg pos ASCII_ENCODATION)
                ASCII_ENCODATION) eqn:Hla; cbn [negb] in H.
    + right. apply Encodation_eqb_eq in Hla. exists c1.
      split; [reflexivity|]. split; [exact Hla|].
      pose proof (msg_at_range _ _ _ Hat) as Hr. unfold byte_range in Hr.
      unfold IsExtendedASCII in H.
      replace (c1 <=? 255) with true in H by (symmetry; apply Z.leb_le; lia).
      rewrite andb_true_r in H.
      destruct (128 <=? c1);
        unfold bind, addCodeword, setCurrentPos, modify, UPPER_SHIFT in H;
        injection H as <-;
        rewrite !with_codeword_eq, ?with_codewords_app; cbn [app];
        try reflexivity.
      replace (c1 - 128 + 1) with (c1 - 127) by lia. reflexivity.
    + left. apply Encodation_eqb_neq in Hla.
      exists (LookAheadTest msg pos ASCII_ENCODATION).
      split; [reflexivity|]. split; [exact Hla|].
      unfold bind, addCodeword, setNewEncoding, modify in H.
      injection H as <-. reflexivity.
Qed.

Lemma X27_EncodeASCII_step_witness :
  let ctx := mkContext (msg_of "12") ecc200 0 [] None None 0 in
  let ctx' := mkContext (msg_of "12") ecc200 2 [142] None None 0 in
  let msg := ctx_msg ctx in
  let pos := ctx_pos ctx in
  (exists d1 d2,
      msg_at msg pos = Some d1 /\ msg_at msg (pos + 1) = Some d2
      /\ IsDigit d1 = true /\ IsDigit d2 = true
      /\ ctx' = with_pos (pos + 2)
                  (with_codeword (130 + 10 * (d1 - 48) + (d2 - 48)) ctx))
  \/ (exists newMode,
        newMode = LookAheadTest msg pos ASCII_ENCODATION
        /\ newMode <> ASCII_ENCODATION
        /\ ctx' = with_newEncoding (Some newMode)
                    (with_codeword (LATCHES newMode) ctx))
  \/ (exists c,
        msg_at msg pos = Some c
        /\ LookAheadTest msg pos ASCII_ENCODATION = ASCII_ENCODATION
        /\ ctx' = with_pos (pos + 1)
                    (with_codewords
                       (if 128 <=? c then [235; c - 127] else [c + 1]) ctx)).
Proof.
  apply (X27_EncodeASCII_step (mkContext (msg_of "12") ecc200 0 [] None None 0)).
  reflexivity.
Defined.

(** ** The Text set and the C40 set *)

(** X28: the Text encoder gives a character the values that the C40
    encoder gives the character with the case of its letter exchanged,
    and the same count: the two sets differ by the places of the upper
    case and lower case letters alone. *)
Theorem X28_Text_is_C40_with_cases_exchanged (a : ascii) :
  DMTextEncoder.EncodeChar (code a) []
  = C40Encoder.EncodeChar (swap_case (code a)) [].
Proof.
  assert (swap_test a = true) as H
    by (revert a; apply forall_ascii; vm_compute; reflexivity).
  unfold swap_test in H.
  destruct (DMTextEncoder.EncodeChar (code a) []) as [[n va]|]; [|discriminate].
  destruct (C40Encoder.EncodeChar (swap_case (code a)) []) as [[m vb]|];
    [|discriminate].
  apply andb_true_iff in H. destruct H as [Hn Hv].
  apply Z.eqb_eq in Hn. apply wide_eqb_eq in Hv. congruence.
Qed.

(** ** What a reader of the symbol gets back *)

Lemma randomized255_length (count : Z) (bytes : list Z) :
  List.length (randomized255 count bytes) = List.length bytes.
Proof.
  revert count. induction bytes as [|b bytes IH]; intros count; cbn;
    [reflexivity|]. now rewrite IH.
Qed.

Lemma randomized255_nth (count : Z) (bytes : list Z) (i : nat) :
  (i < List.length bytes)%nat ->
  nth i (randomized255 count bytes) 0
  = Base256Encoder.Randomize255State (char_to_int (nth i bytes 0))
      (count + Z.of_nat i + 1).
Proof.
  revert count i. induction bytes as [|b bytes IH]; intros count i Hi;
    [cbn in Hi; lia|].
  destruct i as [|i]; cbn [randomized255 nth].
  - replace (count + Z.of_nat 0 + 1) with (count + 1) by lia.
    unfold Base256Encoder.Randomize255State, pseudo_random. reflexivity.
  - rewrite IH by (cbn in Hi; lia). f_equal. lia.
Qed.

(** X29: the bytes that the Base 256 encoder hands to its last loop come
    back from the codewords. The loop never throws; it adds as many
    codewords as the buffer has bytes, and for bytes from 0 to 255 the
    codeword at each place, with the pseudo-random number of its position
    in the symbol taken off, is the byte at that place. *)
Theorem X29_Base256_emit_decodes (buffer : list Z) (ctx : EncoderContext) :
  Forall byte_range buffer ->
  exists cws,
    Base256Encoder.emit buffer ctx = Ok tt (with_codewords cws ctx)
    /\ List.length cws = List.length buffer
    /\ forall i, (i < List.length buffer)%nat ->
         unrandomize255 (nth i cws 0) (codewordCount ctx + Z.of_nat i + 1)
         = nth i buffer 0.
Proof.
  intros Hb. exists (randomized255 (codewordCount ctx) buffer).
  split; [apply emit_spec|]. split; [apply randomized255_length|].
  intros i Hi. rewrite randomized255_nth by exact Hi.
  apply unrandomize255_char.
  rewrite Forall_forall in Hb. apply Hb, nth_In, Hi.
Qed.

Lemma X29_Base256_emit_decodes_witness :
  exists cws,
    Base256Encoder.emit [2; 171; 228] (initial_context ecc200 [])
    = Ok tt (with_codewords cws (initial_context ecc200 []))
    /\ List.length cws = 3%nat
    /\ forall i, (i < 3)%nat ->
         unrandomize255 (nth i cws 0) (0 + Z.of_nat i + 1) = nth i [2; 171; 228] 0.
Proof.
  apply (X29_Base256_emit_decodes [2; 171; 228] (initial_context ecc200 [])).
  repeat constructor; unfold byte_range; lia.
Defined.

(** X30: the pads come back from the codewords. The loop that fills the
    symbol, given the turns it needs, adds the codewords that the
    capacity leaves room for, and each of them, with the pseudo-random
    number of its position in the symbol taken off, is the pad 129. *)
Theorem X30_pads_decode (capacity : Z) (ctx : EncoderContext) :
  let n := Z.to_nat (capacity - codewordCount ctx) in
  exists pads,
    pad_loop n capacity ctx = Ok tt (with_codewords pads ctx)
    /\ List.length pads = n
    /\ forall i, (i < n)%nat ->
         unrandomize253 (nth i pads 0) (codewordCount ctx + Z.of_nat i + 1) = PAD.
Proof.
  intros n. exists (padding n (codewordCount ctx)).
  split; [apply pad_loop_spec; lia|]. split; [apply padding_length|].
  intros i Hi. rewrite padding_nth by exact Hi.
  change (pad_at (codewordCount ctx + Z.of_nat i + 1))
    with (Randomize253State PAD (codewordCount ctx + Z.of_nat i + 1)).
  apply unrandomize253_Randomize. unfold PAD. lia.
Qed.
